(** * Legalise: the legal-document analysis pipeline

    A shallow embedding of the analysis core of the repository
    (classifier, entity extractor, clause segmenter, chunker, simplifier and
    the batched orchestration) together with the properties stated about it.

    Modelling conventions

    - A Python [str] is a [list ascii].  Case conversion acts on the ASCII
      letters and the character classes [\s], [\d], [\w] are the ASCII ones,
      so the development speaks about ASCII text.
    - Python floats hold here only small integers, their quotients and
      comparisons of those; they are modelled by rationals ([Q]).
    - A Python [dict] is an association list in insertion order, which is the
      iteration order of the dictionaries of the source.
    - A call that can raise returns a value of [result]; [try]/[except] is
      a case analysis on it.  The exceptions of [exn] are instances of
      [Exception], which is what the handlers of the source catch; where an
      exception that is no instance of [Exception] makes a difference, in
      the filter of the batched simplification, it has a type of its own.
    - A class is a module: its object is a record [t], its [__init__] is
      [init], and a method takes the object as its first argument when it
      reads an attribute.
    - The [while] loop of the chunker is a function with fuel; that the fuel
      given suffices is proved. *)

From Stdlib Require Import Ascii String List Bool Arith ZArith QArith Qminmax Lia.
Import ListNotations.

Close Scope Q_scope.
Open Scope string_scope.
Open Scope nat_scope.
Open Scope list_scope.

Set Implicit Arguments.

(* ================================================================== *)
(** * Python values and exceptions *)

Definition str := list ascii.

Definition s2l (s : string) : str := list_ascii_of_string s.

Inductive exn : Type :=
| TypeError
| AttributeError
| ZeroDivisionError
| ValueError
| ReError
| RuntimeError.

Inductive result (A : Type) : Type :=
| Ok (a : A)
| Raise (e : exn).

Arguments Ok {A} a.
Arguments Raise {A} e.

Definition bind {A B : Type} (x : result A) (f : A -> result B) : result B :=
  match x with
  | Ok a => f a
  | Raise e => Raise e
  end.

Notation "x <- c ;; k" := (bind c (fun x => k))
  (at level 61, c at next level, right associativity).

Definition raised {A : Type} (x : result A) : bool :=
  match x with Ok _ => false | Raise _ => true end.

(** Fold of a fallible step over a list, stopping at the first exception:
    the shape of a [for] loop inside a [try] block. *)
Fixpoint foldM {A B : Type} (f : B -> A -> result B) (l : list A) (b : B)
  : result B :=
  match l with
  | [] => Ok b
  | a :: l' => b' <- f b a ;; foldM f l' b'
  end.

(** A dynamically typed argument: the functions of the source are annotated
    with [str] but receive whatever the caller passes. *)
Inductive pyobj : Type :=
| PyStr (s : str)
| PyNone.

(* ================================================================== *)
(** * The string methods of Python used by the source *)

Module Py.

Definition code (c : ascii) : N := N_of_ascii c.

Definition between (lo hi : N) (c : ascii) : bool :=
  (N.leb lo (code c) && N.leb (code c) hi)%bool.

Definition is_upper (c : ascii) : bool := between 65 90 c.
Definition is_lower (c : ascii) : bool := between 97 122 c.
Definition is_digit (c : ascii) : bool := between 48 57 c.

(** [str.isspace] on the ASCII range: tab, LF, VT, FF, CR, the four
    separators FS, GS, RS, US and the blank. *)
Definition is_space (c : ascii) : bool :=
  (between 9 13 c || between 28 32 c)%bool.

Definition is_word (c : ascii) : bool :=
  (is_upper c || is_lower c || is_digit c || N.eqb (code c) 95)%bool.

Definition lower_char (c : ascii) : ascii :=
  if is_upper c then ascii_of_N (code c + 32) else c.

Definition upper_char (c : ascii) : ascii :=
  if is_lower c then ascii_of_N (code c - 32) else c.

(** [s.lower()] *)
Definition lower (s : str) : str := map lower_char s.

Fixpoint eqb (a b : str) : bool :=
  match a, b with
  | [], [] => true
  | x :: a', y :: b' => (Ascii.eqb x y && eqb a' b')%bool
  | _, _ => false
  end.

(** [s.startswith(p)] *)
Fixpoint startswith (p s : str) : bool :=
  match p, s with
  | [], _ => true
  | x :: p', y :: s' => (Ascii.eqb x y && startswith p' s')%bool
  | _ :: _, [] => false
  end.

(** [sub in s] *)
Fixpoint contains (sub s : str) : bool :=
  (startswith sub s ||
   match s with
   | [] => false
   | _ :: s' => contains sub s'
   end)%bool.

(** [s.lstrip()], [s.rstrip()], [s.strip()] *)
Fixpoint lstrip (s : str) : str :=
  match s with
  | [] => []
  | c :: s' => if is_space c then lstrip s' else s
  end.

Fixpoint rstrip (s : str) : str :=
  match s with
  | [] => []
  | c :: s' =>
      match rstrip s' with
      | [] => if is_space c then [] else [c]
      | r => c :: r
      end
  end.

Definition strip (s : str) : str := rstrip (lstrip s).

(** Put a character in front of the first piece. *)
Definition cons_first (c : ascii) (pieces : list str) : list str :=
  match pieces with
  | [] => [[c]]
  | p :: ps => (c :: p) :: ps
  end.

(** [s.split()]: the maximal runs of non-blank characters. *)
Fixpoint split_ws (s : str) : list str :=
  match s with
  | [] => []
  | c :: s' =>
      if is_space c then split_ws s'
      else
        match s' with
        | [] => [[c]]
        | d :: _ =>
            if is_space d then [c] :: split_ws s'
            else cons_first c (split_ws s')
        end
  end.

(** [s.split(sep)] for a non-empty separator: [skip] counts the characters
    of a separator that is being stepped over. *)
Fixpoint split_aux (sep : str) (skip : nat) (s : str) : list str :=
  match s with
  | [] => [[]]
  | c :: s' =>
      match skip with
      | S k => split_aux sep k s'
      | O =>
          if startswith sep s
          then [] :: split_aux sep (length sep - 1) s'
          else cons_first c (split_aux sep 0 s')
      end
  end.

Definition split (sep s : str) : list str := split_aux sep 0 s.

(** [sep.join(parts)] *)
Fixpoint join (sep : str) (parts : list str) : str :=
  match parts with
  | [] => []
  | [p] => p
  | p :: rest => p ++ sep ++ join sep rest
  end.

(** Index normalisation of a slice bound: negative bounds count from the
    end, and every bound is clipped to [0, len]. *)
Definition norm (len i : Z) : Z :=
  if (i <? 0)%Z then Z.max 0 (i + len) else Z.min i len.

(** [s[i:j]] *)
Definition slice (s : str) (i j : Z) : str :=
  let len := Z.of_nat (length s) in
  let a := norm len i in
  let b := norm len j in
  firstn (Z.to_nat (b - a)) (skipn (Z.to_nat a) s).

(** [s[:n]] for a non-negative literal [n] *)
Definition prefix (n : nat) (s : str) : str := firstn n s.

(** Position of the last occurrence of the character [c] in a list, counted
    from [base]; [-1] when there is none. *)
Fixpoint rfind_char (c : ascii) (s : str) (base : Z) : Z :=
  match s with
  | [] => (-1)%Z
  | x :: s' =>
      let r := rfind_char c s' (base + 1) in
      if (0 <=? r)%Z then r
      else if Ascii.eqb x c then base else (-1)%Z
  end.

(** [s.rfind(c, i, j)] for a one-character needle. *)
Definition rfind (s : str) (c : ascii) (i j : Z) : Z :=
  let len := Z.of_nat (length s) in
  let a := norm len i in
  rfind_char c (slice s i j) a.

End Py.

(* ================================================================== *)
(** * Regular expressions: the fragment of Python's [re] the source uses

    The matcher is a backtracking matcher with the priorities of [re]:
    the left alternative first, greedy repetition (one more iteration is
    tried before stopping).  An iteration of a repetition has to consume at
    least one character; no pattern of the source has a repetition whose
    body matches the empty string.  No pattern of the modelled functions
    matches the empty string either, so the treatment of empty matches by
    [finditer] (record it and move one character on) is never exercised. *)

Module Re.

Inductive regex : Type :=
| Eps : regex
| Chr : ascii -> regex
| Cls : bool -> list (ascii * ascii) -> regex
| WordB : regex
| Seq : regex -> regex -> regex
| Alt : regex -> regex -> regex
| Rep : nat -> option nat -> regex -> regex
| Grp : nat -> regex -> regex.

(** Captured groups, most recent first. *)
Definition caps := list (nat * str).

Fixpoint in_ranges (rs : list (ascii * ascii)) (c : ascii) : bool :=
  match rs with
  | [] => false
  | (lo, hi) :: rs' =>
      (Py.between (Py.code lo) (Py.code hi) c || in_ranges rs' c)%bool
  end.

(** Membership in a class; under [IGNORECASE] a character matches when it or
    one of its case variants is in the set. *)
Definition cls_match (ic neg : bool) (rs : list (ascii * ascii)) (c : ascii)
  : bool :=
  let hit :=
    if ic
    then (in_ranges rs c || in_ranges rs (Py.lower_char c)
          || in_ranges rs (Py.upper_char c))%bool
    else in_ranges rs c in
  if neg then negb hit else hit.

Definition chr_match (ic : bool) (x c : ascii) : bool :=
  if ic then Ascii.eqb (Py.lower_char x) (Py.lower_char c)
  else Ascii.eqb x c.

Definition opt_word (p : option ascii) : bool :=
  match p with
  | Some c => Py.is_word c
  | None => false
  end.

(** [\b]: exactly one of the two neighbours is a word character. *)
Definition at_boundary (p : option ascii) (s : str) : bool :=
  xorb (opt_word p) (opt_word (hd_error s)).

Definition below (cnt : nat) (hi : option nat) : bool :=
  match hi with
  | None => true
  | Some h => cnt <? h
  end.

Section Matcher.

Variable ic : bool.
Variable R : Type.

Definition cont : Type := option ascii -> str -> caps -> option R.

(** The greedy loop of a repetition whose body is matched by [ma]: one more
    iteration is tried first, as long as the count allows it and the
    iteration consumes something; otherwise the loop stops, if the count
    has reached the lower bound.  [fuel] bounds the iterations by the
    length of the text. *)
Fixpoint rep_loop (ma : option ascii -> str -> caps -> cont -> option R)
  (lo : nat) (hi : option nat) (k : cont) (fuel cnt : nat)
  (p : option ascii) (s : str) (cs : caps) {struct fuel} : option R :=
  let stop := if lo <=? cnt then k p s cs else None in
  match fuel with
  | O => stop
  | S fuel' =>
      if below cnt hi
      then match ma p s cs
                   (fun p' s' cs' =>
                      if length s' <? length s
                      then rep_loop ma lo hi k fuel' (S cnt) p' s' cs'
                      else None) with
           | Some x => Some x
           | None => stop
           end
      else stop
  end.

(** [m r p s cs k]: match [r] at the position whose previous character is
    [p] and whose remaining text is [s], then continue with [k]. *)
Fixpoint m (r : regex) (p : option ascii) (s : str) (cs : caps)
  (k : cont) {struct r} : option R :=
  match r with
  | Eps => k p s cs
  | Chr x =>
      match s with
      | c :: s' => if chr_match ic x c then k (Some c) s' cs else None
      | [] => None
      end
  | Cls neg rs =>
      match s with
      | c :: s' => if cls_match ic neg rs c then k (Some c) s' cs else None
      | [] => None
      end
  | WordB => if at_boundary p s then k p s cs else None
  | Seq a b => m a p s cs (fun p' s' cs' => m b p' s' cs' k)
  | Alt a b =>
      match m a p s cs k with
      | Some x => Some x
      | None => m b p s cs k
      end
  | Rep lo hi a => rep_loop (m a) lo hi k (length s) 0 p s cs
  | Grp i a =>
      m a p s cs
        (fun p' s' cs' =>
           k p' s' ((i, firstn (length s - length s') s) :: cs'))
  end.

End Matcher.

(** Relations between a run on a text and a run on the text followed by
    [x]: what the continuation on the text accepts, the continuation on the
    extended text accepts too; and a matcher that succeeds on the text
    succeeds on the extended text. *)
Definition cont_ext {R R' : Type} (x : str) (k : cont R) (k' : cont R')
  : Prop :=
  forall p s cs, k p s cs <> None -> forall cs', k' p (s ++ x) cs' <> None.

Definition matcher_ext {R R' : Type} (x : str)
  (ma : option ascii -> str -> caps -> cont R -> option R)
  (ma' : option ascii -> str -> caps -> cont R' -> option R') : Prop :=
  forall k k', cont_ext x k k' ->
  forall p s cs, ma p s cs k <> None ->
  forall cs', ma' p (s ++ x) cs' k' <> None.

(** One match: its span, its text and its groups. *)
Record Match : Type := mkMatch {
  m_start : nat;
  m_end : nat;
  m_text : str;
  m_caps : caps
}.

Definition match_here (ic : bool) (r : regex) (p : option ascii) (s : str)
  (idx : nat) : option Match :=
  match m ic r p s [] (fun _ s' cs => Some (s', cs)) with
  | Some (s', cs) =>
      let n := length s - length s' in
      Some (mkMatch idx (idx + n) (firstn n s) cs)
  | None => None
  end.

(** [re.search], scanning from the position [idx]. *)
Fixpoint search_from (ic : bool) (r : regex) (p : option ascii) (s : str)
  (idx : nat) : option Match :=
  match match_here ic r p s idx with
  | Some mt => Some mt
  | None =>
      match s with
      | [] => None
      | c :: s' => search_from ic r (Some c) s' (S idx)
      end
  end.

Definition search (ic : bool) (r : regex) (s : str) : option Match :=
  search_from ic r None s 0.

(** The position reached after [n] more characters. *)
Fixpoint advance (n : nat) (p : option ascii) (s : str) : option ascii * str :=
  match n, s with
  | S n', c :: s' => advance n' (Some c) s'
  | _, _ => (p, s)
  end.

(** [re.finditer]: the non-overlapping matches, left to right. *)
Fixpoint finditer_from (fuel : nat) (ic : bool) (r : regex)
  (p : option ascii) (s : str) (idx : nat) : list Match :=
  match fuel with
  | O => []
  | S fuel' =>
      match search_from ic r p s idx with
      | None => []
      | Some mt =>
          let consumed := m_end mt - idx in
          let step := if m_end mt =? m_start mt then S consumed else consumed in
          let '(p', s') := advance step p s in
          mt :: (if length s <? step then []
                 else finditer_from fuel' ic r p' s' (idx + step))
      end
  end.

Definition finditer (ic : bool) (r : regex) (s : str) : list Match :=
  finditer_from (S (length s)) ic r None s 0.

Definition group (i : nat) (mt : Match) : str :=
  match find (fun c => fst c =? i) (m_caps mt) with
  | Some c => snd c
  | None => []
  end.

(** [re.findall] for a pattern without a group: the matched texts. *)
Definition findall (ic : bool) (r : regex) (s : str) : list str :=
  map m_text (finditer ic r s).

(** [re.findall] for a pattern with one group: the texts of the group. *)
Definition findall_group (ic : bool) (r : regex) (s : str) : list str :=
  map (group 1) (finditer ic r s).

(** A replacement template: literal text and references [\i]. *)
Inductive ritem : Type :=
| RLit (s : str)
| RRef (i : nat).

Definition expand (t : list ritem) (mt : Match) : str :=
  flat_map (fun it => match it with
                      | RLit s => s
                      | RRef i => group i mt
                      end) t.

(** The text between the matches, with [f] applied to every match. *)
Fixpoint stitch (f : Match -> str) (s : str) (pos : nat) (ms : list Match)
  : str :=
  match ms with
  | [] => skipn pos s
  | mt :: ms' =>
      firstn (m_start mt - pos) (skipn pos s) ++ f mt
        ++ stitch f s (m_end mt) ms'
  end.

(** [re.sub(r, t, s)] *)
Definition sub (ic : bool) (r : regex) (t : list ritem) (s : str) : str :=
  stitch (expand t) s 0 (finditer ic r s).

(** [re.split(r, s)] for a pattern without a group. *)
Fixpoint pieces (s : str) (pos : nat) (ms : list Match) : list str :=
  match ms with
  | [] => [skipn pos s]
  | mt :: ms' =>
      firstn (m_start mt - pos) (skipn pos s) :: pieces s (m_end mt) ms'
  end.

Definition split (ic : bool) (r : regex) (s : str) : list str :=
  pieces s 0 (finditer ic r s).

(** ** Pattern syntax *)

(** A literal string. *)
Fixpoint lit_list (s : str) : regex :=
  match s with
  | [] => Eps
  | [c] => Chr c
  | c :: s' => Seq (Chr c) (lit_list s')
  end.

Definition lit (s : string) : regex := lit_list (s2l s).

Fixpoint seq (rs : list regex) : regex :=
  match rs with
  | [] => Eps
  | [r] => r
  | r :: rs' => Seq r (seq rs')
  end.

Fixpoint alt (rs : list regex) : regex :=
  match rs with
  | [] => Cls false []
  | [r] => r
  | r :: rs' => Alt r (alt rs')
  end.

Definition opt (r : regex) : regex := Rep 0 (Some 1) r.
Definition plus (r : regex) : regex := Rep 1 None r.
Definition star (r : regex) : regex := Rep 0 None r.

Definition rng (lo hi : string) : ascii * ascii :=
  (hd "000"%char (s2l lo), hd "000"%char (s2l hi)).

Definition one (c : string) : ascii * ascii := rng c c.

Definition r_space : list (ascii * ascii) :=
  [(ascii_of_N 9, ascii_of_N 13); (ascii_of_N 28, ascii_of_N 32)].
Definition r_digit : list (ascii * ascii) := [rng "0" "9"].
Definition r_word : list (ascii * ascii) :=
  [rng "a" "z"; rng "A" "Z"; rng "0" "9"; one "_"].
Definition r_upper : list (ascii * ascii) := [rng "A" "Z"].
Definition r_lower : list (ascii * ascii) := [rng "a" "z"].

Definition ws : regex := Cls false r_space.
Definition digit : regex := Cls false r_digit.
Definition wordc : regex := Cls false r_word.
(** [.]: any character but the line feed. *)
Definition dot : regex := Cls true [(ascii_of_N 10, ascii_of_N 10)].

(** The predicate of the assertion-free fragment: no [\b]. *)
Fixpoint no_assert (r : regex) : bool :=
  match r with
  | WordB => false
  | Seq a b | Alt a b => (no_assert a && no_assert b)%bool
  | Rep _ _ a | Grp _ a => no_assert a
  | _ => true
  end.

End Re.

(* ================================================================== *)
(** * Helpers shared by the classifiers *)

(** [max(items, key=key)]: the first item whose key is maximal; the running
    best is replaced only by a strictly larger key.  [None] stands for the
    [ValueError] of an empty sequence. *)
Section PyMax.

Variable A K : Type.
Variable gt : K -> K -> bool.
Variable key : A -> K.

Definition max_step (best : A) (x : A) : A :=
  if gt (key x) (key best) then x else best.

Definition py_max (items : list A) : option A :=
  match items with
  | [] => None
  | x :: rest => Some (fold_left max_step rest x)
  end.

End PyMax.

Definition Qgt_bool (a b : Q) : bool := negb (Qle_bool a b).

(** Literal words separated by [\s+]. *)
Definition words (ws : list string) : Re.regex :=
  Re.seq (flat_map (fun w => [Re.plus Re.ws; Re.lit w]) ws).

Definition phrase (ws : list string) : Re.regex :=
  match ws with
  | [] => Re.Eps
  | w :: rest =>
      match rest with
      | [] => Re.lit w
      | _ => Re.Seq (Re.lit w) (words rest)
      end
  end.

(* ================================================================== *)
(** * classifier.py: [DocumentClassifier] *)

Module DocumentClassifier.

Record Config : Type := mkConfig {
  keywords : list str;
  patterns : list Re.regex;
  weight : Q
}.

(** The object: its only attribute is the rule registry. *)
Record t : Type := mkSelf {
  document_patterns : list (str * Config)
}.

Definition kw (l : list string) : list str := map s2l l.

(** [__init__] *)
Definition init : t := mkSelf
  [ (s2l "nda",
     mkConfig
       (kw ["non-disclosure"; "confidentiality"; "confidential information";
            "proprietary information"; "trade secrets";
            "non-disclosure agreement"; "confidentiality agreement";
            "secrecy agreement"])
       [ Re.seq [Re.lit "non"; Re.Cls false [Re.one "-"; Re.one " "];
                 Re.lit "disclosure"];
         Re.Seq (Re.lit "confidential") (Re.opt (Re.lit "ity"));
         phrase ["proprietary"; "information"];
         Re.Seq (phrase ["trade"; "secret"]) (Re.opt (Re.lit "s")) ]
       1%Q);
    (s2l "employment_contract",
     mkConfig
       (kw ["employment"; "employee"; "employer"; "job"; "position";
            "salary"; "wages"; "benefits"; "termination"; "resignation";
            "work schedule"; "duties"; "responsibilities"])
       [ Re.seq [Re.lit "employment"; Re.plus Re.ws;
                 Re.Alt (Re.lit "agreement") (Re.lit "contract")];
         phrase ["employee"; "handbook"];
         phrase ["job"; "description"];
         phrase ["salary"; "and"; "benefits"] ]
       1%Q);
    (s2l "service_agreement",
     mkConfig
       (kw ["service"; "services"; "provider"; "client"; "customer";
            "deliverables"; "scope of work"; "statement of work";
            "professional services"; "consulting"])
       [ phrase ["service"; "agreement"];
         phrase ["professional"; "services"];
         phrase ["scope"; "of"; "work"];
         phrase ["statement"; "of"; "work"] ]
       1%Q);
    (s2l "lease_agreement",
     mkConfig
       (kw ["lease"; "rent"; "tenant"; "landlord"; "property";
            "premises"; "rental"; "lease term"; "security deposit";
            "monthly rent"])
       [ phrase ["lease"; "agreement"];
         phrase ["rental"; "agreement"];
         phrase ["landlord"; "and"; "tenant"];
         phrase ["monthly"; "rent"] ]
       1%Q);
    (s2l "purchase_agreement",
     mkConfig
       (kw ["purchase"; "sale"; "buyer"; "seller"; "goods";
            "merchandise"; "purchase price"; "delivery";
            "payment terms"; "invoice"])
       [ phrase ["purchase"; "agreement"];
         phrase ["sale"; "agreement"];
         phrase ["buyer"; "and"; "seller"];
         phrase ["purchase"; "price"] ]
       1%Q);
    (s2l "partnership_agreement",
     mkConfig
       (kw ["partnership"; "partners"; "joint venture"; "collaboration";
            "profit sharing"; "equity"; "capital contribution";
            "management"; "dissolution"])
       [ phrase ["partnership"; "agreement"];
         phrase ["joint"; "venture"];
         phrase ["profit"; "sharing"];
         phrase ["capital"; "contribution"] ]
       1%Q);
    (s2l "license_agreement",
     mkConfig
       (kw ["license"; "licensing"; "licensor"; "licensee";
            "intellectual property"; "copyright"; "trademark";
            "patent"; "royalty"; "usage rights"])
       [ phrase ["license"; "agreement"];
         phrase ["licensing"; "agreement"];
         phrase ["intellectual"; "property"];
         phrase ["usage"; "rights"] ]
       1%Q);
    (s2l "loan_agreement",
     mkConfig
       (kw ["loan"; "lender"; "borrower"; "principal"; "interest";
            "repayment"; "default"; "collateral"; "credit";
            "promissory note"])
       [ phrase ["loan"; "agreement"];
         phrase ["promissory"; "note"];
         phrase ["lender"; "and"; "borrower"];
         phrase ["interest"; "rate"] ]
       1%Q) ].

(** One entry of [scores]. *)
Record TypeScore : Type := mkTypeScore {
  score : Q;
  matched_keywords : list str;
  matched_patterns : list str;
  ts_confidence : Q
}.

Record Classification : Type := mkClassification {
  predicted_type : str;
  confidence : Q;
  is_confident : bool;
  all_scores : list (str * TypeScore);
  matched_indicators : list str * list str
}.

(** The body of [for keyword in config['keywords']]. *)
Definition keyword_step (text_lower : str) (acc : Q * list str) (keyword : str)
  : Q * list str :=
  if Py.contains (Py.lower keyword) text_lower
  then ((fst acc + 1)%Q, snd acc ++ [keyword])
  else acc.

(** The body of [for pattern in config['patterns']]. *)
Definition pattern_step (text_lower : str) (acc : Q * list str)
  (pattern : Re.regex) : Q * list str :=
  let matches := Re.findall false pattern text_lower in
  match matches with
  | [] => acc
  | _ :: _ => ((fst acc + 2)%Q, snd acc ++ matches)
  end.

(** The body of [for doc_type, config in self.document_patterns.items()]. *)
Definition score_type (text_lower : str) (config : Config) : TypeScore :=
  let '(score1, matched_keywords) :=
    fold_left (keyword_step text_lower) (keywords config) (0%Q, []) in
  let '(score2, matched_patterns) :=
    fold_left (pattern_step text_lower) (patterns config) (score1, []) in
  let score3 := (score2 * weight config)%Q in
  mkTypeScore score3 matched_keywords matched_patterns
    (Qmin (score3 / 10) 1).

Definition threshold : Q := 2%Q.

Definition unknown : str := s2l "unknown".

(** [classify_document]; the [except] branch is taken when [max] meets an
    empty registry. *)
Definition classify_document (self : t) (text : str) : Classification :=
  let text_lower := Py.lower text in
  let scores :=
    map (fun e => (fst e, score_type text_lower (snd e)))
        (document_patterns self) in
  match py_max Qgt_bool (fun x : str * TypeScore => score (snd x)) scores with
  | Some best_match =>
      let is_confident := Qle_bool threshold (score (snd best_match)) in
      mkClassification
        (if is_confident then fst best_match else unknown)
        (ts_confidence (snd best_match))
        is_confident
        scores
        (matched_keywords (snd best_match), matched_patterns (snd best_match))
  | None => mkClassification unknown 0%Q false [] ([], [])
  end.

(** ** [get_document_characteristics] and the analyses it dispatches to *)

(** The dictionary of characteristics: [type] and [key_elements] are always
    set, each of the other keys only by the analysis that names it. *)
Record Characteristics : Type := mkCharacteristics {
  c_type : str;
  key_elements : list str;
  nda_type : option str;
  duration : option str;
  employment_type : option str;
  service_type : option str;
  property_type : option str
}.

(** [if re.search(pattern, text, re.IGNORECASE):] *)
Definition found (r : Re.regex) (text : str) : bool :=
  match Re.search true r text with
  | Some _ => true
  | None => false
  end.

(** [mutual(?:ly)?] *)
Definition re_mutual : Re.regex :=
  Re.Seq (Re.lit "mutual") (Re.opt (Re.lit "ly")).

(** [(?:for a period of|duration of|term of)\s+([^,\n]+)] *)
Definition re_duration : Re.regex :=
  Re.seq [Re.alt [Re.lit "for a period of"; Re.lit "duration of";
                  Re.lit "term of"];
          Re.plus Re.ws;
          Re.Grp 1 (Re.plus (Re.Cls true [Re.one ",";
                                          (ascii_of_N 10, ascii_of_N 10)]))].

Definition _analyze_nda (text : str) : Characteristics :=
  let nda_type :=
    if found re_mutual text then s2l "Mutual NDA" else s2l "Unilateral NDA" in
  let duration :=
    match Re.search true re_duration text with
    | Some duration_match => Some (Py.strip (Re.group 1 duration_match))
    | None => None
    end in
  mkCharacteristics (s2l "Non-Disclosure Agreement") []
    (Some nda_type) duration None None None.

(** [full[- ]time] and [part[- ]time] *)
Definition re_hyphen_time (w : string) : Re.regex :=
  Re.seq [Re.lit w; Re.Cls false [Re.one "-"; Re.one " "]; Re.lit "time"].

(** [contract(?:or|ual)?] *)
Definition re_contract : Re.regex :=
  Re.Seq (Re.lit "contract") (Re.opt (Re.Alt (Re.lit "or") (Re.lit "ual"))).

Definition _analyze_employment_contract (text : str) : Characteristics :=
  let employment_type :=
    if found (re_hyphen_time "full") text then Some (s2l "Full-time")
    else if found (re_hyphen_time "part") text then Some (s2l "Part-time")
    else if found re_contract text then Some (s2l "Contract")
    else None in
  mkCharacteristics (s2l "Employment Contract") []
    None None employment_type None None.

Definition _analyze_service_agreement (text : str) : Characteristics :=
  let service_type :=
    if found (Re.lit "consulting") text then Some (s2l "Consulting")
    else if found (phrase ["professional"; "services"]) text
         then Some (s2l "Professional Services")
    else None in
  mkCharacteristics (s2l "Service Agreement") []
    None None None service_type None.

Definition _analyze_lease_agreement (text : str) : Characteristics :=
  let property_type :=
    if found (Re.lit "residential") text then Some (s2l "Residential")
    else if found (Re.lit "commercial") text then Some (s2l "Commercial")
    else None in
  mkCharacteristics (s2l "Lease Agreement") []
    None None None None property_type.

Definition _analyze_general_contract (text : str) : Characteristics :=
  mkCharacteristics (s2l "General Contract") [] None None None None None.

(** The dispatch on the document type.  On a string none of the analyses
    raises, so the handler that answers the empty dictionary is not
    reached. *)
Definition get_document_characteristics (text doc_type : str)
  : Characteristics :=
  if Py.eqb doc_type (s2l "nda") then _analyze_nda text
  else if Py.eqb doc_type (s2l "employment_contract")
       then _analyze_employment_contract text
  else if Py.eqb doc_type (s2l "service_agreement")
       then _analyze_service_agreement text
  else if Py.eqb doc_type (s2l "lease_agreement")
       then _analyze_lease_agreement text
  else _analyze_general_contract text.

End DocumentClassifier.

(* ================================================================== *)
(** * analyzer_minimal.py: [MinimalLegalDocumentAnalyzer] *)

Definition nl : ascii := ascii_of_N 10.

Definition Qnat (n : nat) : Q := inject_Z (Z.of_nat n).

(** [sum(len(x) for x in l)] *)
Definition total_len (l : list str) : nat :=
  fold_left (fun acc w => acc + length w) l 0.

(** Iteration over [set(l)]: every distinct element once.  The order in which
    Python visits a set is unspecified; the model visits the elements in the
    order of their first occurrence, and nothing stated below depends on it. *)
Fixpoint py_set (l : list str) : list str :=
  match l with
  | [] => []
  | x :: l' => x :: filter (fun y => negb (Py.eqb x y)) (py_set l')
  end.

(** Patterns shared by the rule-based variants. *)
Definition re_money : Re.regex :=
  Re.seq [Re.Chr "$"; Re.plus (Re.Cls false (Re.r_digit ++ [Re.one ","]));
          Re.opt (Re.Seq (Re.Chr ".") (Re.Rep 2 (Some 2) Re.digit))].

Definition re_units : Re.regex :=
  Re.alt [Re.Seq (Re.lit "day") (Re.opt (Re.Chr "s"));
          Re.Seq (Re.lit "week") (Re.opt (Re.Chr "s"));
          Re.Seq (Re.lit "month") (Re.opt (Re.Chr "s"));
          Re.Seq (Re.lit "year") (Re.opt (Re.Chr "s"))].

Definition re_time : Re.regex :=
  Re.seq [Re.WordB; Re.plus Re.digit; Re.plus Re.ws; re_units; Re.WordB].

Definition re_months : Re.regex :=
  Re.alt (map Re.lit
    ["January"; "February"; "March"; "April"; "May"; "June"; "July";
     "August"; "September"; "October"; "November"; "December"]).

Definition re_sep_date : Re.regex := Re.Cls false [Re.one "/"; Re.one "-"].

Definition re_numeric_date : Re.regex :=
  Re.seq [Re.WordB; Re.Rep 1 (Some 2) Re.digit; re_sep_date;
          Re.Rep 1 (Some 2) Re.digit; re_sep_date;
          Re.Rep 2 (Some 4) Re.digit; Re.WordB].

Definition re_phone : Re.regex :=
  Re.seq [Re.WordB; Re.Rep 3 (Some 3) Re.digit;
          Re.opt (Re.Cls false [Re.one "-"; Re.one "."]);
          Re.Rep 3 (Some 3) Re.digit;
          Re.opt (Re.Cls false [Re.one "-"; Re.one "."]);
          Re.Rep 4 (Some 4) Re.digit; Re.WordB].

Definition re_email : Re.regex :=
  Re.seq [Re.WordB;
          Re.plus (Re.Cls false [Re.rng "A" "Z"; Re.rng "a" "z";
                                 Re.rng "0" "9"; Re.one "."; Re.one "_";
                                 Re.one "%"; Re.one "+"; Re.one "-"]);
          Re.Chr "@";
          Re.plus (Re.Cls false [Re.rng "A" "Z"; Re.rng "a" "z";
                                 Re.rng "0" "9"; Re.one "."; Re.one "-"]);
          Re.Chr ".";
          Re.Rep 2 None (Re.Cls false [Re.rng "A" "Z"; Re.one "|";
                                       Re.rng "a" "z"]);
          Re.WordB].

(** [\bphrase\b] *)
Definition bounded (w : string) : Re.regex :=
  Re.seq [Re.WordB; Re.lit w; Re.WordB].

Definition not_dot : Re.regex := Re.Cls true [Re.one "."].

Module MinimalLegalDocumentAnalyzer.

Record t : Type := mkSelf {
  document_patterns : list (str * list Re.regex);
  entity_patterns : list (str * Re.regex);
  simplification_rules : list (Re.regex * str)
}.

(** [__init__] *)
Definition init : t := mkSelf
  [ (s2l "nda",
     [Re.seq [Re.lit "non"; Re.opt Re.dot; Re.lit "disclosure"];
      Re.lit "confidential"; Re.lit "proprietary"; Re.lit "trade secret";
      Re.lit "confidentiality agreement"]);
    (s2l "employment_contract",
     map Re.lit ["employment"; "employee"; "employer"; "salary";
                 "compensation"; "job description"; "work agreement"]);
    (s2l "service_agreement",
     map Re.lit ["service"; "provider"; "client"; "deliverable";
                 "scope of work"; "consulting"; "professional services"]);
    (s2l "lease_agreement",
     map Re.lit ["lease"; "rent"; "tenant"; "landlord"; "property";
                 "rental agreement"]);
    (s2l "purchase_agreement",
     map Re.lit ["purchase"; "buyer"; "seller"; "sale"; "goods";
                 "sales agreement"]) ]
  [ (s2l "monetary_values", re_money);
    (s2l "dates",
     Re.Alt re_numeric_date
       (Re.seq [Re.WordB; re_months; Re.plus Re.ws;
                Re.Rep 1 (Some 2) Re.digit; Re.opt (Re.Chr ",");
                Re.plus Re.ws; Re.Rep 4 (Some 4) Re.digit; Re.WordB]));
    (s2l "percentages",
     Re.seq [Re.plus Re.digit;
             Re.opt (Re.Seq (Re.Chr ".") (Re.plus Re.digit)); Re.Chr "%"]);
    (s2l "phone_numbers", re_phone);
    (s2l "email_addresses", re_email) ]
  [ (bounded "heretofore", s2l "before this");
    (bounded "hereinafter", s2l "from now on");
    (bounded "whereas", s2l "since");
    (bounded "therefore", s2l "so");
    (bounded "notwithstanding", s2l "despite");
    (bounded "pursuant to", s2l "according to");
    (bounded "shall", s2l "will");
    (bounded "in the event that", s2l "if");
    (bounded "prior to", s2l "before");
    (bounded "subsequent to", s2l "after") ].

(** ** [_preprocess_text] *)

Record Statistics : Type := mkStatistics {
  word_count : nat;
  character_count : nat;
  sentence_count : nat;
  average_word_length : Q;
  average_sentence_length : Q
}.

Record Preprocessed : Type := mkPreprocessed {
  cleaned_text : str;
  statistics : Statistics
}.

(** The allow-list of [_preprocess_text]: word characters, blanks and the
    listed punctuation. *)
Definition re_disallowed : Re.regex :=
  Re.Cls true
    (Re.r_word ++ Re.r_space ++
     map Re.one ["."; ","; ";"; ":"; "!"; "?"; "-"; "("; ")"; "["; "]"]
     ++ [(ascii_of_N 34, ascii_of_N 34); Re.one "'"; Re.one "/"; Re.one "$";
         Re.one "%"]).

Definition re_sentence_end : Re.regex :=
  Re.plus (Re.Cls false [Re.one "."; Re.one "!"; Re.one "?"]).

Definition nonblank (s : str) : bool :=
  match Py.strip s with [] => false | _ => true end.

Definition _preprocess_text (text : str) : Preprocessed :=
  let cleaned_text := Re.sub false (Re.plus Re.ws) [Re.RLit (s2l " ")] text in
  let cleaned_text := Re.sub false re_disallowed [] cleaned_text in
  let cleaned_text := Py.strip cleaned_text in
  let words := Py.split_ws cleaned_text in
  let sentences := Re.split false re_sentence_end cleaned_text in
  mkPreprocessed cleaned_text
    (mkStatistics
       (length words)
       (length cleaned_text)
       (length (filter nonblank sentences))
       (match words with
        | [] => 0%Q
        | _ => (Qnat (total_len words) / Qnat (length words))%Q
        end)
       (match sentences with
        | [] => 0%Q
        | _ => (Qnat (length words) / Qnat (length sentences))%Q
        end)).

(** ** [_classify_document] *)

Record Classification : Type := mkClassification {
  predicted_type : str;
  confidence : Q;
  is_confident : bool;
  scores : list (str * Z)
}.

(** The inner loop: [score += len(re.findall(pattern, text_lower))]. *)
Definition score_patterns (text_lower : str) (patterns : list Re.regex) : Z :=
  fold_left
    (fun score pattern =>
       (score + Z.of_nat (length (Re.findall false pattern text_lower)))%Z)
    patterns 0%Z.

(** True division [a / b] of Python: it raises on a zero divisor. *)
Definition truediv (a b : Q) : result Q :=
  if Qeq_bool b 0 then Raise ZeroDivisionError else Ok (a / b)%Q.

Definition unknown : str := s2l "unknown".

Definition _classify_document (self : t) (text : str) : result Classification :=
  let text_lower := Py.lower text in
  let scores :=
    map (fun e => (fst e, score_patterns text_lower (snd e)))
        (document_patterns self) in
  let '(predicted_type, max_score) :=
    match py_max Z.gtb (fun x : str * Z => snd x) scores with
    | Some best => best
    | None => (unknown, 0%Z)
    end in
  confidence <-
    (q <- truediv (inject_Z max_score)
                  (Qnat (length (Py.split_ws text)) / 100) ;;
     Ok (Qmin q 1)) ;;
  Ok (mkClassification predicted_type confidence
        (Qgt_bool confidence (3 # 10)) scores).

(** ** [_extract_entities] *)

Record Entity : Type := mkEntity {
  e_text : str;
  e_type : str;
  e_confidence : Q
}.

Record Party : Type := mkParty {
  p_name : str;
  p_type : str
}.

Record Entities : Type := mkEntities {
  entities : list (str * list Entity);
  key_parties : list Party;
  obligations : list (str * str);
  dates_and_deadlines : list Entity
}.

Definition re_company_suffix : Re.regex :=
  Re.alt (map Re.lit ["Inc"; "LLC"; "Corp"; "Corporation"; "Company"; "Ltd"]).

Definition re_capitalised : Re.regex :=
  Re.Seq (Re.Cls false Re.r_upper) (Re.plus (Re.Cls false Re.r_lower)).

Definition party_patterns : list Re.regex :=
  [ Re.seq [Re.WordB;
            Re.Grp 1 (Re.seq [re_capitalised; Re.Chr " "; re_company_suffix;
                              Re.opt (Re.Chr ".")]);
            Re.WordB];
    Re.seq [Re.WordB;
            Re.Grp 1 (Re.seq [re_capitalised; Re.Chr " "; re_capitalised]);
            Re.WordB] ].

Definition obligation_patterns : list Re.regex :=
  [ Re.seq [Re.star not_dot;
            Re.alt (map Re.lit ["shall"; "must"; "will"; "required to";
                                "obligated to"]);
            Re.star not_dot; Re.Chr "."];
    Re.seq [Re.star not_dot;
            Re.alt (map Re.lit ["agrees to"; "undertakes to"]);
            Re.star not_dot; Re.Chr "."] ].

Definition party_type (name : str) : str :=
  if existsb (fun x => Py.contains (s2l x) name) ["Inc"; "LLC"; "Corp"]
  then s2l "organization" else s2l "person".

Definition lookup {A : Type} (key : str) (d : list (str * list A)) : list A :=
  match find (fun e => Py.eqb (fst e) key) d with
  | Some e => snd e
  | None => []
  end.

Definition _extract_entities (self : t) (text : str) : Entities :=
  let entities :=
    map (fun e =>
           let entity_type := fst e in
           let matches := Re.findall true (snd e) text in
           (entity_type,
            map (fun mt => mkEntity mt entity_type (8 # 10)) (py_set matches)))
        (entity_patterns self) in
  let key_parties :=
    flat_map (fun pattern =>
                map (fun mt => mkParty mt (party_type mt))
                    (firstn 5 (Re.findall_group false pattern text)))
             party_patterns in
  let obligations :=
    flat_map (fun pattern =>
                map (fun mt => (Py.strip mt, s2l "obligation"))
                    (firstn 5 (Re.findall true pattern text)))
             obligation_patterns in
  let dates_and_deadlines :=
    map (fun d => mkEntity (e_text d) (s2l "date") (8 # 10))
        (lookup (s2l "dates") entities) in
  mkEntities entities key_parties obligations dates_and_deadlines.

(** ** [_extract_clauses] *)

Definition re_numbered : Re.regex :=
  Re.seq [Re.Chr nl; Re.star Re.ws; Re.plus Re.digit; Re.Chr ".";
          Re.star Re.ws].

Definition re_lettered : Re.regex :=
  Re.seq [Re.Chr nl; Re.star Re.ws; Re.Cls false Re.r_lower; Re.Chr ")";
          Re.star Re.ws].

(** [[c.strip() for c in sections[1:] if c.strip()]] when there is more
    than one section, nothing otherwise. *)
Definition section_clauses (sections : list str) : list str :=
  if 1 <? length sections
  then filter (fun c => negb (Py.eqb c [])) (map Py.strip (tl sections))
  else [].

Definition _extract_clauses (text : str) : list str :=
  let clauses := section_clauses (Re.split false re_numbered text) in
  let clauses := clauses ++ section_clauses (Re.split false re_lettered text) in
  let clauses :=
    match clauses with
    | [] =>
        map Py.strip
          (filter (fun p => 50 <? length (Py.strip p))
                  (Py.split [nl; nl] text))
    | _ => clauses
    end in
  firstn 10 clauses.

(** ** [_simplify_clause] *)

Record Simplified : Type := mkSimplified {
  original_clause : str;
  simplified_clause : str;
  plain_english_summary : str;
  key_points : list str;
  simplification_score : Q
}.

Definition _generate_plain_english_summary (clause : str) : str :=
  let clause_lower := Py.lower clause in
  if (Py.contains (s2l "payment") clause_lower
      || Py.contains (s2l "$") clause)%bool
  then s2l "This clause deals with payment terms and amounts."
  else if Py.contains (s2l "termination") clause_lower
  then s2l "This clause explains how the agreement can be ended."
  else if Py.contains (s2l "confidential") clause_lower
  then s2l "This clause requires keeping information secret."
  else if Py.contains (s2l "liability") clause_lower
  then s2l "This clause defines who is responsible for what."
  else s2l "This clause contains important legal terms and conditions.".

Definition _extract_key_points (clause : str) : list str :=
  let key_points := [] in
  let money_matches := Re.findall false re_money clause in
  let key_points :=
    match money_matches with
    | [] => key_points
    | _ => key_points
             ++ [s2l "Involves money: " ++ Py.join (s2l ", ") money_matches]
    end in
  let time_matches := Re.findall true re_time clause in
  let key_points :=
    match time_matches with
    | [] => key_points
    | _ => key_points
             ++ [s2l "Time periods: " ++ Py.join (s2l ", ") time_matches]
    end in
  firstn 3 key_points.

(** [clause.strip()] on an argument of any type. *)
Definition obj_strip (clause : pyobj) : result str :=
  match clause with
  | PyStr s => Ok (Py.strip s)
  | PyNone => Raise AttributeError
  end.

(** The method has no handler: what its first statement raises reaches the
    caller. *)
Definition _simplify_clause (self : t) (clause : pyobj) : result Simplified :=
  original_clause <- obj_strip clause ;;
  let simplified_clause :=
    fold_left (fun s rule => Re.sub true (fst rule) [Re.RLit (snd rule)] s)
              (simplification_rules self) original_clause in
  let plain_english := _generate_plain_english_summary simplified_clause in
  let key_points := _extract_key_points simplified_clause in
  let n_original := length (Py.split_ws original_clause) in
  let word_reduction :=
    match n_original with
    | O => 0%Q
    | _ => ((inject_Z (Z.of_nat n_original
                       - Z.of_nat (length (Py.split_ws simplified_clause))))
            / Qnat n_original)%Q
    end in
  let simplification_score := Qmax (1 # 10) word_reduction in
  Ok (mkSimplified original_clause simplified_clause plain_english
        key_points simplification_score).

(** ** [quick_analyze] *)

Record Quick : Type := mkQuick {
  q_classification : Classification;
  q_entities : Entities;
  q_word_count : nat;
  q_character_count : nat
}.

(** The handler of [quick_analyze] logs and re-raises. *)
Definition quick_analyze (self : t) (text : str) : result Quick :=
  let body :=
    classification <- _classify_document self text ;;
    let entities := _extract_entities self text in
    Ok (mkQuick classification entities (length (Py.split_ws text))
          (length text)) in
  match body with
  | Ok r => Ok r
  | Raise e => Raise e
  end.

End MinimalLegalDocumentAnalyzer.

(* ================================================================== *)
(** * ner.py: [LegalNER] *)

Module LegalNER.

(** A pattern string of the table: one that [re] compiles, or one that it
    rejects with [re.error].  Every pattern written in [__init__] compiles;
    the attribute [self.patterns] is a mutable dictionary of strings. *)
Inductive pattern : Type :=
| Pat (r : Re.regex)
| BadPat.

Record t : Type := mkSelf {
  patterns : list (str * list pattern)
}.

Definition re_suffix : Re.regex :=
  Re.alt [Re.Seq (Re.lit "Inc") (Re.opt (Re.Chr "."));
          Re.lit "LLC";
          Re.Seq (Re.lit "Corp") (Re.opt (Re.Chr "."));
          Re.lit "Corporation"; Re.lit "Company";
          Re.Seq (Re.lit "Ltd") (Re.opt (Re.Chr "."));
          Re.lit "Limited"].

Definition re_street : Re.regex :=
  Re.alt [Re.lit "Street"; Re.Seq (Re.lit "St") (Re.opt (Re.Chr "."));
          Re.lit "Avenue"; Re.Seq (Re.lit "Ave") (Re.opt (Re.Chr "."));
          Re.lit "Road"; Re.Seq (Re.lit "Rd") (Re.opt (Re.Chr "."));
          Re.lit "Boulevard"; Re.Seq (Re.lit "Blvd") (Re.opt (Re.Chr "."));
          Re.lit "Drive"; Re.Seq (Re.lit "Dr") (Re.opt (Re.Chr "."));
          Re.lit "Lane"; Re.Seq (Re.lit "Ln") (Re.opt (Re.Chr "."));
          Re.lit "Way"; Re.lit "Court";
          Re.Seq (Re.lit "Ct") (Re.opt (Re.Chr "."))].

Definition re_modal : Re.regex :=
  Re.alt (map Re.lit ["shall"; "must"; "will"; "agree to"; "required to";
                      "obligated to"; "responsible for"]).

Definition letters_and (extra : list (ascii * ascii)) : Re.regex :=
  Re.Cls false ([Re.rng "A" "Z"; Re.rng "a" "z"] ++ extra).

(** [__init__] *)
Definition init : t := mkSelf
  [ (s2l "dates",
     [ Pat re_numeric_date;
       Pat (Re.seq [Re.WordB; Re.Rep 1 (Some 2) Re.digit; Re.plus Re.ws;
                    Re.Grp 1 re_months; Re.plus Re.ws;
                    Re.Rep 2 (Some 4) Re.digit; Re.WordB]);
       Pat (Re.seq [Re.WordB; Re.Grp 1 re_months; Re.plus Re.ws;
                    Re.Rep 1 (Some 2) Re.digit; Re.opt (Re.Chr ",");
                    Re.plus Re.ws; Re.Rep 2 (Some 4) Re.digit; Re.WordB]) ]);
    (s2l "monetary_values",
     [ Pat (Re.seq [Re.Chr "$";
                    Re.plus (Re.Cls false (Re.r_digit ++ [Re.one ","]));
                    Re.opt (Re.Chr "."); Re.star Re.digit]);
       Pat (Re.seq [Re.WordB; Re.plus Re.digit; Re.star Re.ws;
                    Re.lit "dollar"; Re.opt (Re.Chr "s"); Re.WordB]);
       Pat (Re.seq [Re.WordB; Re.plus Re.digit; Re.star Re.ws;
                    Re.lit "USD"; Re.WordB]) ]);
    (s2l "parties",
     [ Pat (Re.seq [Re.WordB; MinimalLegalDocumentAnalyzer.re_capitalised;
                    Re.plus Re.ws;
                    MinimalLegalDocumentAnalyzer.re_capitalised;
                    Re.star Re.ws; Re.opt re_suffix; Re.WordB]);
       Pat (Re.seq [Re.WordB; Re.opt (Re.Seq (Re.lit "The") (Re.plus Re.ws));
                    Re.Cls false Re.r_upper;
                    Re.plus (letters_and (Re.r_space ++ [Re.one "&"]));
                    re_suffix; Re.WordB]) ]);
    (s2l "addresses",
     [ Pat (Re.seq [Re.WordB; Re.plus Re.digit; Re.plus Re.ws;
                    Re.plus (letters_and Re.r_space); re_street; Re.WordB]) ]);
    (s2l "phone_numbers",
     [ Pat re_phone;
       Pat (Re.seq [Re.Chr "("; Re.Rep 3 (Some 3) Re.digit; Re.Chr ")";
                    Re.star Re.ws; Re.Rep 3 (Some 3) Re.digit;
                    Re.opt (Re.Cls false [Re.one "-"; Re.one "."]);
                    Re.Rep 4 (Some 4) Re.digit; Re.WordB]) ]);
    (s2l "email_addresses", [ Pat re_email ]);
    (s2l "legal_terms",
     [ Pat (Re.seq [Re.WordB;
                    Re.alt (map Re.lit
                      ["whereas"; "therefore"; "hereby"; "herein"; "hereof";
                       "hereunder"; "notwithstanding"; "pursuant"; "covenant";
                       "indemnify"; "liability"; "breach"; "termination";
                       "confidential"; "proprietary"]);
                    Re.WordB]) ]);
    (s2l "obligations",
     [ Pat (Re.seq [Re.WordB; re_modal; Re.WordB; Re.star not_dot]) ]);
    (s2l "durations",
     [ Pat (Re.seq [Re.WordB; Re.plus Re.digit; Re.star Re.ws; re_units;
                    Re.WordB]);
       Pat (Re.seq [Re.WordB;
                    Re.alt (map Re.lit ["one"; "two"; "three"; "four"; "five";
                                        "six"; "seven"; "eight"; "nine";
                                        "ten"]);
                    Re.plus Re.ws; re_units; Re.WordB]) ]) ].

(** [re.finditer(pattern, text, re.IGNORECASE)]: [re.error] for a pattern
    that does not compile, [TypeError] for a text that is not a string. *)
Definition re_finditer (p : pattern) (text : pyobj)
  : result (list Re.Match) :=
  match p with
  | BadPat => Raise ReError
  | Pat r =>
      match text with
      | PyStr s => Ok (Re.finditer true r s)
      | PyNone => Raise TypeError
      end
  end.

Record Entity : Type := mkEntity {
  e_text : str;
  e_start : nat;
  e_end : nat;
  e_confidence : Q;
  e_context : str
}.

(** [_get_context]; its bare [except] returns the empty string. *)
Definition _get_context (text : pyobj) (start end_ : nat) : str :=
  match text with
  | PyStr s =>
      let context_size := 50%Z in
      let context_start := Z.max 0 (Z.of_nat start - context_size) in
      let context_end :=
        Z.min (Z.of_nat (length s)) (Z.of_nat end_ + context_size) in
      Py.strip (Py.slice s context_start context_end)
  | PyNone => []
  end.

Definition entity_of (text : pyobj) (mt : Re.Match) : Entity :=
  mkEntity (Re.m_text mt) (Re.m_start mt) (Re.m_end mt) (8 # 10)
    (_get_context text (Re.m_start mt) (Re.m_end mt)).

Definition same_text (a b : Entity) : bool :=
  Py.eqb (Py.lower (e_text a)) (Py.lower (e_text b)).

(** The body of [for match in matches]: append unless a record with the same
    text, up to case, is already there. *)
Definition add_entity (acc : list Entity) (entity : Entity) : list Entity :=
  if existsb (fun e => same_text e entity) acc then acc else acc ++ [entity].

(** The body of [for pattern in patterns]. *)
Definition pattern_step (text : pyobj) (acc : list Entity) (p : pattern)
  : result (list Entity) :=
  matches <- re_finditer p text ;;
  Ok (fold_left add_entity (map (entity_of text) matches) acc).

(** The body of [for entity_type, patterns in self.patterns.items()]. *)
Definition family_step (text : pyobj) (entities : list (str * list Entity))
  (fam : str * list pattern) : result (list (str * list Entity)) :=
  found <- foldM (pattern_step text) (snd fam) [] ;;
  Ok (entities ++ [(fst fam, found)]).

(** The [try] block of [extract_entities]. *)
Definition extract_entities_body (self : t) (text : pyobj)
  : result (list (str * list Entity)) :=
  foldM (family_step text) (patterns self) [].

Definition extract_entities (self : t) (text : pyobj)
  : list (str * list Entity) :=
  match extract_entities_body self text with
  | Ok entities => entities
  | Raise _ => []
  end.

(** ** The derived extractors *)

Record Party : Type := mkParty {
  p_name : str;
  p_type : str;
  p_context : str
}.

Record Obligation : Type := mkObligation {
  o_text : str;
  o_full_clause : str;
  o_start : nat;
  o_end : nat;
  o_context : str
}.

Record Deadline : Type := mkDeadline {
  d_text : str;
  d_full_clause : str;
  d_type : str;
  d_context : str
}.

Definition not_comma_nl : Re.regex := Re.Cls true [Re.one ","; (nl, nl)].

Definition colon_or_space : Re.regex :=
  Re.Cls false (Re.one ":" :: Re.r_space).

Definition party_indicators : list (pattern * nat) :=
  [ (Pat (Re.seq [Re.Alt (Re.lit "between") (Re.lit "by and between");
                  Re.plus Re.ws;
                  Re.Grp 1 (Re.plus (Re.Cls true [Re.one ","]));
                  Re.opt (Re.Chr ","); Re.plus Re.ws;
                  Re.Alt (Re.lit "and") (Re.Chr "&"); Re.plus Re.ws;
                  Re.Grp 2 (Re.plus not_comma_nl)]), 2);
    (Pat (Re.seq [Re.Alt (Re.lit "party of the first part")
                         (Re.lit "first party");
                  Re.plus colon_or_space;
                  Re.Grp 1 (Re.plus not_comma_nl)]), 1);
    (Pat (Re.seq [Re.Alt (Re.lit "party of the second part")
                         (Re.lit "second party");
                  Re.plus colon_or_space;
                  Re.Grp 1 (Re.plus not_comma_nl)]), 1);
    (Pat (Re.seq [Re.alt (map Re.lit ["client"; "customer"; "buyer"; "seller";
                                      "lessor"; "lessee"; "employer";
                                      "employee"]);
                  Re.plus colon_or_space;
                  Re.Grp 1 (Re.plus not_comma_nl)]), 1) ].

Definition obligation_patterns : list pattern :=
  [ Pat (Re.seq [re_modal; Re.plus Re.ws; Re.Grp 1 (Re.plus not_dot)]);
    Pat (Re.seq [Re.Alt (Re.lit "party") (Re.lit "parties"); Re.plus Re.ws;
                 Re.alt (map Re.lit ["shall"; "must"; "will"; "agree to"]);
                 Re.plus Re.ws; Re.Grp 1 (Re.plus not_dot)]);
    Pat (Re.seq [Re.alt [Re.Seq (Re.lit "obligation") (Re.opt (Re.Chr "s"));
                         Re.lit "duties"; Re.lit "responsibilities"];
                 Re.star Re.ws; Re.opt (Re.Chr ":"); Re.star Re.ws;
                 Re.Grp 1 (Re.plus not_dot)]) ].

Definition date_context_patterns : list pattern :=
  [ Pat (Re.seq [Re.alt (map Re.lit ["effective"; "start"; "begin";
                                     "commence"; "end"; "expire"; "terminate";
                                     "due"; "deadline"; "by"]);
                 Re.plus Re.ws;
                 Re.opt (Re.Alt (Re.lit "date") (Re.lit "on"));
                 Re.star Re.ws; Re.opt (Re.Chr ":"); Re.star Re.ws;
                 Re.Grp 1 (Re.plus not_comma_nl)]);
    Pat (Re.seq [Re.alt (map Re.lit ["within"; "after"; "before"]);
                 Re.plus Re.ws;
                 Re.Grp 1 (Re.seq [Re.plus Re.digit; Re.star Re.ws;
                                   re_units])]);
    Pat (Re.seq [Re.alt (map Re.lit ["no later than"; "not later than";
                                     "by"]);
                 Re.plus Re.ws; Re.Grp 1 (Re.plus not_comma_nl)]) ].

(** [match.groups()] for a pattern with [n] groups. *)
Definition groups (n : nat) (mt : Re.Match) : list str :=
  map (fun i => Re.group i mt) (seq 1 n).

Definition parties_of (text : pyobj) (n : nat) (mt : Re.Match) : list Party :=
  map (fun g =>
         mkParty (Py.strip g) (s2l "party")
           (_get_context text (Re.m_start mt) (Re.m_end mt)))
      (filter (fun g => 2 <? length (Py.strip g)) (groups n mt)).

Definition extract_key_parties (text : pyobj) : list Party :=
  match
    foldM (fun parties pn =>
             matches <- re_finditer (fst pn) text ;;
             Ok (parties ++ flat_map (parties_of text (snd pn)) matches))
          party_indicators []
  with
  | Ok parties => parties
  | Raise _ => []
  end.

Definition obligation_of (text : pyobj) (mt : Re.Match) : Obligation :=
  mkObligation (Py.strip (Re.group 1 mt)) (Py.strip (Re.m_text mt))
    (Re.m_start mt) (Re.m_end mt)
    (_get_context text (Re.m_start mt) (Re.m_end mt)).

Definition extract_obligations (text : pyobj) : list Obligation :=
  match
    foldM (fun obligations p =>
             matches <- re_finditer p text ;;
             Ok (obligations ++ map (obligation_of text) matches))
          obligation_patterns []
  with
  | Ok obligations => obligations
  | Raise _ => []
  end.

Definition deadline_of (text : pyobj) (mt : Re.Match) : Deadline :=
  mkDeadline (Py.strip (Re.group 1 mt)) (Py.strip (Re.m_text mt))
    (s2l "deadline") (_get_context text (Re.m_start mt) (Re.m_end mt)).

Definition extract_dates_and_deadlines (text : pyobj) : list Deadline :=
  match
    foldM (fun dates p =>
             matches <- re_finditer p text ;;
             Ok (dates ++ map (deadline_of text) matches))
          date_context_patterns []
  with
  | Ok dates => dates
  | Raise _ => []
  end.

(** ** [analyze_document_entities] *)

Record Summary : Type := mkSummary {
  total_entities : nat;
  entity_types : list str;
  key_parties_count : nat;
  obligations_count : nat;
  dates_deadlines_count : nat
}.

Record Analysis : Type := mkAnalysis {
  entities : list (str * list Entity);
  key_parties : list Party;
  obligations : list Obligation;
  dates_and_deadlines : list Deadline;
  summary : Summary
}.

(** The handler of this method logs and re-raises; its body calls the four
    extractors, which have handlers of their own, and counts. *)
Definition analyze_document_entities (self : t) (text : pyobj)
  : result Analysis :=
  let body :=
    let entities := extract_entities self text in
    let key_parties := extract_key_parties text in
    let obligations := extract_obligations text in
    let dates_deadlines := extract_dates_and_deadlines text in
    let summary :=
      mkSummary
        (fold_left (fun acc e => acc + length (snd e)) entities 0)
        (map fst entities)
        (length key_parties) (length obligations) (length dates_deadlines) in
    Ok (mkAnalysis entities key_parties obligations dates_deadlines summary) in
  match body with
  | Ok r => Ok r
  | Raise e => Raise e
  end.

End LegalNER.

(* ================================================================== *)
(** * parser.py: [DocumentParser.extract_clauses] *)

Module DocumentParser.

Definition clause_indicators : list str :=
  [ [nl; nl]; s2l ". "; s2l "; " ].

Definition nonempty (s : str) : bool :=
  match s with [] => false | _ => true end.

(** The [for indicator in clause_indicators] loop with its [break]: the
    first indicator that splits the text into more than one part decides. *)
Fixpoint split_by_first (indicators : list str) (current_text : str)
  : list str :=
  match indicators with
  | [] => []
  | indicator :: rest =>
      let parts := Py.split indicator current_text in
      if 1 <? length parts
      then filter nonempty (map Py.strip parts)
      else split_by_first rest current_text
  end.

Definition extract_clauses (text : str) : list str :=
  let clauses := split_by_first clause_indicators text in
  let clauses :=
    match clauses with
    | [] => [Py.strip text]
    | _ => clauses
    end in
  let meaningful_clauses := filter (fun clause => 50 <? length clause) clauses in
  match meaningful_clauses with
  | [] => clauses
  | _ => meaningful_clauses
  end.

End DocumentParser.

(* ================================================================== *)
(** * analyzer_optimized.py: [OptimizedLegalDocumentAnalyzer] *)

Module OptimizedLegalDocumentAnalyzer.

(** ** [_chunk_text]

    One iteration of the [while] loop: the bounds of the chunk cut at
    [start] and the next value of [start]. *)
Definition chunk_end (text : str) (chunk_size : Z) (start : Z) : Z :=
  let len := Z.of_nat (length text) in
  let end_ := (start + chunk_size)%Z in
  if (end_ <? len)%Z
  then
    let sentence_end := Py.rfind text "."%char (end_ - 200) end_ in
    if (sentence_end =? -1)%Z then end_ else (sentence_end + 1)%Z
  else end_.

Definition next_start (text : str) (overlap : Z) (end_ : Z) : Z :=
  if (end_ <? Z.of_nat (length text))%Z then (end_ - overlap)%Z else end_.

(** The loop, bounded by [fuel]; [None] when the fuel runs out before the
    loop condition fails. *)
Fixpoint chunk_loop (fuel : nat) (text : str) (chunk_size overlap : Z)
  (start : Z) (chunks : list str) : option (list str) :=
  if (start <? Z.of_nat (length text))%Z
  then
    match fuel with
    | O => None
    | S fuel' =>
        let end_ := chunk_end text chunk_size start in
        chunk_loop fuel' text chunk_size overlap
          (next_start text overlap end_)
          (chunks ++ [Py.slice text start end_])
    end
  else Some chunks.

Definition _chunk_text_fuel (fuel : nat) (text : str) (chunk_size overlap : Z)
  : option (list str) :=
  chunk_loop fuel text chunk_size overlap 0 [].

(** With one unit of fuel per character the loop of the default parameters
    always finishes (shown below). *)
Definition _chunk_text (text : str) (chunk_size overlap : Z)
  : option (list str) :=
  _chunk_text_fuel (length text) text chunk_size overlap.

(** The same loop, recording the bounds [(start, end)] of every chunk. *)
Fixpoint chunk_spans (fuel : nat) (text : str) (chunk_size overlap : Z)
  (start : Z) : option (list (Z * Z)) :=
  if (start <? Z.of_nat (length text))%Z
  then
    match fuel with
    | O => None
    | S fuel' =>
        let end_ := chunk_end text chunk_size start in
        match chunk_spans fuel' text chunk_size overlap
                (next_start text overlap end_) with
        | Some spans => Some ((start, end_) :: spans)
        | None => None
        end
    end
  else Some [].

(** ** [_deduplicate_clauses] *)

Definition clause_key (clause : str) : str := Py.strip (Py.prefix 100 clause).

Definition dedup_step (unique_clauses : list str) (clause : str) : list str :=
  let clause_start := clause_key clause in
  if existsb (fun existing => Py.eqb (clause_key existing) clause_start)
             unique_clauses
  then unique_clauses
  else unique_clauses ++ [clause].

Definition _deduplicate_clauses (clauses : list str) : list str :=
  fold_left dedup_step clauses [].

(** ** [_extract_clauses_async]

    [asyncio.gather] returns the per-chunk results in the order of the
    chunks, whatever the order in which the workers finish. *)
Definition merged_clauses (chunks : list str) : list str :=
  flat_map DocumentParser.extract_clauses chunks.

Definition _extract_clauses_async (text : str) : option (list str) :=
  if (10000 <? Z.of_nat (length text))%Z
  then
    match _chunk_text text 5000 500 with
    | Some chunks => Some (_deduplicate_clauses (merged_clauses chunks))
    | None => None
    end
  else Some (DocumentParser.extract_clauses text).

(** ** [_simplify_clauses_batch_async]

    An exception that is not an instance of [Exception]: its class derives
    from [BaseException] only, as that of [asyncio.CancelledError] does.
    A task stores such an exception like any other and [gather] hands it
    back.  ([KeyboardInterrupt] and [SystemExit] are not among them: a task
    raises those again through the event loop, they are not outcomes of a
    clause.) *)
Inductive base_exn : Type :=
| CancelledError
| BaseOnly (class_name : str).

(** How [simplify_clause] ends on a clause, which is also the object that
    [gather(..., return_exceptions=True)] puts in its list for the clause:
    the value returned, an exception that is an instance of [Exception], or
    an exception that is not. *)
Inductive outcome (A : Type) : Type :=
| Returned (a : A)
| Raised (e : exn)
| RaisedBase (b : base_exn).

Arguments Returned {A} a.
Arguments Raised {A} e.
Arguments RaisedBase {A} b.


(** The simplifier is the model-backed [GraniteSimplifier], an external
    collaborator: the object carries its [simplify_clause] method, which
    returns a result or raises. *)
Record t (A : Type) : Type := mkSelf {
  simplifier_simplify_clause : str -> outcome A
}.






End OptimizedLegalDocumentAnalyzer.

(* ================================================================== *)
(** * simplifier_fallback.py: [FallbackSimplifier] *)

Module FallbackSimplifier.

Record t : Type := mkSelf {
  simplification_rules : list (Re.regex * str);
  structure_rules : list (Re.regex * list Re.ritem)
}.

(** [__init__].  The dictionary literal of the source writes the key
    [\bheretofore\b] twice: the entry keeps its first position and takes the
    last value. *)
Definition init : t := mkSelf
  [ (bounded "heretofore", s2l "until now");
    (bounded "hereinafter", s2l "from now on");
    (bounded "whereas", s2l "since");
    (bounded "therefore", s2l "so");
    (bounded "notwithstanding", s2l "despite");
    (bounded "pursuant to", s2l "according to");
    (bounded "in consideration of", s2l "in exchange for");
    (bounded "shall", s2l "will");
    (bounded "may not", s2l "cannot");
    (bounded "provided that", s2l "if");
    (bounded "subject to", s2l "depending on");
    (bounded "in the event that", s2l "if");
    (bounded "for the purpose of", s2l "to");
    (bounded "with respect to", s2l "about");
    (bounded "in accordance with", s2l "following");
    (bounded "prior to", s2l "before");
    (bounded "subsequent to", s2l "after");
    (bounded "in lieu of", s2l "instead of");
    (bounded "by virtue of", s2l "because of");
    (bounded "null and void", s2l "invalid");
    (bounded "each and every", s2l "all");
    (bounded "full and complete", s2l "complete");
    (bounded "final and binding", s2l "final");
    (bounded "terms and conditions", s2l "terms");
    (bounded "forthwith", s2l "immediately");
    (bounded "henceforth", s2l "from now on") ]
  [ (bounded "the said", [Re.RLit (s2l "the")]);
    (Re.seq [Re.WordB; Re.lit "such"; Re.plus Re.ws;
             Re.Grp 1 (Re.plus Re.wordc); Re.plus Re.ws; Re.lit "as";
             Re.plus Re.ws; Re.lit "aforesaid"; Re.WordB],
     [Re.RLit (s2l "the "); Re.RRef 1]);
    (bounded "aforesaid", [Re.RLit (s2l "mentioned")]);
    (Re.seq [Re.WordB; Re.lit "is hereby"; Re.plus Re.ws;
             Re.Grp 1 (Re.Seq (Re.plus Re.wordc) (Re.lit "ed")); Re.WordB],
     [Re.RLit (s2l "is "); Re.RRef 1]);
    (bounded "shall be deemed to be", [Re.RLit (s2l "is considered")]);
    (bounded "shall be construed as", [Re.RLit (s2l "means")]) ].

Record Simplified : Type := mkSimplified {
  original_clause : pyobj;
  simplified_clause : pyobj;
  plain_english_summary : str;
  key_points : list str;
  simplification_score : Q;
  method : str
}.

Definition _apply_simplification_rules (self : t) (text : str) : str :=
  let simplified :=
    fold_left (fun s rule => Re.sub true (fst rule) [Re.RLit (snd rule)] s)
              (simplification_rules self) text in
  let simplified :=
    fold_left (fun s rule => Re.sub true (fst rule) (snd rule) s)
              (structure_rules self) simplified in
  Py.strip (Re.sub false (Re.plus Re.ws) [Re.RLit (s2l " ")] simplified).

Definition has (w : string) (s : str) : bool := Py.contains (s2l w) s.

Definition _generate_plain_english_summary (clause : str) : str :=
  let clause_lower := Py.lower clause in
  if (has "payment" clause_lower || has "pay" clause_lower
      || has "$" clause)%bool
  then s2l "This clause deals with payment terms and amounts."
  else if (has "termination" clause_lower || has "terminate" clause_lower)%bool
  then s2l "This clause explains how the agreement can be ended."
  else if (has "confidential" clause_lower
           || has "non-disclosure" clause_lower)%bool
  then s2l "This clause requires keeping information secret."
  else if (has "liability" clause_lower || has "responsible" clause_lower)%bool
  then s2l "This clause defines who is responsible for what."
  else if (has "intellectual property" clause_lower
           || has "copyright" clause_lower)%bool
  then s2l "This clause deals with ownership of ideas and creations."
  else if (has "dispute" clause_lower || has "arbitration" clause_lower)%bool
  then s2l "This clause explains how disagreements will be resolved."
  else if (has "force majeure" clause_lower
           || has "act of god" clause_lower)%bool
  then s2l "This clause covers situations beyond anyone's control."
  else
    let sentences :=
      Re.split false MinimalLegalDocumentAnalyzer.re_sentence_end clause in
    let first_sentence := Py.strip (hd [] sentences) in
    match sentences with
    | [] => s2l "This clause contains important legal terms and conditions."
    | _ =>
        if 20 <? length first_sentence
        then s2l "In simple terms: " ++ Py.lower first_sentence ++ s2l "."
        else s2l "This clause contains important legal terms and conditions."
    end.

(** The words of [vocabulary] that occur in the lowered clause, in the
    order of the vocabulary. *)
Definition words_in (vocabulary : list string) (clause : str) : list str :=
  filter (fun w => Py.contains w (Py.lower clause)) (map s2l vocabulary).

Definition add_point (label : string) (found : list str)
  (key_points : list str) : list str :=
  match found with
  | [] => key_points
  | _ => key_points ++ [s2l label ++ Py.join (s2l ", ") found]
  end.

Definition re_percent : Re.regex :=
  Re.seq [Re.plus Re.digit; Re.opt (Re.Seq (Re.Chr ".") (Re.plus Re.digit));
          Re.Chr "%"].

Definition _extract_key_points (clause : str) : list str :=
  let key_points := [] in
  let key_points :=
    add_point "Involves money: " (Re.findall false re_money clause)
      key_points in
  let key_points :=
    add_point "Time periods: " (Re.findall true re_time clause) key_points in
  let key_points :=
    add_point "Percentages: " (Re.findall false re_percent clause)
      key_points in
  let obligations :=
    words_in ["must"; "shall"; "will"; "required"; "obligated"] clause in
  let key_points :=
    add_point "Creates obligations: " (py_set obligations) key_points in
  let conditions :=
    words_in ["if"; "unless"; "provided"; "subject to"; "in case"] clause in
  let key_points :=
    add_point "Has conditions: " (py_set conditions) key_points in
  firstn 5 key_points.

(** [a / b if b > 0 else 0] *)
Definition ratio (a b : Q) : Q :=
  if Qgt_bool b 0 then (a / b)%Q else 0%Q.

(** [_calculate_simplification_score]; its divisions are guarded, so its
    handler, which would return [0.1], is not reached. *)
Definition _calculate_simplification_score (original simplified : str) : Q :=
  let original_words := Qnat (length (Py.split_ws original)) in
  let simplified_words := Qnat (length (Py.split_ws simplified)) in
  let original_avg_word_len :=
    ratio (Qnat (total_len (Py.split_ws original))) original_words in
  let simplified_avg_word_len :=
    ratio (Qnat (total_len (Py.split_ws simplified))) simplified_words in
  let word_reduction :=
    ratio (original_words - simplified_words) original_words in
  let complexity_reduction :=
    ratio (original_avg_word_len - simplified_avg_word_len)
          original_avg_word_len in
  let score :=
    (word_reduction * (3 # 10) + complexity_reduction * (7 # 10))%Q in
  Qmax 0 (Qmin 1 score).

(** The [try] block of [simplify_clause]. *)
Definition simplify_clause_body (self : t) (clause : pyobj)
  : result Simplified :=
  original_clause <- MinimalLegalDocumentAnalyzer.obj_strip clause ;;
  let simplified_clause := _apply_simplification_rules self original_clause in
  let plain_english := _generate_plain_english_summary simplified_clause in
  let key_points := _extract_key_points simplified_clause in
  let simplification_score :=
    _calculate_simplification_score original_clause simplified_clause in
  Ok (mkSimplified (PyStr original_clause) (PyStr simplified_clause)
        plain_english key_points simplification_score (s2l "rule_based")).

(** The record built by the [except] branch. *)
Definition fallback (clause : pyobj) : Simplified :=
  mkSimplified clause clause (s2l "Unable to simplify this clause.") []
    0%Q (s2l "fallback").

Definition simplify_clause (self : t) (clause : pyobj) : Simplified :=
  match simplify_clause_body self clause with
  | Ok r => r
  | Raise _ => fallback clause
  end.

End FallbackSimplifier.

(* ================================================================== *)
(** * preprocessor.py: [TextPreprocessor]

    [extract_sentences], [chunk_text] and [remove_duplicates]; the handlers
    of these methods are not reached for a string and integer bounds. *)

Module TextPreprocessor.

(** ** [extract_sentences] *)

Definition extract_sentences (text : str) : list str :=
  let sentences :=
    Re.split false MinimalLegalDocumentAnalyzer.re_sentence_end text in
  filter (fun sentence => 10 <? length sentence) (map Py.strip sentences).

(** ** [chunk_text] *)

Record Chunk : Type := mkChunk {
  chunk_id : nat;
  text : str;
  word_count : nat;
  start_word : Z;
  end_word : Z
}.

(** [words[i:j]] *)
Definition word_slice (words : list str) (i j : Z) : list str :=
  let len := Z.of_nat (length words) in
  let a := Py.norm len i in
  let b := Py.norm len j in
  firstn (Z.to_nat (b - a)) (skipn (Z.to_nat a) words).

(** The [while] loop, bounded by [fuel]; the [break] at its end repeats the
    loop condition. *)
Fixpoint chunk_loop (fuel : nat) (words : list str)
  (max_chunk_size overlap : Z) (start : Z) (id : nat) (chunks : list Chunk)
  : option (list Chunk) :=
  let len := Z.of_nat (length words) in
  if (start <? len)%Z
  then
    match fuel with
    | O => None
    | S fuel' =>
        let end_ := Z.min (start + max_chunk_size) len in
        let chunk_words := word_slice words start end_ in
        let chunks :=
          chunks ++ [mkChunk id (Py.join (s2l " ") chunk_words)
                             (length chunk_words) start end_] in
        let start := if (end_ <? len)%Z then (end_ - overlap)%Z else end_ in
        if (len <=? start)%Z then Some chunks
        else chunk_loop fuel' words max_chunk_size overlap start (S id) chunks
    end
  else Some chunks.

Definition chunk_text_fuel (fuel : nat) (text : str)
  (max_chunk_size overlap : Z) : option (list Chunk) :=
  let words := Py.split_ws text in
  if (Z.of_nat (length words) <=? max_chunk_size)%Z
  then Some [mkChunk 0 text (length words) 0 (Z.of_nat (length words))]
  else chunk_loop fuel words max_chunk_size overlap 0 0 [].

(** One unit of fuel per word is enough when the overlap is smaller than
    the chunk size (shown below). *)
Definition chunk_text (text : str) (max_chunk_size overlap : Z)
  : option (list Chunk) :=
  chunk_text_fuel (length (Py.split_ws text)) text max_chunk_size overlap.

(** ** [remove_duplicates] *)

(** [set(text.lower().split())] *)
Definition word_set (text : str) : list str :=
  py_set (Py.split_ws (Py.lower text)).

Definition member (w : str) (l : list str) : bool := existsb (Py.eqb w) l.

(** [len(a.intersection(b))] and [len(a.union(b))] for two sets. *)
Definition intersection_size (a b : list str) : nat :=
  length (filter (fun w => member w b) a).

Definition union_size (a b : list str) : nat :=
  length a + length (filter (fun w => negb (member w a)) b).

(** The body of the inner loop: is the text with the words [text_words]
    too similar to [existing_text]? *)
Definition similar (similarity_threshold : Q) (text_words : list str)
  (existing_text : str) : bool :=
  let existing_words := word_set existing_text in
  ((0 <? length text_words) && (0 <? length existing_words)
   && Qgt_bool
        (Qnat (intersection_size text_words existing_words)
         / Qnat (union_size text_words existing_words))
        similarity_threshold)%bool.

Definition dedup_step (similarity_threshold : Q) (unique_texts : list str)
  (text : str) : list str :=
  let text_words := word_set text in
  let is_duplicate :=
    existsb (similar similarity_threshold text_words) unique_texts in
  if is_duplicate then unique_texts else unique_texts ++ [text].

Definition remove_duplicates (texts : list str) (similarity_threshold : Q)
  : list str :=
  fold_left (dedup_step similarity_threshold) texts [].

End TextPreprocessor.

(* ================================================================== *)
(** * The notions the statements below are phrased with *)

Module Spec.

Import DocumentClassifier.

(** A pattern "has a match" in a text when [re.search] finds one. *)
Definition has_match (ic : bool) (r : Re.regex) (s : str) : bool :=
  match Re.search ic r s with
  | Some _ => true
  | None => false
  end.

(** A keyword "occurs" in a text when it is a substring up to case. *)
Definition occurs (text : str) (keyword : str) : bool :=
  Py.contains (Py.lower keyword) (Py.lower text).

Definition keyword_hits (text : str) (config : Config) : nat :=
  length (filter (occurs text) (keywords config)).

Definition pattern_hits (text : str) (config : Config) : nat :=
  length (filter (fun p => has_match false p (Py.lower text))
                 (patterns config)).

(** The scoring rule in the words of the specification: 1.0 per keyword
    that occurs, 2.0 per pattern with a match, times the weight. *)
Definition rule_score (text : str) (config : Config) : Q :=
  ((Qnat (keyword_hits text config) * 1
    + Qnat (pattern_hits text config) * 2) * weight config)%Q.

(** The score the classifier computes for one rule. *)
Definition type_score (text : str) (config : Config) : Q :=
  score (score_type (Py.lower text) config).

(** An entry of [all_scores] agrees with its rule of the registry. *)
Definition entry_ok (text : str) (rule : str * Config)
  (entry : str * TypeScore) : Prop :=
  fst entry = fst rule
  /\ (score (snd entry) == rule_score text (snd rule))%Q
  /\ (ts_confidence (snd entry) == Qmin (score (snd entry) / 10) 1)%Q.

(** [x] is the first element of [l] whose key is maximal. *)
Definition first_max {A K : Type} (le lt : K -> K -> Prop) (key : A -> K)
  (l : list A) (x : A) : Prop :=
  exists l1 l2,
    l = l1 ++ x :: l2
    /\ (forall y, In y l1 -> lt (key y) (key x))
    /\ (forall y, In y l2 -> le (key y) (key x)).

(** First-occurrence deduplication under a key, as a relation between the
    candidates and what is kept. *)
Record first_occurrences {A : Type} (key : A -> str) (cands kept : list A)
  : Prop := mkFirstOcc {
  fo_nodup : NoDup (map key kept);
  fo_first : forall r, In r kept ->
             exists l1 l2, cands = l1 ++ r :: l2 /\ ~ In (key r) (map key l1);
  fo_all : forall c, In c cands -> exists r, In r kept /\ key r = key c
}.

(** [l1] is [l2] with some elements left out, the others in their order. *)
Inductive subseq {A : Type} : list A -> list A -> Prop :=
| subseq_nil : subseq [] []
| subseq_skip : forall x l1 l2, subseq l1 l2 -> subseq l1 (x :: l2)
| subseq_keep : forall x l1 l2, subseq l1 l2 -> subseq (x :: l1) (x :: l2).

(** The chain of chunk bounds a chunker run leaves behind, from the start
    position [s] on: every chunk begins inside the text, the next chunk
    begins strictly later and no later than where this one ends, and the run
    stops once the start has reached the end of the text. *)
Inductive chunking (text : str) (overlap : Z) : Z -> list (Z * Z) -> Prop :=
| chunking_done : forall s,
    (Z.of_nat (length text) <= s)%Z -> chunking text overlap s []
| chunking_step : forall s e rest,
    (0 <= s < Z.of_nat (length text))%Z ->
    (s < OptimizedLegalDocumentAnalyzer.next_start text overlap e <= e)%Z ->
    chunking text overlap
      (OptimizedLegalDocumentAnalyzer.next_start text overlap e) rest ->
    chunking text overlap s ((s, e) :: rest).

(** [piece] is the part of [text] that begins at the position [s]. *)
Definition substring_at (text : str) (s : Z) (piece : str) : Prop :=
  exists pre post,
    text = pre ++ piece ++ post /\ Z.of_nat (length pre) = s.

(** The common shape of the two deduplication loops of the source: an
    element joins the kept ones unless one of them has its key. *)
Definition keep_first {A : Type} (key : A -> str) (acc : list A) (x : A)
  : list A :=
  if existsb (fun e => Py.eqb (key e) (key x)) acc then acc else acc ++ [x].

(** "The first occurrence of each prefix wins", read on the raw prefixes:
    a candidate whose first 100 characters differ from those of every
    earlier candidate is kept. *)
Definition raw_first_wins (merged out : list str) : Prop :=
  forall l1 c l2,
    merged = l1 ++ c :: l2 ->
    ~ In (Py.prefix 100 c) (map (Py.prefix 100) l1) ->
    In c out.

(** A text of 10,213 characters: a sentence of 99 letters, a blank and ten
    more letters; a sentence of the same 99 letters; and a long run without
    a sentence end. *)
Definition clause_a : str :=
  repeat "a"%char 99 ++ [" "%char] ++ repeat "b"%char 10.

Definition clause_b : str := repeat "a"%char 99.

Definition padded_text : str :=
  clause_a ++ s2l ". " ++ clause_b ++ s2l ". "
  ++ repeat "c"%char (100 * 100).

Definition or_nil {A : Type} (o : option (list A)) : list A :=
  match o with
  | Some l => l
  | None => []
  end.

Definition padded_chunks : list str :=
  or_nil (OptimizedLegalDocumentAnalyzer._chunk_text padded_text 5000 500).

Definition padded_clauses : list str :=
  or_nil (OptimizedLegalDocumentAnalyzer._extract_clauses_async padded_text).

(** The candidate records of an entity family, in the order in which
    [extract_entities] meets them: pattern after pattern and, for one
    pattern, match after match from left to right. *)
Definition collect_step (text : pyobj) (acc : list LegalNER.Entity)
  (p : LegalNER.pattern) : result (list LegalNER.Entity) :=
  matches <- LegalNER.re_finditer p text ;;
  Ok (acc ++ map (LegalNER.entity_of text) matches).

Definition candidates (text : pyobj) (pats : list LegalNER.pattern)
  : result (list LegalNER.Entity) :=
  foldM (collect_step text) pats [].

Definition ner_key (e : LegalNER.Entity) : str :=
  Py.lower (LegalNER.e_text e).

(** Two addresses that differ only in case. *)
Definition two_emails : str := s2l "a@b.co A@B.CO".

(** "An internal failure empties the affected family only": every family of
    the table has an entry in the result, which holds what its own patterns
    found, or nothing when one of them failed. *)
Definition family_isolation (self : LegalNER.t) (text : pyobj) : Prop :=
  forall family pats,
    In (family, pats) (LegalNER.patterns self) ->
    match foldM (LegalNER.pattern_step text) pats [] with
    | Ok found => In (family, found) (LegalNER.extract_entities self text)
    | Raise _ => In (family, []) (LegalNER.extract_entities self text)
    end.

(** The extractor after a family has been added to its table whose pattern
    does not compile. *)
Definition self_bad : LegalNER.t :=
  LegalNER.mkSelf
    (LegalNER.patterns LegalNER.init ++ [(s2l "custom", [LegalNER.BadPat])]).

Definition pay_text : pyobj := PyStr (s2l "Pay $5 now").

Definition money_patterns : list LegalNER.pattern :=
  MinimalLegalDocumentAnalyzer.lookup (s2l "monetary_values")
    (LegalNER.patterns LegalNER.init).

(** The rule of the lease agreements, the fourth of the registry. *)
Definition lease_config : DocumentClassifier.Config :=
  nth 3 (map snd (DocumentClassifier.document_patterns
                    DocumentClassifier.init))
        (DocumentClassifier.mkConfig [] [] 0%Q).

(** The rule of the license agreements, the seventh of the registry. *)
Definition license_config : DocumentClassifier.Config :=
  nth 6 (map snd (DocumentClassifier.document_patterns
                    DocumentClassifier.init))
        (DocumentClassifier.mkConfig [] [] 0%Q).

End Spec.

(* ================================================================== *)
(** * Further notions: what a pattern consumes and where it matches *)

Module Props.

(** A pattern that matches no empty string, decided on its syntax: a
    character, a class, a repetition with a positive lower bound (every
    iteration of a repetition consumes something), and what is built from
    such parts. *)
Fixpoint nonempty (r : Re.regex) : bool :=
  match r with
  | Re.Eps | Re.WordB => false
  | Re.Chr _ | Re.Cls _ _ => true
  | Re.Seq a b => (nonempty a || nonempty b)%bool
  | Re.Alt a b => (nonempty a && nonempty b)%bool
  | Re.Rep lo _ _ => 0 <? lo
  | Re.Grp _ a => nonempty a
  end.

(** No match of the pattern begins at a position of [gap], the text being
    [gap ++ rest] and [p] the character in front of it. *)
Fixpoint unmatched (ic : bool) (r : Re.regex) (p : option ascii)
  (gap rest : str) (idx : nat) : Prop :=
  match gap with
  | [] => True
  | c :: gap' =>
      Re.match_here ic r p (gap ++ rest) idx = None
      /\ unmatched ic r (Some c) gap' rest (S idx)
  end.

(** Matches that lie in the text, one after the other from [pos] on, each
    with the text between its bounds. *)
Inductive spans_from (s : str) : nat -> list Re.Match -> Prop :=
| spans_nil : forall pos, spans_from s pos []
| spans_cons : forall pos mt ms,
    pos <= Re.m_start mt ->
    Re.m_start mt <= Re.m_end mt ->
    Re.m_end mt <= length s ->
    Re.m_text mt
    = Py.slice s (Z.of_nat (Re.m_start mt)) (Z.of_nat (Re.m_end mt)) ->
    spans_from s (Re.m_end mt) ms ->
    spans_from s pos (mt :: ms).

(** A matcher hands to its continuation what is left of the text after a
    part at its front, which is not empty when [strict] is set. *)
Definition consumes {R : Type} (strict : bool)
  (ma : option ascii -> str -> Re.caps -> Re.cont R -> option R) : Prop :=
  forall p s cs k x,
    ma p s cs k = Some x ->
    exists p' s' cs' pre,
      s = pre ++ s' /\ (strict = true -> pre <> [])
      /\ k p' s' cs' = Some x.

(** A string that does not begin with a blank. *)
Definition starts_clean (s : str) : Prop :=
  match s with
  | [] => True
  | c :: _ => Py.is_space c = false
  end.

(** A clause as the segmenters return it: stripped and not empty. *)
Definition clean_clause (c : str) : Prop := c <> [] /\ Py.strip c = c.

(** The characters that end a sentence. *)
Definition sentence_mark (c : ascii) : bool :=
  existsb (Ascii.eqb c) (s2l ".!?").

(** The allow-list of the lightweight preprocessing, without the blanks
    other than the space: word characters, the space and the listed
    punctuation. *)
Definition allowed (c : ascii) : bool :=
  (Py.is_word c
   || existsb (Ascii.eqb c)
        (s2l " .,;:!?-()[]'/$%" ++ [ascii_of_N 34]))%bool.

(** Every character of the 8-bit range. *)
Definition all_ascii : list ascii := map ascii_of_nat (seq 0 256).

(** [part] is a contiguous part of [s]. *)
Definition part_of (part s : str) : Prop :=
  exists pre post, s = pre ++ part ++ post.

(** A word as [str.split] returns it: not empty and without a blank. *)
Definition token (w : str) : Prop :=
  w <> [] /\ Forall (fun c => Py.is_space c = false) w.

(** The chunks of the word chunker from the word [start] on, numbered from
    [id]: full chunks of [max_chunk_size] words, each beginning [overlap]
    words before the end of the one in front of it, and a last chunk that
    ends with the last word. *)
Inductive word_chunks (words : list str) (max_chunk_size overlap : Z)
  : Z -> nat -> list TextPreprocessor.Chunk -> Prop :=
| word_chunks_last : forall start id,
    (0 <= start < Z.of_nat (length words))%Z ->
    (Z.of_nat (length words) <= start + max_chunk_size)%Z ->
    word_chunks words max_chunk_size overlap start id
      [TextPreprocessor.mkChunk id
         (Py.join (s2l " ")
            (TextPreprocessor.word_slice words start
               (Z.of_nat (length words))))
         (Z.to_nat (Z.of_nat (length words) - start))
         start (Z.of_nat (length words))]
| word_chunks_more : forall start id rest,
    (0 <= start)%Z ->
    (start + max_chunk_size < Z.of_nat (length words))%Z ->
    word_chunks words max_chunk_size overlap
      (start + max_chunk_size - overlap) (S id) rest ->
    word_chunks words max_chunk_size overlap start id
      (TextPreprocessor.mkChunk id
         (Py.join (s2l " ")
            (TextPreprocessor.word_slice words start
               (start + max_chunk_size)))
         (Z.to_nat max_chunk_size)
         start (start + max_chunk_size)
       :: rest).

(** Every character the pattern can consume satisfies [pb]: checked on the
    characters and the classes of the pattern, over the 8-bit range. *)
Fixpoint chars_in (ic : bool) (pb : ascii -> bool) (r : Re.regex) : bool :=
  match r with
  | Re.Eps | Re.WordB => true
  | Re.Chr x =>
      forallb (fun c => implb (Re.chr_match ic x c) (pb c)) all_ascii
  | Re.Cls neg rs =>
      forallb (fun c => implb (Re.cls_match ic neg rs c) (pb c))
              all_ascii
  | Re.Seq a b | Re.Alt a b => (chars_in ic pb a && chars_in ic pb b)%bool
  | Re.Rep _ _ a | Re.Grp _ a => chars_in ic pb a
  end.

(** Every group [i] of the pattern can consume characters of [pb i] only. *)
Fixpoint groups_in (ic : bool) (pb : nat -> ascii -> bool) (r : Re.regex)
  : bool :=
  match r with
  | Re.Grp i a => (chars_in ic (pb i) a && groups_in ic pb a)%bool
  | Re.Seq a b | Re.Alt a b => (groups_in ic pb a && groups_in ic pb b)%bool
  | Re.Rep _ _ a => groups_in ic pb a
  | _ => true
  end.

(** The captured groups hold characters of [pb] only. *)
Definition caps_in (pb : nat -> ascii -> bool) (cs : Re.caps) : Prop :=
  Forall (fun c => Forall (fun ch => pb (fst c) ch = true) (snd c)) cs.

(** A matcher keeps the captured groups within [pb], and what it consumes
    holds characters of [pbc] only whenever it passes the check for [pbc]. *)
Definition sound {R : Type} (pb : nat -> ascii -> bool)
  (check : (ascii -> bool) -> bool)
  (ma : option ascii -> str -> Re.caps -> Re.cont R -> option R) : Prop :=
  forall p s cs k x,
    caps_in pb cs ->
    ma p s cs k = Some x ->
    exists p' s' cs' pre,
      s = pre ++ s'
      /\ caps_in pb cs'
      /\ (forall pbc, check pbc = true -> Forall (fun c => pbc c = true) pre)
      /\ k p' s' cs' = Some x.

(** The characters other than those of [x]. *)
Definition is_not (x : string) (c : ascii) : bool :=
  negb (existsb (Ascii.eqb c) (s2l x)).

End Props.

(* ================================================================== *)
(** * Lemmas on strings *)

Unset Implicit Arguments.

Lemma ascii_eqb_refl (c : ascii) : Ascii.eqb c c = true.
Proof. apply Ascii.eqb_refl. Qed.

Lemma py_eqb_eq (a b : str) : Py.eqb a b = true <-> a = b.
Proof.
  revert b; induction a as [|x a IH]; intros [|y b]; simpl; split;
    try congruence; try reflexivity.
  - intros H. apply andb_true_iff in H as [H1 H2].
    apply Ascii.eqb_eq in H1. apply IH in H2. congruence.
  - intros H. injection H as -> ->.
    rewrite ascii_eqb_refl. simpl. now apply IH.
Qed.

Lemma py_eqb_refl (a : str) : Py.eqb a a = true.
Proof. now apply py_eqb_eq. Qed.

Lemma py_eqb_neq (a b : str) : Py.eqb a b = false <-> a <> b.
Proof.
  split.
  - intros H E. apply py_eqb_eq in E. congruence.
  - intros H. destruct (Py.eqb a b) eqn:E; [|reflexivity].
    apply py_eqb_eq in E. contradiction.
Qed.

Lemma startswith_app (p s x : str) :
  Py.startswith p s = true -> Py.startswith p (s ++ x) = true.
Proof.
  revert s; induction p as [|c p IH]; intros [|d s]; simpl; try congruence.
  intros H. apply andb_true_iff in H as [H1 H2].
  rewrite H1. simpl. now apply IH.
Qed.

Lemma startswith_self (p x : str) : Py.startswith p (p ++ x) = true.
Proof.
  induction p as [|c p IH]; simpl; [reflexivity|].
  now rewrite ascii_eqb_refl.
Qed.

Lemma contains_unfold (sub s : str) :
  Py.contains sub s =
  (Py.startswith sub s ||
   match s with [] => false | _ :: s' => Py.contains sub s' end)%bool.
Proof. destruct s; reflexivity. Qed.

(** A substring stays one when text is appended. *)
Lemma contains_app (sub s x : str) :
  Py.contains sub s = true -> Py.contains sub (s ++ x) = true.
Proof.
  induction s as [|c s IH]; intros H.
  - rewrite contains_unfold in H. rewrite orb_false_r in H.
    destruct sub; [|discriminate].
    rewrite contains_unfold. reflexivity.
  - rewrite contains_unfold in H. simpl app. rewrite contains_unfold.
    apply orb_true_iff in H as [H|H].
    + change (c :: s ++ x) with ((c :: s) ++ x).
      rewrite (startswith_app _ _ x H). reflexivity.
    + rewrite (IH H). apply orb_true_r.
Qed.

(** An appended string is a substring of the result. *)
Lemma contains_suffix (sub pre : str) : Py.contains sub (pre ++ sub) = true.
Proof.
  induction pre as [|c pre IH]; simpl app.
  - rewrite contains_unfold.
    rewrite <- (app_nil_r sub) at 2. now rewrite startswith_self.
  - rewrite contains_unfold. rewrite IH. apply orb_true_r.
Qed.

Lemma lower_app (a b : str) : Py.lower (a ++ b) = Py.lower a ++ Py.lower b.
Proof. apply map_app. Qed.

(* ================================================================== *)
(** * Lemmas on rationals *)

Lemma Qnat_S (n : nat) : (Qnat (S n) == Qnat n + 1)%Q.
Proof.
  unfold Qnat. rewrite Nat2Z.inj_succ. unfold Z.succ.
  rewrite inject_Z_plus. reflexivity.
Qed.

Lemma Qnat_le (a b : nat) : a <= b -> (Qnat a <= Qnat b)%Q.
Proof.
  intros H. unfold Qnat. rewrite <- Zle_Qle. lia.
Qed.

Lemma Qnat_lt (a b : nat) : a < b -> (Qnat a < Qnat b)%Q.
Proof.
  intros H. unfold Qnat. rewrite <- Zlt_Qlt. lia.
Qed.

Lemma Qgt_bool_true (a b : Q) : Qgt_bool a b = true <-> (b < a)%Q.
Proof.
  unfold Qgt_bool. rewrite negb_true_iff.
  split.
  - intros H. apply Qnot_le_lt. intros L.
    apply Qle_bool_iff in L. congruence.
  - intros H. destruct (Qle_bool a b) eqn:E; [|reflexivity].
    apply Qle_bool_iff in E. exfalso. now apply (Qlt_not_le b a).
Qed.

Lemma Qgt_bool_false (a b : Q) : Qgt_bool a b = false <-> (a <= b)%Q.
Proof.
  unfold Qgt_bool. rewrite negb_false_iff. apply Qle_bool_iff.
Qed.

(* ================================================================== *)
(** * Lemmas on [max] *)

Section PyMaxFacts.

Variable A K : Type.
Variable gt : K -> K -> bool.
Variable key : A -> K.

Hypothesis gt_trans :
  forall a b c, gt a b = true -> gt b c = true -> gt a c = true.
Hypothesis gt_le_trans :
  forall a b c, gt a b = true -> gt c b = false -> gt a c = true.

Lemma fold_max_first (rest : list A) :
  forall l1 x l2,
    (forall y, In y l1 -> gt (key x) (key y) = true) ->
    (forall y, In y l2 -> gt (key y) (key x) = false) ->
    exists m1 m2,
      l1 ++ x :: l2 ++ rest
      = m1 ++ fold_left (max_step gt key) rest x :: m2
      /\ (forall y, In y m1 ->
          gt (key (fold_left (max_step gt key) rest x)) (key y) = true)
      /\ (forall y, In y m2 ->
          gt (key y) (key (fold_left (max_step gt key) rest x)) = false).
Proof.
  induction rest as [|r rest IH]; intros l1 x l2 H1 H2.
  - exists l1, l2. simpl. rewrite app_nil_r. auto.
  - simpl fold_left. unfold max_step at 2 4 6.
    destruct (gt (key r) (key x)) eqn:E.
    + destruct (IH (l1 ++ x :: l2) r []) as (m1 & m2 & Heq & Ha & Hb).
      * intros y Hy. apply in_app_or in Hy as [Hy|[<-|Hy]].
        -- eapply gt_trans; eauto.
        -- exact E.
        -- eapply gt_le_trans; eauto.
      * intros y [].
      * exists m1, m2. split; [|auto].
        rewrite <- Heq. rewrite <- app_assoc. reflexivity.
    + destruct (IH l1 x (l2 ++ [r])) as (m1 & m2 & Heq & Ha & Hb).
      * exact H1.
      * intros y Hy. apply in_app_or in Hy as [Hy|[<-|[]]]; auto.
      * exists m1, m2. split; [|auto].
        rewrite <- Heq. rewrite <- app_assoc. reflexivity.
Qed.

(** [max] returns the first element with the largest key. *)
Lemma py_max_first (items : list A) (b : A) :
  py_max gt key items = Some b ->
  exists m1 m2,
    items = m1 ++ b :: m2
    /\ (forall y, In y m1 -> gt (key b) (key y) = true)
    /\ (forall y, In y m2 -> gt (key y) (key b) = false).
Proof.
  destruct items as [|x rest]; simpl; [discriminate|].
  intros H. injection H as <-.
  destruct (fold_max_first rest [] x []) as (m1 & m2 & Heq & Ha & Hb).
  - intros y [].
  - intros y [].
  - exists m1, m2. simpl in Heq. auto.
Qed.

Lemma py_max_some (items : list A) :
  items <> [] -> exists b, py_max gt key items = Some b.
Proof.
  destruct items; [congruence|]. intros _. simpl. eauto.
Qed.

End PyMaxFacts.

Lemma Qgt_bool_trans (a b c : Q) :
  Qgt_bool a b = true -> Qgt_bool b c = true -> Qgt_bool a c = true.
Proof.
  rewrite !Qgt_bool_true. intros H1 H2. eapply Qlt_trans; eauto.
Qed.

Lemma Qgt_bool_le_trans (a b c : Q) :
  Qgt_bool a b = true -> Qgt_bool c b = false -> Qgt_bool a c = true.
Proof.
  rewrite !Qgt_bool_true, Qgt_bool_false. intros H1 H2.
  eapply Qle_lt_trans; eauto.
Qed.

Lemma Zgtb_trans (a b c : Z) :
  Z.gtb a b = true -> Z.gtb b c = true -> Z.gtb a c = true.
Proof. rewrite !Z.gtb_ltb, !Z.ltb_lt. lia. Qed.

Lemma Zgtb_le_trans (a b c : Z) :
  Z.gtb a b = true -> Z.gtb c b = false -> Z.gtb a c = true.
Proof. rewrite !Z.gtb_ltb, !Z.ltb_lt, Z.ltb_ge. lia. Qed.

(** The selection over rational keys, in terms of the order. *)
Lemma py_max_Q_first_max (A : Type) (key : A -> Q) (items : list A) (b : A) :
  py_max Qgt_bool key items = Some b ->
  Spec.first_max Qle Qlt key items b.
Proof.
  intros H.
  destruct (py_max_first _ _ Qgt_bool key Qgt_bool_trans Qgt_bool_le_trans _ _ H)
    as (m1 & m2 & Heq & Ha & Hb).
  exists m1, m2. split; [exact Heq|]. split.
  - intros y Hy. apply Qgt_bool_true. auto.
  - intros y Hy. apply Qgt_bool_false. auto.
Qed.

(* ================================================================== *)
(** * The matcher: a match exists exactly when [findall] is non-empty *)

Lemma findall_nil_iff (ic : bool) (r : Re.regex) (s : str) :
  Re.findall ic r s = [] <-> Spec.has_match ic r s = false.
Proof.
  unfold Re.findall, Re.finditer, Spec.has_match, Re.search. simpl.
  destruct (Re.search_from ic r None s 0) as [mt|].
  - destruct (Re.advance _ None s) as [p' s'].
    simpl. split; discriminate.
  - simpl. split; reflexivity.
Qed.

(* ================================================================== *)
(** * The scoring loop of the full classifier *)

Section Scoring.

Import DocumentClassifier.

Variable text : str.

Lemma keyword_loop (ks : list str) (acc : Q * list str) :
  (fst (fold_left (keyword_step (Py.lower text)) ks acc)
   == fst acc + Qnat (length (filter (Spec.occurs text) ks)))%Q.
Proof.
  revert acc. induction ks as [|k ks IH]; intros acc; simpl.
  - unfold Qnat. simpl. ring.
  - rewrite IH. unfold keyword_step, Spec.occurs.
    destruct (Py.contains (Py.lower k) (Py.lower text)); simpl.
    + rewrite Qnat_S. ring.
    + reflexivity.
Qed.

Lemma pattern_loop (ps : list Re.regex) (acc : Q * list str) :
  (fst (fold_left (pattern_step (Py.lower text)) ps acc)
   == fst acc
      + Qnat (length (filter (fun p => Spec.has_match false p (Py.lower text))
                             ps)) * 2)%Q.
Proof.
  revert acc. induction ps as [|p ps IH]; intros acc; simpl.
  - unfold Qnat. simpl. ring.
  - rewrite IH. unfold pattern_step.
    destruct (Re.findall false p (Py.lower text)) as [|mt ms] eqn:E.
    + apply findall_nil_iff in E. rewrite E. reflexivity.
    + destruct (Spec.has_match false p (Py.lower text)) eqn:E'.
      * simpl. rewrite Qnat_S. ring.
      * apply findall_nil_iff in E'. congruence.
Qed.

(** The computed score is the score of the rule. *)
Lemma score_type_rule (config : Config) :
  (Spec.type_score text config == Spec.rule_score text config)%Q.
Proof.
  unfold Spec.type_score, Spec.rule_score, score_type.
  pose proof (keyword_loop (keywords config) (0%Q, [])) as Hk.
  destruct (fold_left (keyword_step (Py.lower text)) (keywords config)
                      (0%Q, [])) as [s1 mk].
  pose proof (pattern_loop (patterns config) (s1, [])) as Hp.
  destruct (fold_left (pattern_step (Py.lower text)) (patterns config)
                      (s1, [])) as [s2 mp].
  simpl in *. rewrite Hp, Hk.
  unfold Spec.keyword_hits, Spec.pattern_hits. ring.
Qed.

Lemma score_type_confidence (config : Config) :
  ts_confidence (score_type (Py.lower text) config)
  = Qmin (score (score_type (Py.lower text) config) / 10) 1.
Proof.
  unfold score_type.
  destruct (fold_left (keyword_step (Py.lower text)) (keywords config)
                      (0%Q, [])) as [s1 mk].
  destruct (fold_left (pattern_step (Py.lower text)) (patterns config)
                      (s1, [])) as [s2 mp].
  reflexivity.
Qed.

End Scoring.

(* ================================================================== *)
(** * C1: the scoring contract of the full classifier *)

Section ClassifierContract.

Import DocumentClassifier.

Lemma scores_entry_ok (text : str) (rules : list (str * Config)) :
  Forall2 (Spec.entry_ok text) rules
    (map (fun e => (fst e, score_type (Py.lower text) (snd e))) rules).
Proof.
  induction rules as [|rule rules IH]; simpl; constructor; [|exact IH].
  unfold Spec.entry_ok. simpl. split; [reflexivity|]. split.
  - apply score_type_rule.
  - rewrite score_type_confidence. reflexivity.
Qed.

Lemma first_max_in {A K : Type} (le lt : K -> K -> Prop) (key : A -> K)
  (l : list A) (x : A) :
  Spec.first_max le lt key l x -> In x l.
Proof.
  intros (l1 & l2 & -> & _). apply in_or_app. right. now left.
Qed.

Lemma classify_document_contract_gen (self : t) (text : str) :
  document_patterns self <> [] ->
  let r := classify_document self text in
  Forall2 (Spec.entry_ok text) (document_patterns self) (all_scores r)
  /\ (exists best,
        Spec.first_max Qle Qlt (fun e => score (snd e)) (all_scores r) best
        /\ (confidence r == Qmin (score (snd best) / 10) 1)%Q
        /\ (is_confident r = true <-> (2 <= score (snd best))%Q)
        /\ predicted_type r = (if is_confident r then fst best else unknown))
  /\ ((forall e, In e (all_scores r) -> (score (snd e) < 2)%Q) ->
      predicted_type r = unknown
      /\ length (all_scores r) = length (document_patterns self)).
Proof.
  intros Hne r. subst r. unfold classify_document.
  set (scores := map (fun e => (fst e, score_type (Py.lower text) (snd e)))
                     (document_patterns self)).
  assert (Hs : scores <> []).
  { unfold scores. destruct (document_patterns self); [congruence|].
    simpl. discriminate. }
  destruct (py_max_some _ _ Qgt_bool
              (fun x : str * TypeScore => score (snd x)) scores Hs)
    as [best Hbest].
  rewrite Hbest. simpl.
  pose proof (py_max_Q_first_max _ _ _ _ Hbest) as Hfm.
  split; [apply scores_entry_ok|]. split.
  - exists best. split; [exact Hfm|]. split.
    + destruct best as [ty ts]. simpl.
      apply first_max_in in Hfm. unfold scores in Hfm.
      apply in_map_iff in Hfm as (rule & Hrule & _).
      injection Hrule as _ <-.
      rewrite score_type_confidence. reflexivity.
    + split; [|reflexivity].
      unfold threshold. apply Qle_bool_iff.
  - intros Hall. split.
    + apply first_max_in in Hfm. apply Hall in Hfm.
      destruct (Qle_bool threshold (score (snd best))) eqn:E; [|reflexivity].
      apply Qle_bool_iff in E. unfold threshold in E.
      exfalso. now apply (Qlt_not_le _ _ Hfm).
    + unfold scores. apply length_map.
Qed.

End ClassifierContract.

(** C1.  For every text the full classifier honours its scoring contract:
    every registered type has an entry whose score is 1.0 per keyword that
    occurs in the text up to case (a keyword counts once) plus 2.0 per
    pattern with a match, times the weight of the rule, and whose confidence
    is [min(score / 10, 1)]; the reported confidence is that of the selected
    entry, which has the largest score; [is_confident] holds exactly when
    that score is at least 2.0; and when every score is below 2.0 the type
    is reported as "unknown" while all eight entries are returned. *)
Theorem classify_document_scoring_contract :
  forall text : str,
    let r := DocumentClassifier.classify_document DocumentClassifier.init text in
    Forall2 (Spec.entry_ok text)
      (DocumentClassifier.document_patterns DocumentClassifier.init)
      (DocumentClassifier.all_scores r)
    /\ (exists best,
          Spec.first_max Qle Qlt
            (fun e => DocumentClassifier.score (snd e))
            (DocumentClassifier.all_scores r) best
          /\ (DocumentClassifier.confidence r
              == Qmin (DocumentClassifier.score (snd best) / 10) 1)%Q
          /\ (DocumentClassifier.is_confident r = true
              <-> (2 <= DocumentClassifier.score (snd best))%Q)
          /\ DocumentClassifier.predicted_type r
             = (if DocumentClassifier.is_confident r
                then fst best else s2l "unknown"))
    /\ ((forall e, In e (DocumentClassifier.all_scores r) ->
                   (DocumentClassifier.score (snd e) < 2)%Q) ->
        DocumentClassifier.predicted_type r = s2l "unknown"
        /\ length (DocumentClassifier.all_scores r) = 8).
Proof.
  intros text.
  apply (classify_document_contract_gen DocumentClassifier.init text).
  discriminate.
Qed.

(* ================================================================== *)
(** * First maxima of integer keys, and the lightweight classifier *)

Lemma py_max_Z_first_max (A : Type) (key : A -> Z) (items : list A) (b : A) :
  py_max Z.gtb key items = Some b ->
  Spec.first_max Z.le Z.lt key items b.
Proof.
  intros H.
  destruct (py_max_first _ _ Z.gtb key Zgtb_trans Zgtb_le_trans _ _ H)
    as (m1 & m2 & Heq & Ha & Hb).
  exists m1, m2. split; [exact Heq|]. split.
  - intros y Hy. specialize (Ha _ Hy).
    rewrite Z.gtb_ltb, Z.ltb_lt in Ha. exact Ha.
  - intros y Hy. specialize (Hb _ Hy).
    rewrite Z.gtb_ltb, Z.ltb_ge in Hb. exact Hb.
Qed.

Lemma Qnat_div_nonzero (n : nat) :
  0 < n -> Qeq_bool (Qnat n / 100) 0 = false.
Proof.
  intros Hn. destruct (Qeq_bool (Qnat n / 100) 0) eqn:E; [|reflexivity].
  exfalso. apply Qeq_bool_iff in E.
  assert (H : (Qnat n == 0)%Q).
  { setoid_replace (Qnat n) with ((Qnat n / 100) * 100)%Q by (field; discriminate).
    rewrite E. ring. }
  unfold Qnat in H. apply (Qlt_irrefl 0).
  rewrite <- H at 2. change 0%Q with (inject_Z 0). rewrite <- Zlt_Qlt. lia.
Qed.

Section MinimalClassifier.

Import MinimalLegalDocumentAnalyzer.

(** The lightweight classifier returns whenever the text has a word, and
    what it then reports is the first type with the largest score. *)
Lemma minimal_classify_selects (self : t) (text : str) :
  document_patterns self <> [] ->
  (0 < length (Py.split_ws text) ->
   exists c, _classify_document self text = Ok c)
  /\ (forall c, _classify_document self text = Ok c ->
      map fst (scores c) = map fst (document_patterns self)
      /\ exists s, Spec.first_max Z.le Z.lt snd (scores c)
                     (predicted_type c, s)).
Proof.
  intros Hne. unfold _classify_document.
  set (sc := map (fun e => (fst e, score_patterns (Py.lower text) (snd e)))
                 (document_patterns self)).
  assert (Hs : sc <> []).
  { unfold sc. destruct (document_patterns self); [congruence|].
    simpl. discriminate. }
  destruct (py_max_some _ _ Z.gtb (fun x : str * Z => snd x) sc Hs)
    as [[pt ms] Hbest].
  rewrite Hbest.
  pose proof (py_max_Z_first_max _ _ _ _ Hbest) as Hfm.
  unfold truediv. split.
  - intros Hw. rewrite (Qnat_div_nonzero _ Hw). simpl. eauto.
  - intros c. destruct (Qeq_bool (Qnat (length (Py.split_ws text)) / 100) 0);
      simpl; [discriminate|].
    intros H. injection H as <-. simpl. split.
    + unfold sc. rewrite map_map. reflexivity.
    + exists ms. exact Hfm.
Qed.

End MinimalClassifier.


(* ================================================================== *)
(** * C7: batched simplification *)


Lemma subseq_refl {A : Type} (l : list A) : Spec.subseq l l.
Proof. induction l; constructor; assumption. Qed.

Lemma subseq_nil_l {A : Type} (l : list A) : Spec.subseq [] l.
Proof. induction l; constructor; assumption. Qed.

Lemma subseq_app {A : Type} (a b c d : list A) :
  Spec.subseq a b -> Spec.subseq c d -> Spec.subseq (a ++ c) (b ++ d).
Proof.
  intros H Hc. induction H as [|x l1 l2 H IH|x l1 l2 H IH]; simpl.
  - exact Hc.
  - apply Spec.subseq_skip. exact IH.
  - apply Spec.subseq_keep. exact IH.
Qed.

Lemma subseq_firstn {A : Type} (n : nat) (l : list A) :
  Spec.subseq (firstn n l) l.
Proof.
  rewrite <- (firstn_skipn n l) at 2.
  rewrite <- (app_nil_r (firstn n l)) at 1.
  apply subseq_app; [apply subseq_refl|apply subseq_nil_l].
Qed.

Lemma subseq_trans {A : Type} (a b c : list A) :
  Spec.subseq a b -> Spec.subseq b c -> Spec.subseq a c.
Proof.
  intros Hab Hbc. revert a Hab.
  induction Hbc as [|x l1 l2 H IH|x l1 l2 H IH]; intros a Hab.
  - exact Hab.
  - apply Spec.subseq_skip. auto.
  - inversion Hab; subst.
    + apply Spec.subseq_skip. auto.
    + apply Spec.subseq_keep. auto.
Qed.


Section Batches.

Import OptimizedLegalDocumentAnalyzer.

Variable A : Type.
Variable self : t A.

Let f := simplifier_simplify_clause self.




Lemma filter_subseq {B : Type} (g : B -> bool) (l : list B) :
  Spec.subseq (filter g l) l.
Proof.
  induction l as [|x l IH]; cbn [filter]; [constructor|].
  destruct (g x); now constructor.
Qed.




End Batches.



(* ================================================================== *)
(** * C10: the overlapping-chunk splitter *)

Lemma norm_nonneg (len i : Z) :
  (0 <= len)%Z -> (0 <= i)%Z -> Py.norm len i = Z.min i len.
Proof.
  intros _ Hi. unfold Py.norm.
  destruct (i <? 0)%Z eqn:E; [|reflexivity].
  apply Z.ltb_lt in E. lia.
Qed.

Lemma slice_length_le (s : str) (i j : Z) :
  (Z.of_nat (length (Py.slice s i j))
   <= Z.max 0 (Py.norm (Z.of_nat (length s)) j
               - Py.norm (Z.of_nat (length s)) i))%Z.
Proof.
  unfold Py.slice. rewrite length_firstn. lia.
Qed.

Lemma rfind_char_range (c : ascii) (l : str) :
  forall base,
    (0 <= base)%Z ->
    Py.rfind_char c l base = (-1)%Z
    \/ (base <= Py.rfind_char c l base < base + Z.of_nat (length l))%Z.
Proof.
  induction l as [|x l IH]; intros base Hb; simpl Py.rfind_char.
  - now left.
  - destruct (IH (base + 1)%Z ltac:(lia)) as [E|E].
    + rewrite E. change (0 <=? -1)%Z with false. cbv iota.
      destruct (Ascii.eqb x c); [right|now left].
      cbn [Datatypes.length]. lia.
    + destruct (0 <=? Py.rfind_char c l (base + 1))%Z eqn:T.
      * right. cbn [Datatypes.length]. lia.
      * apply Z.leb_gt in T. lia.
Qed.

(** [rfind] inside a window [[i, j)] of the text answers [-1] or a position
    of the window. *)
Lemma rfind_range (s : str) (c : ascii) (i j : Z) :
  (0 <= i <= j)%Z -> (j <= Z.of_nat (length s))%Z ->
  Py.rfind s c i j = (-1)%Z \/ (i <= Py.rfind s c i j < j)%Z.
Proof.
  intros Hij Hj. unfold Py.rfind.
  pose proof (slice_length_le s i j) as Hl.
  rewrite !norm_nonneg in Hl by lia.
  rewrite norm_nonneg by lia.
  replace (Z.min i (Z.of_nat (length s))) with i in * by lia.
  destruct (rfind_char_range c (Py.slice s i j) i ltac:(lia)) as [E|E].
  - now left.
  - right. lia.
Qed.

Section Chunker.

Import OptimizedLegalDocumentAnalyzer.

Variable text : str.
Variable chunk_size overlap : Z.

Hypothesis overlap_nonneg : (0 <= overlap)%Z.
Hypothesis window_fits : (overlap + 200 < chunk_size)%Z.

Let len := Z.of_nat (length text).

(** A cut lies in the last 200 characters of the window, or the window
    reaches the end of the text. *)
Lemma chunk_end_range (start : Z) :
  (0 <= start)%Z ->
  (start + chunk_size - 200 < chunk_end text chunk_size start
   <= start + chunk_size)%Z
  /\ ((chunk_end text chunk_size start < len)%Z ->
      (start + chunk_size < len)%Z).
Proof.
  intros Hs. unfold chunk_end. fold len.
  destruct (start + chunk_size <? len)%Z eqn:E.
  - apply Z.ltb_lt in E.
    destruct (rfind_range text "."%char (start + chunk_size - 200)
                (start + chunk_size) ltac:(lia) ltac:(fold len; lia))
      as [R|R].
    + rewrite R. simpl. lia.
    + destruct (Py.rfind text "." (start + chunk_size - 200)
                  (start + chunk_size) =? -1)%Z eqn:T.
      * apply Z.eqb_eq in T. lia.
      * lia.
  - apply Z.ltb_ge in E. lia.
Qed.

(** Every iteration moves the start forward, and never past the cut. *)
Lemma next_start_progress (start : Z) :
  (0 <= start)%Z ->
  let e := chunk_end text chunk_size start in
  (start < next_start text overlap e <= e)%Z
  /\ (start + (chunk_size - 200 - overlap) < next_start text overlap e)%Z.
Proof.
  intros Hs e. destruct (chunk_end_range start Hs) as (He & _).
  fold e in He. unfold next_start. fold len.
  destruct (e <? len)%Z; lia.
Qed.

(** With fuel for every remaining character the loop finishes, and its
    bounds form a chain. *)
Lemma chunk_spans_total (fuel : nat) :
  forall start,
    (0 <= start)%Z ->
    (len - start <= Z.of_nat fuel)%Z ->
    exists spans,
      chunk_spans fuel text chunk_size overlap start = Some spans
      /\ Spec.chunking text overlap start spans.
Proof.
  induction fuel as [|fuel IH]; intros start Hs Hf.
  - exists []. simpl. fold len.
    destruct (start <? len)%Z eqn:E.
    + apply Z.ltb_lt in E. lia.
    + split; [reflexivity|]. constructor. apply Z.ltb_ge in E. exact E.
  - simpl. fold len.
    destruct (start <? len)%Z eqn:E.
    + apply Z.ltb_lt in E.
      destruct (next_start_progress start Hs) as (Hp & _).
      destruct (IH (next_start text overlap (chunk_end text chunk_size start)))
        as (spans & Hsp & Hch); [lia|lia|].
      rewrite Hsp. eexists. split; [reflexivity|].
      constructor; [fold len; lia|exact Hp|exact Hch].
    + exists []. split; [reflexivity|]. constructor.
      apply Z.ltb_ge in E. exact E.
Qed.

(** The chunks are the slices of the text at the recorded bounds. *)
Lemma chunk_loop_spans (fuel : nat) :
  forall start spans acc,
    chunk_spans fuel text chunk_size overlap start = Some spans ->
    chunk_loop fuel text chunk_size overlap start acc
    = Some (acc ++ map (fun se => Py.slice text (fst se) (snd se)) spans).
Proof.
  induction fuel as [|fuel IH]; intros start spans acc; simpl;
    destruct (start <? Z.of_nat (length text))%Z; try discriminate.
  - intros H. injection H as <-. simpl. now rewrite app_nil_r.
  - destruct (chunk_spans fuel text chunk_size overlap
                (next_start text overlap (chunk_end text chunk_size start)))
      as [rest|] eqn:E; [|discriminate].
    intros H. injection H as <-.
    rewrite (IH _ _ _ E). simpl. now rewrite <- app_assoc.
  - intros H. injection H as <-. simpl. now rewrite app_nil_r.
Qed.

(** More fuel changes nothing. *)
Lemma chunk_spans_fuel_mono (fuel : nat) :
  forall fuel' start spans,
    fuel <= fuel' ->
    chunk_spans fuel text chunk_size overlap start = Some spans ->
    chunk_spans fuel' text chunk_size overlap start = Some spans.
Proof.
  induction fuel as [|fuel IH]; intros fuel' start spans Hle; simpl;
    destruct (start <? Z.of_nat (length text))%Z eqn:T; try discriminate.
  - intros H. destruct fuel'; simpl; rewrite T; exact H.
  - destruct fuel' as [|fuel']; [lia|]. simpl. rewrite T.
    destruct (chunk_spans fuel text chunk_size overlap
                (next_start text overlap (chunk_end text chunk_size start)))
      as [rest|] eqn:E; [|discriminate].
    intros H. rewrite (IH fuel' _ _ ltac:(lia) E). exact H.
  - intros H. destruct fuel'; simpl; rewrite T; exact H.
Qed.

End Chunker.

(** A chain of bounds that starts at [s] covers every position from [s] to
    the end of the text. *)
Lemma chunking_covers (text : str) (overlap : Z) (s : Z)
  (spans : list (Z * Z)) :
  Spec.chunking text overlap s spans ->
  forall i,
    (s <= i < Z.of_nat (length text))%Z ->
    exists se, In se spans /\ (fst se <= i < snd se)%Z.
Proof.
  induction 1 as [s Hs|s e rest Hs Hn Hch IH]; intros i Hi.
  - lia.
  - destruct (Z_lt_ge_dec i e) as [L|G].
    + exists (s, e). split; [now left|simpl; lia].
    + destruct (IH i) as (se & Hin & Hse); [lia|].
      exists se. split; [now right|exact Hse].
Qed.

Lemma chunking_starts (text : str) (overlap : Z) (s : Z)
  (spans : list (Z * Z)) :
  Spec.chunking text overlap s spans ->
  Forall (fun se => (s <= fst se < Z.of_nat (length text))%Z
                    /\ (fst se < snd se)%Z) spans.
Proof.
  induction 1 as [s Hs|s e rest Hs Hn Hch IH]; constructor.
  - simpl. lia.
  - eapply Forall_impl; [|exact IH]. simpl. intros se H. lia.
Qed.

(** A slice that begins inside the text runs up to its end bound, or to the
    end of the text. *)
Lemma slice_length (text : str) (s e : Z) :
  (0 <= s <= Z.of_nat (length text))%Z -> (s <= e)%Z ->
  Z.of_nat (length (Py.slice text s e))
  = (Z.min e (Z.of_nat (length text)) - s)%Z.
Proof.
  intros Hs He. unfold Py.slice.
  rewrite !norm_nonneg by lia.
  rewrite length_firstn, length_skipn. lia.
Qed.

(** A slice that begins inside the text is a contiguous part of it. *)
Lemma slice_substring (text : str) (s e : Z) :
  (0 <= s <= Z.of_nat (length text))%Z ->
  Spec.substring_at text s (Py.slice text s e).
Proof.
  intros Hs. unfold Py.slice, Spec.substring_at.
  rewrite (norm_nonneg _ s) by lia.
  replace (Z.min s (Z.of_nat (length text))) with s by lia.
  set (n := Z.to_nat (Py.norm (Z.of_nat (length text)) e - s)).
  exists (firstn (Z.to_nat s) text), (skipn n (skipn (Z.to_nat s) text)).
  split.
  - rewrite firstn_skipn. now rewrite firstn_skipn.
  - rewrite length_firstn. lia.
Qed.

(** The splitter of the pipeline returns for every text. *)
Lemma chunk_text_terminates_and_covers_aux (text : str) :
  exists chunks,
    OptimizedLegalDocumentAnalyzer._chunk_text text 5000 500 = Some chunks.
Proof.
  destruct (chunk_spans_total text 5000 500 ltac:(lia) ltac:(lia)
              (length text) 0%Z ltac:(lia) ltac:(lia))
    as (spans & Hsp & _).
  eexists. unfold OptimizedLegalDocumentAnalyzer._chunk_text,
    OptimizedLegalDocumentAnalyzer._chunk_text_fuel.
  apply (chunk_loop_spans text 5000 500 _ 0%Z spans []). exact Hsp.
Qed.

(** C10.  For every text the splitter with the parameters of the pipeline
    (chunks of 5000 characters, overlap 500) finishes: one unit of fuel per
    character is enough and more fuel gives the same chunks.  Every
    iteration moves the start forward by more than 4300 characters and never
    past the end of the chunk just cut, so consecutive chunks leave no gap;
    every position of the text lies between the bounds of a chunk; and
    every chunk is the contiguous part of the text that begins at its start
    bound and runs to its end bound, or to the end of the text. *)
Theorem chunk_text_terminates_and_covers :
  forall text : str,
  exists spans : list (Z * Z),
    OptimizedLegalDocumentAnalyzer._chunk_text text 5000 500
    = Some (map (fun se => Py.slice text (fst se) (snd se)) spans)
    /\ (forall fuel,
          length text <= fuel ->
          OptimizedLegalDocumentAnalyzer._chunk_text_fuel fuel text 5000 500
          = OptimizedLegalDocumentAnalyzer._chunk_text text 5000 500)
    /\ Spec.chunking text 500 0 spans
    /\ (forall start,
          (0 <= start)%Z ->
          (start + 4300
           < OptimizedLegalDocumentAnalyzer.next_start text 500
               (OptimizedLegalDocumentAnalyzer.chunk_end text 5000 start))%Z)
    /\ (forall i,
          (0 <= i < Z.of_nat (length text))%Z ->
          exists se, In se spans /\ (fst se <= i < snd se)%Z)
    /\ Forall (fun se =>
                 Spec.substring_at text (fst se)
                   (Py.slice text (fst se) (snd se))
                 /\ Z.of_nat (length (Py.slice text (fst se) (snd se)))
                    = (Z.min (snd se) (Z.of_nat (length text)) - fst se)%Z)
         spans.
Proof.
  intros text.
  destruct (chunk_spans_total text 5000 500 ltac:(lia) ltac:(lia)
              (length text) 0%Z ltac:(lia) ltac:(lia))
    as (spans & Hsp & Hch).
  exists spans.
  assert (Hrun : forall fuel,
             length text <= fuel ->
             OptimizedLegalDocumentAnalyzer._chunk_text_fuel fuel text 5000 500
             = Some (map (fun se => Py.slice text (fst se) (snd se)) spans)).
  { intros fuel Hf.
    unfold OptimizedLegalDocumentAnalyzer._chunk_text_fuel.
    rewrite (chunk_loop_spans text 5000 500 fuel 0%Z spans []);
      [reflexivity|].
    eapply chunk_spans_fuel_mono; eauto. }
  split; [apply Hrun; lia|]. split; [|split; [exact Hch|split; [|split]]].
  - intros fuel Hf. rewrite (Hrun fuel Hf).
    symmetry. apply Hrun. lia.
  - intros start Hs.
    destruct (next_start_progress text 5000 500 ltac:(lia) ltac:(lia)
                start Hs) as (_ & H).
    lia.
  - intros i Hi. eapply chunking_covers; [exact Hch|lia].
  - pose proof (chunking_starts _ _ _ _ Hch) as Hst.
    eapply Forall_impl; [|exact Hst].
    intros se (H1 & H2). split.
    + apply slice_substring. lia.
    + apply slice_length; lia.
Qed.

(* ================================================================== *)
(** * First-occurrence deduplication *)

Lemma NoDup_snoc {B : Type} (l : list B) (x : B) :
  NoDup l -> ~ In x l -> NoDup (l ++ [x]).
Proof.
  induction l as [|y l IH]; intros Hnd Hx; simpl.
  - constructor; [intros []|constructor].
  - inversion Hnd as [|? ? Hy Hl]; subst. constructor.
    + intros Hin. apply in_app_or in Hin as [Hin|[->|[]]].
      * contradiction.
      * apply Hx. now left.
    + apply IH; [exact Hl|]. intros Hin. apply Hx. now right.
Qed.

Section KeepFirst.

Variable A : Type.
Variable key : A -> str.

Lemma existsb_key (acc : list A) (x : A) :
  existsb (fun e => Py.eqb (key e) (key x)) acc = true
  <-> In (key x) (map key acc).
Proof.
  rewrite existsb_exists, in_map_iff. split.
  - intros (e & Hin & He). apply py_eqb_eq in He. eauto.
  - intros (e & He & Hin). exists e. split; [exact Hin|].
    now apply py_eqb_eq.
Qed.

(** The invariant of the loop: the kept list grows by a subsequence of the
    candidates, each new element being the first candidate with its key and
    having a key that was not there before. *)
Lemma keep_first_fold (cands : list A) :
  forall acc,
    NoDup (map key acc) ->
    exists news,
      fold_left (Spec.keep_first key) cands acc = acc ++ news
      /\ NoDup (map key (acc ++ news))
      /\ Spec.subseq news cands
      /\ (forall r, In r news ->
            ~ In (key r) (map key acc)
            /\ exists l1 l2,
                 cands = l1 ++ r :: l2 /\ ~ In (key r) (map key l1))
      /\ (forall c, In c cands -> In (key c) (map key (acc ++ news))).
Proof.
  induction cands as [|c cands IH]; intros acc Hnd.
  - exists []. simpl. rewrite app_nil_r.
    split; [reflexivity|]. split; [exact Hnd|].
    split; [apply Spec.subseq_nil|]. split; intros ? [].
  - simpl fold_left. unfold Spec.keep_first at 2.
    destruct (existsb (fun e => Py.eqb (key e) (key c)) acc) eqn:E.
    + apply existsb_key in E.
      destruct (IH acc Hnd) as (news & Hf & Hn & Hs & Hfirst & Hall).
      exists news. split; [exact Hf|]. split; [exact Hn|].
      split; [now constructor|]. split.
      * intros r Hr. destruct (Hfirst r Hr) as (Hacc & l1 & l2 & Hc & Hl1).
        split; [exact Hacc|].
        exists (c :: l1), l2. split; [simpl; now f_equal|].
        simpl. intros [Heq|Hin]; [|contradiction].
        apply Hacc. now rewrite <- Heq.
      * intros x [<-|Hx]; [|now apply Hall].
        rewrite map_app. apply in_or_app. now left.
    + assert (Hc : ~ In (key c) (map key acc)).
      { intros Hin. apply existsb_key in Hin. congruence. }
      assert (Hnd' : NoDup (map key (acc ++ [c]))).
      { rewrite map_app. simpl. now apply NoDup_snoc. }
      destruct (IH (acc ++ [c]) Hnd')
        as (news & Hf & Hn & Hs & Hfirst & Hall).
      exists (c :: news).
      replace (acc ++ c :: news) with ((acc ++ [c]) ++ news)
        by (rewrite <- app_assoc; reflexivity).
      split; [exact Hf|]. split; [exact Hn|].
      split; [now constructor|]. split.
      * intros r [<-|Hr].
        -- split; [exact Hc|]. exists [], cands. split; [reflexivity|].
           intros [].
        -- destruct (Hfirst r Hr) as (Hacc & l1 & l2 & Hcs & Hl1).
           rewrite map_app in Hacc. split.
           ++ intros Hin. apply Hacc. apply in_or_app. now left.
           ++ exists (c :: l1), l2. split; [simpl; now f_equal|].
              simpl. intros [Heq|Hin]; [|contradiction].
              apply Hacc. apply in_or_app. right. simpl. now left.
      * intros x [<-|Hx]; [|now apply Hall].
        rewrite !map_app. apply in_or_app. left.
        apply in_or_app. right. simpl. now left.
Qed.

(** From the empty list the loop computes the first occurrences. *)
Lemma keep_first_spec (cands : list A) :
  Spec.first_occurrences key cands (fold_left (Spec.keep_first key) cands [])
  /\ Spec.subseq (fold_left (Spec.keep_first key) cands []) cands.
Proof.
  destruct (keep_first_fold cands [] (NoDup_nil _))
    as (news & Hf & Hn & Hs & Hfirst & Hall).
  simpl in *. rewrite Hf. split; [|exact Hs].
  constructor.
  - exact Hn.
  - intros r Hr. destruct (Hfirst r Hr) as (_ & H). exact H.
  - intros c Hc. apply Hall in Hc. apply in_map_iff in Hc as (r & Hr & Hin).
    eauto.
Qed.

End KeepFirst.

Lemma not_in_by_existsb (x : str) (l : list str) :
  existsb (Py.eqb x) l = false -> ~ In x l.
Proof.
  intros H Hin.
  assert (existsb (Py.eqb x) l = true).
  { apply existsb_exists. exists x. split; [exact Hin|apply py_eqb_refl]. }
  congruence.
Qed.

(* ================================================================== *)
(** * C6: merging the clauses of the chunks *)

Lemma dedup_is_keep_first (clauses : list str) :
  OptimizedLegalDocumentAnalyzer._deduplicate_clauses clauses
  = fold_left (Spec.keep_first OptimizedLegalDocumentAnalyzer.clause_key)
      clauses [].
Proof. reflexivity. Qed.

(** Clauses with the same first 100 characters have the same key. *)
Lemma raw_prefixes_nodup (l : list str) :
  NoDup (map OptimizedLegalDocumentAnalyzer.clause_key l) ->
  NoDup (map (Py.prefix 100) l).
Proof.
  intros H.
  apply (NoDup_map_inv Py.strip).
  rewrite map_map. exact H.
Qed.

(** The statement about the chunked path, for any text whose chunking
    returns. *)
Lemma deduplicate_clauses_spec (clauses : list str) :
  let out := OptimizedLegalDocumentAnalyzer._deduplicate_clauses clauses in
  Spec.first_occurrences OptimizedLegalDocumentAnalyzer.clause_key clauses out
  /\ Spec.subseq out clauses
  /\ NoDup (map (Py.prefix 100) out).
Proof.
  intros out. subst out. rewrite dedup_is_keep_first.
  destruct (keep_first_spec _ OptimizedLegalDocumentAnalyzer.clause_key
              clauses) as (Hfo & Hs).
  split; [exact Hfo|]. split; [exact Hs|].
  apply raw_prefixes_nodup. now destruct Hfo.
Qed.

(** C6, as the code has it.  For every text of more than 10,000 characters
    the chunked path returns: the text is cut into the chunks of the
    splitter, the clauses of the chunks are concatenated in chunk order and
    the result is the list of the first occurrences under the key
    "first 100 characters, stripped of surrounding blanks".  No two returned
    clauses have the same stripped prefix, hence no two have the same first
    100 characters; every returned clause is the first candidate with its
    stripped prefix; every candidate has a returned clause with its stripped
    prefix; and the returned clauses stand in the order of the candidates. *)
Theorem chunked_segmentation_dedup :
  forall text : str,
    (10000 < Z.of_nat (length text))%Z ->
    exists chunks out,
      OptimizedLegalDocumentAnalyzer._chunk_text text 5000 500 = Some chunks
      /\ OptimizedLegalDocumentAnalyzer._extract_clauses_async text = Some out
      /\ Spec.first_occurrences OptimizedLegalDocumentAnalyzer.clause_key
           (OptimizedLegalDocumentAnalyzer.merged_clauses chunks) out
      /\ Spec.subseq out (OptimizedLegalDocumentAnalyzer.merged_clauses chunks)
      /\ NoDup (map OptimizedLegalDocumentAnalyzer.clause_key out)
      /\ NoDup (map (Py.prefix 100) out).
Proof.
  intros text Hlen.
  destruct (chunk_text_terminates_and_covers_aux text) as (chunks & Hch).
  exists chunks,
    (OptimizedLegalDocumentAnalyzer._deduplicate_clauses
       (OptimizedLegalDocumentAnalyzer.merged_clauses chunks)).
  split; [exact Hch|]. split.
  - unfold OptimizedLegalDocumentAnalyzer._extract_clauses_async.
    apply Z.ltb_lt in Hlen. rewrite Hlen, Hch. reflexivity.
  - destruct (deduplicate_clauses_spec
                (OptimizedLegalDocumentAnalyzer.merged_clauses chunks))
      as (Hfo & Hs & Hnd).
    split; [exact Hfo|]. split; [exact Hs|].
    split; [now destruct Hfo|exact Hnd].
Qed.

Lemma chunked_segmentation_dedup_witness :
  exists chunks out,
    OptimizedLegalDocumentAnalyzer._chunk_text Spec.padded_text 5000 500
    = Some chunks
    /\ OptimizedLegalDocumentAnalyzer._extract_clauses_async Spec.padded_text
       = Some out
    /\ Spec.first_occurrences OptimizedLegalDocumentAnalyzer.clause_key
         (OptimizedLegalDocumentAnalyzer.merged_clauses chunks) out
    /\ Spec.subseq out (OptimizedLegalDocumentAnalyzer.merged_clauses chunks)
    /\ NoDup (map OptimizedLegalDocumentAnalyzer.clause_key out)
    /\ NoDup (map (Py.prefix 100) out).
Proof.
  apply (chunked_segmentation_dedup Spec.padded_text).
  vm_compute. reflexivity.
Defined.

(** The data of the padded text, computed once. *)
Lemma padded_facts :
  (let merged :=
     OptimizedLegalDocumentAnalyzer.merged_clauses Spec.padded_chunks in
   (10000 <? Z.of_nat (length Spec.padded_text))%Z
   && match nth_error merged 1 with
      | Some c => Py.eqb c Spec.clause_b
      | None => false
      end
   && negb (existsb (Py.eqb (Py.prefix 100 Spec.clause_b))
              (map (Py.prefix 100) (firstn 1 merged)))
   && negb (existsb (Py.eqb Spec.clause_b)
              (OptimizedLegalDocumentAnalyzer._deduplicate_clauses merged)))%bool
  = true.
Proof. vm_compute. reflexivity. Qed.

Lemma nth_error_split_at {A : Type} (l : list A) (n : nat) (x : A) :
  nth_error l n = Some x -> l = firstn n l ++ x :: skipn (S n) l.
Proof.
  revert l. induction n as [|n IH]; intros [|y l]; simpl; try discriminate.
  - intros H. injection H as ->. reflexivity.
  - intros H. f_equal. now apply IH.
Qed.

Lemma nth_error_eqb (l : list str) (n : nat) (x : str) :
  match nth_error l n with
  | Some c => Py.eqb c x
  | None => false
  end = true ->
  nth_error l n = Some x.
Proof.
  destruct (nth_error l n) as [c|]; [|discriminate].
  intros H. apply py_eqb_eq in H. now subst.
Qed.

(** C6 as stated fails on the padded text, a text of more than 10,000
    characters: its second candidate clause is the first one with its first
    100 characters (the first candidate has a blank as its hundredth
    character), and the chunked path drops it. *)
Lemma chunked_dedup_drops_first_occurrence :
  (10000 < Z.of_nat (length Spec.padded_text))%Z
  /\ OptimizedLegalDocumentAnalyzer._chunk_text Spec.padded_text 5000 500
     = Some Spec.padded_chunks
  /\ OptimizedLegalDocumentAnalyzer._extract_clauses_async Spec.padded_text
     = Some Spec.padded_clauses
  /\ ~ Spec.raw_first_wins
         (OptimizedLegalDocumentAnalyzer.merged_clauses Spec.padded_chunks)
         Spec.padded_clauses.
Proof.
  pose proof padded_facts as H. cbv zeta in H.
  apply andb_true_iff in H as (H & Hout).
  apply andb_true_iff in H as (H & Hpre).
  apply andb_true_iff in H as (Hlen & Hnth).
  destruct (chunk_text_terminates_and_covers_aux Spec.padded_text)
    as (chunks & Hch).
  assert (Hc : Spec.padded_chunks = chunks).
  { unfold Spec.padded_chunks. rewrite Hch. reflexivity. }
  assert (Hex : OptimizedLegalDocumentAnalyzer._extract_clauses_async
                  Spec.padded_text
                = Some (OptimizedLegalDocumentAnalyzer._deduplicate_clauses
                          (OptimizedLegalDocumentAnalyzer.merged_clauses
                             Spec.padded_chunks))).
  { unfold OptimizedLegalDocumentAnalyzer._extract_clauses_async.
    rewrite Hlen, Hch, Hc. reflexivity. }
  assert (Ho : Spec.padded_clauses
               = OptimizedLegalDocumentAnalyzer._deduplicate_clauses
                   (OptimizedLegalDocumentAnalyzer.merged_clauses
                      Spec.padded_chunks)).
  { unfold Spec.padded_clauses. rewrite Hex. reflexivity. }
  apply Z.ltb_lt in Hlen.
  split; [exact Hlen|].
  split; [rewrite Hc; exact Hch|]. split; [rewrite Ho; exact Hex|].
  rewrite Ho. intros Hclaim.
  pose proof (nth_error_eqb
                (OptimizedLegalDocumentAnalyzer.merged_clauses
                   Spec.padded_chunks) 1 Spec.clause_b Hnth) as E.
  apply nth_error_split_at in E.
  apply negb_true_iff in Hpre, Hout.
  apply (not_in_by_existsb Spec.clause_b _ Hout).
  apply (Hclaim
           (firstn 1 (OptimizedLegalDocumentAnalyzer.merged_clauses
                        Spec.padded_chunks))
           Spec.clause_b
           (skipn 2 (OptimizedLegalDocumentAnalyzer.merged_clauses
                       Spec.padded_chunks)) E).
  exact (not_in_by_existsb _ _ Hpre).
Qed.

(* ================================================================== *)
(** * C5: deduplication of entity records *)

Section EntityDedup.

Import LegalNER.

Variable text : pyobj.

Lemma add_entity_is_keep_first (cands acc : list Entity) :
  fold_left add_entity cands acc
  = fold_left (Spec.keep_first Spec.ner_key) cands acc.
Proof. reflexivity. Qed.

(** The loop over the patterns of a family adds, to what it holds, the
    candidates of the patterns one by one. *)
Lemma pattern_loop_candidates (pats : list pattern) :
  forall acc cacc out,
    foldM (pattern_step text) pats acc = Ok out ->
    exists cands,
      foldM (Spec.collect_step text) pats cacc = Ok (cacc ++ cands)
      /\ out = fold_left add_entity cands acc.
Proof.
  induction pats as [|p pats IH]; intros acc cacc out; simpl.
  - intros H. injection H as <-. exists []. now rewrite app_nil_r.
  - unfold pattern_step at 1, Spec.collect_step at 1.
    destruct (re_finditer p text) as [ms|e]; simpl; [|discriminate].
    intros H.
    destruct (IH _ (cacc ++ map (entity_of text) ms) _ H) as (cands & Hc & Ho).
    exists (map (entity_of text) ms ++ cands). split.
    + rewrite Hc. now rewrite <- app_assoc.
    + rewrite fold_left_app. exact Ho.
Qed.

(** Every candidate is the record of a match of one of the patterns. *)
Lemma candidates_from_matches (pats : list pattern) :
  forall cacc out,
    foldM (Spec.collect_step text) pats cacc = Ok out ->
    forall r, In r out ->
      In r cacc
      \/ exists p ms mt,
           In p pats /\ re_finditer p text = Ok ms /\ In mt ms
           /\ r = entity_of text mt.
Proof.
  induction pats as [|p pats IH]; intros cacc out; simpl.
  - intros H. injection H as <-. auto.
  - unfold Spec.collect_step at 1.
    destruct (re_finditer p text) as [ms|e] eqn:E; simpl; [|discriminate].
    intros H r Hr.
    destruct (IH _ _ H r Hr) as [Hin|(p' & ms' & mt & Hp & Hms & Hmt & Hr')].
    + apply in_app_or in Hin as [Hin|Hin]; [now left|].
      apply in_map_iff in Hin as (mt & <- & Hmt).
      right. exists p, ms, mt. auto.
    + right. exists p', ms', mt. auto.
Qed.

(** The loop over the families appends one entry per family. *)
Lemma family_loop_entries (fams : list (str * list pattern)) :
  forall acc out,
    foldM (family_step text) fams acc = Ok out ->
    forall family records,
      In (family, records) out ->
      In (family, records) acc
      \/ exists pats,
           In (family, pats) fams
           /\ foldM (pattern_step text) pats [] = Ok records.
Proof.
  induction fams as [|[name pats] fams IH]; intros acc out; simpl.
  - intros H. injection H as <-. auto.
  - unfold family_step at 1. simpl.
    destruct (foldM (pattern_step text) pats []) as [found|e] eqn:E;
      simpl; [|discriminate].
    intros H family records Hin.
    destruct (IH _ _ H _ _ Hin) as [Hacc|(pats' & Hp & Hf)].
    + apply in_app_or in Hacc as [Hacc|[Heq|[]]]; [now left|].
      injection Heq as <- <-. right. exists pats. auto.
    + right. exists pats'. auto.
Qed.

End EntityDedup.

(** Iterating over a set visits every distinct element once. *)
Lemma py_set_in (l : list str) (x : str) : In x (py_set l) <-> In x l.
Proof.
  induction l as [|y l IH]; simpl; [tauto|].
  rewrite filter_In, IH, negb_true_iff, py_eqb_neq.
  split.
  - intros [H|[H _]]; auto.
  - intros [H|H]; [now left|].
    destruct (list_eq_dec ascii_dec y x) as [E|E]; [now left|right; auto].
Qed.

Lemma py_set_nodup (l : list str) : NoDup (py_set l).
Proof.
  induction l as [|y l IH]; simpl; constructor.
  - rewrite filter_In, negb_true_iff, py_eqb_neq. intros [_ H]. now apply H.
  - now apply NoDup_filter.
Qed.

Lemma minimal_entities_nodup (self : MinimalLegalDocumentAnalyzer.t)
  (s fam : str) (recs : list MinimalLegalDocumentAnalyzer.Entity) :
  In (fam, recs)
     (MinimalLegalDocumentAnalyzer.entities
        (MinimalLegalDocumentAnalyzer._extract_entities self s)) ->
  NoDup (map MinimalLegalDocumentAnalyzer.e_text recs).
Proof.
  unfold MinimalLegalDocumentAnalyzer._extract_entities.
  cbn [MinimalLegalDocumentAnalyzer.entities].
  intros H. apply in_map_iff in H as (e & Heq & _).
  injection Heq as _ <-.
  rewrite map_map. cbn [MinimalLegalDocumentAnalyzer.e_text].
  rewrite map_id. apply py_set_nodup.
Qed.

(** C5, as the code has it.  [LegalNER.extract_entities]: the records of a
    family are the first occurrences, under equality of the text up to
    case, among the candidate records collected pattern after pattern and
    match after match; so no two records of a family have the same text up
    to case, each record is the first candidate with its text up to case,
    nothing is kept that was not a candidate, and a kept record is the
    record of its own match, with the span and the context of that match.
    The lightweight [_extract_entities] takes the set of the matched texts:
    the records of a family are distinct as strings, and carry no span. *)
Theorem entity_dedup_first_occurrence :
  forall (self : LegalNER.t) (text : pyobj) (family : str)
         (records : list LegalNER.Entity),
    In (family, records) (LegalNER.extract_entities self text) ->
    (exists pats cands,
       In (family, pats) (LegalNER.patterns self)
       /\ Spec.candidates text pats = Ok cands
       /\ Spec.first_occurrences Spec.ner_key cands records
       /\ Spec.subseq records cands
       /\ (forall r, In r records ->
             exists p ms mt,
               In p pats /\ LegalNER.re_finditer p text = Ok ms
               /\ In mt ms /\ r = LegalNER.entity_of text mt))
    /\ (forall (s : str) (fam : str)
               (recs : list MinimalLegalDocumentAnalyzer.Entity),
          In (fam, recs)
             (MinimalLegalDocumentAnalyzer.entities
                (MinimalLegalDocumentAnalyzer._extract_entities
                   MinimalLegalDocumentAnalyzer.init s)) ->
          NoDup (map MinimalLegalDocumentAnalyzer.e_text recs)).
Proof.
  intros self text family records Hin. split.
  - unfold LegalNER.extract_entities, LegalNER.extract_entities_body in Hin.
    destruct (foldM (LegalNER.family_step text) (LegalNER.patterns self) [])
      as [out|e] eqn:E; [|destruct Hin].
    destruct (family_loop_entries text _ _ _ E _ _ Hin)
      as [[]|(pats & Hp & Hf)].
    destruct (pattern_loop_candidates text pats [] [] records Hf)
      as (cands & Hc & Ho).
    simpl in Hc. rewrite add_entity_is_keep_first in Ho.
    destruct (keep_first_spec _ Spec.ner_key cands) as (Hfo & Hs).
    rewrite <- Ho in Hfo, Hs.
    exists pats, cands. split; [exact Hp|]. split; [exact Hc|].
    split; [exact Hfo|]. split; [exact Hs|].
    intros r Hr.
    destruct (Spec.fo_first Hfo r Hr) as (l1 & l2 & Hl & _).
    destruct (candidates_from_matches text pats [] cands Hc r) as [[]|H].
    + rewrite Hl. apply in_or_app. right. now left.
    + exact H.
  - intros s fam recs H.
    now apply (minimal_entities_nodup MinimalLegalDocumentAnalyzer.init s fam).
Qed.

Lemma entity_dedup_first_occurrence_witness :
  (exists pats cands,
     In (s2l "email_addresses", pats) (LegalNER.patterns LegalNER.init)
     /\ Spec.candidates (PyStr Spec.two_emails) pats = Ok cands
     /\ Spec.first_occurrences Spec.ner_key cands
          [LegalNER.mkEntity (s2l "a@b.co") 0 6 (8 # 10) Spec.two_emails]
     /\ Spec.subseq
          [LegalNER.mkEntity (s2l "a@b.co") 0 6 (8 # 10) Spec.two_emails]
          cands
     /\ (forall r,
           In r [LegalNER.mkEntity (s2l "a@b.co") 0 6 (8 # 10)
                   Spec.two_emails] ->
           exists p ms mt,
             In p pats
             /\ LegalNER.re_finditer p (PyStr Spec.two_emails) = Ok ms
             /\ In mt ms
             /\ r = LegalNER.entity_of (PyStr Spec.two_emails) mt))
  /\ (forall (s : str) (fam : str)
             (recs : list MinimalLegalDocumentAnalyzer.Entity),
        In (fam, recs)
           (MinimalLegalDocumentAnalyzer.entities
              (MinimalLegalDocumentAnalyzer._extract_entities
                 MinimalLegalDocumentAnalyzer.init s)) ->
        NoDup (map MinimalLegalDocumentAnalyzer.e_text recs)).
Proof.
  apply (entity_dedup_first_occurrence LegalNER.init (PyStr Spec.two_emails)
           (s2l "email_addresses")
           [LegalNER.mkEntity (s2l "a@b.co") 0 6 (8 # 10) Spec.two_emails]).
  vm_compute. do 5 right. left. reflexivity.
Defined.

(** C5 as stated fails for the lightweight extractor: on a text with two
    addresses that differ only in case it returns both, two records of one
    family whose texts are equal up to case. *)
Lemma minimal_entities_keep_case_variants :
  MinimalLegalDocumentAnalyzer.lookup (s2l "email_addresses")
    (MinimalLegalDocumentAnalyzer.entities
       (MinimalLegalDocumentAnalyzer._extract_entities
          MinimalLegalDocumentAnalyzer.init Spec.two_emails))
  = [ MinimalLegalDocumentAnalyzer.mkEntity (s2l "a@b.co")
        (s2l "email_addresses") (8 # 10);
      MinimalLegalDocumentAnalyzer.mkEntity (s2l "A@B.CO")
        (s2l "email_addresses") (8 # 10) ]
  /\ Py.lower (s2l "a@b.co") = Py.lower (s2l "A@B.CO")
  /\ s2l "a@b.co" <> s2l "A@B.CO".
Proof.
  split; [vm_compute; reflexivity|].
  split; [vm_compute; reflexivity|].
  discriminate.
Qed.

(* ================================================================== *)
(** * C8: failures inside the entity stage *)

Section EntityFailures.

Import LegalNER.

Variable text : pyobj.

(** An exception in one family ends the loop over the families. *)
Lemma family_loop_raises (fams : list (str * list pattern)) :
  forall acc family pats,
    In (family, pats) fams ->
    raised (foldM (pattern_step text) pats []) = true ->
    raised (foldM (family_step text) fams acc) = true.
Proof.
  induction fams as [|[name ps] fams IH]; intros acc family pats Hin Hr;
    [destruct Hin|].
  simpl. unfold family_step at 1. simpl.
  destruct Hin as [Heq|Hin].
  - injection Heq as -> ->.
    destruct (foldM (pattern_step text) pats []); [discriminate|reflexivity].
  - destruct (foldM (pattern_step text) ps []); simpl; [|reflexivity].
    eapply IH; eauto.
Qed.

End EntityFailures.

(** C8, as the code has it.  The entity stage never raises: for every
    extractor object and every argument [analyze_document_entities] returns
    its record, whose four parts are what the four extractors return.  Each
    extractor has a handler of its own, so a failure in one of them leaves
    the parts of the others as they are.  Inside [extract_entities] the
    handler encloses the loop over all families: when the patterns of any
    family raise, the whole mapping comes back empty, including the
    families already extracted.  An argument that is not a string makes
    every extractor fail, and every part is then empty. *)
Theorem entity_stage_failure_handling :
  forall (self : LegalNER.t) (text : pyobj),
    (exists a,
       LegalNER.analyze_document_entities self text = Ok a
       /\ LegalNER.entities a = LegalNER.extract_entities self text
       /\ LegalNER.key_parties a = LegalNER.extract_key_parties text
       /\ LegalNER.obligations a = LegalNER.extract_obligations text
       /\ LegalNER.dates_and_deadlines a
          = LegalNER.extract_dates_and_deadlines text)
    /\ (forall family pats,
          In (family, pats) (LegalNER.patterns self) ->
          raised (foldM (LegalNER.pattern_step text) pats []) = true ->
          LegalNER.extract_entities self text = [])
    /\ (forall ents,
          LegalNER.extract_entities_body self text = Ok ents ->
          LegalNER.extract_entities self text = ents)
    /\ LegalNER.extract_entities LegalNER.init PyNone = []
    /\ LegalNER.extract_key_parties PyNone = []
    /\ LegalNER.extract_obligations PyNone = []
    /\ LegalNER.extract_dates_and_deadlines PyNone = [].
Proof.
  intros self text. split; [|split; [|split; [|split]]].
  - eexists. split; [reflexivity|]. repeat split.
  - intros family pats Hin Hr.
    unfold LegalNER.extract_entities, LegalNER.extract_entities_body.
    pose proof (family_loop_raises text _ [] _ _ Hin Hr) as H.
    destruct (foldM (LegalNER.family_step text) (LegalNER.patterns self) []);
      [discriminate|reflexivity].
  - intros ents H. unfold LegalNER.extract_entities. now rewrite H.
  - vm_compute. reflexivity.
  - repeat split.
Qed.

(** C8 as stated fails: with a table one of whose families has a pattern
    that does not compile, the monetary family finds its amount, and the
    result holds no family at all. *)
Lemma one_bad_family_empties_all :
  In (s2l "monetary_values", Spec.money_patterns)
     (LegalNER.patterns Spec.self_bad)
  /\ foldM (LegalNER.pattern_step Spec.pay_text) Spec.money_patterns []
     = Ok [LegalNER.mkEntity (s2l "$5") 4 6 (8 # 10) (s2l "Pay $5 now")]
  /\ LegalNER.extract_entities Spec.self_bad Spec.pay_text = []
  /\ ~ Spec.family_isolation Spec.self_bad Spec.pay_text.
Proof.
  assert (Hin : In (s2l "monetary_values", Spec.money_patterns)
                   (LegalNER.patterns Spec.self_bad)).
  { vm_compute. right. left. reflexivity. }
  assert (Hfound :
            foldM (LegalNER.pattern_step Spec.pay_text) Spec.money_patterns []
            = Ok [LegalNER.mkEntity (s2l "$5") 4 6 (8 # 10)
                    (s2l "Pay $5 now")]).
  { vm_compute. reflexivity. }
  assert (Hall : LegalNER.extract_entities Spec.self_bad Spec.pay_text = []).
  { vm_compute. reflexivity. }
  split; [exact Hin|]. split; [exact Hfound|]. split; [exact Hall|].
  intros Hclaim. specialize (Hclaim _ _ Hin).
  rewrite Hfound, Hall in Hclaim. destruct Hclaim.
Qed.

(* ================================================================== *)
(** * C3: the empty text *)

(** C3, as the code has it.  On the empty text: the normalizer returns
    zeroed statistics; the full classifier reports "unknown" with
    confidence 0, not confident, with its eight entries; the entity
    extractor returns an empty list for each of its nine families and its
    derived extractors return empty lists; the lightweight extractor
    returns empty lists as well; the lightweight segmenter returns no
    clause, whereas [DocumentParser.extract_clauses], which falls back to
    the whole text as one clause, returns the list that holds the empty
    clause, and so does the orchestrated path. *)
Theorem empty_input_stages :
  MinimalLegalDocumentAnalyzer._preprocess_text []
  = MinimalLegalDocumentAnalyzer.mkPreprocessed []
      (MinimalLegalDocumentAnalyzer.mkStatistics 0 0 0 0%Q 0%Q)
  /\ (let c := DocumentClassifier.classify_document DocumentClassifier.init []
      in
      DocumentClassifier.predicted_type c = s2l "unknown"
      /\ (DocumentClassifier.confidence c == 0)%Q
      /\ DocumentClassifier.is_confident c = false
      /\ length (DocumentClassifier.all_scores c) = 8)
  /\ LegalNER.extract_entities LegalNER.init (PyStr [])
     = map (fun fam => (fst fam, [])) (LegalNER.patterns LegalNER.init)
  /\ length (LegalNER.patterns LegalNER.init) = 9
  /\ LegalNER.extract_key_parties (PyStr []) = []
  /\ LegalNER.extract_obligations (PyStr []) = []
  /\ LegalNER.extract_dates_and_deadlines (PyStr []) = []
  /\ MinimalLegalDocumentAnalyzer._extract_entities
       MinimalLegalDocumentAnalyzer.init []
     = MinimalLegalDocumentAnalyzer.mkEntities
         (map (fun fam => (fst fam, []))
              (MinimalLegalDocumentAnalyzer.entity_patterns
                 MinimalLegalDocumentAnalyzer.init))
         [] [] []
  /\ MinimalLegalDocumentAnalyzer._extract_clauses [] = []
  /\ DocumentParser.extract_clauses [] = [[]]
  /\ OptimizedLegalDocumentAnalyzer._extract_clauses_async [] = Some [[]].
Proof.
  repeat split; vm_compute; reflexivity.
Qed.

(** C3 as stated fails on the empty text: the segmenter of the full
    pipeline returns one clause, the empty one, and the lightweight
    classifier divides by the number of words. *)
Lemma empty_input_breaks_two_stages :
  DocumentParser.extract_clauses [] = [[]]
  /\ DocumentParser.extract_clauses [] <> []
  /\ MinimalLegalDocumentAnalyzer._classify_document
       MinimalLegalDocumentAnalyzer.init []
     = Raise ZeroDivisionError.
Proof.
  split; [reflexivity|]. split; [discriminate|]. vm_compute. reflexivity.
Qed.

(* ================================================================== *)
(** * C4: the fallback of the simplifier *)

(** The rule-based simplifier keeps its score between 0 and 1, and the
    lightweight one between its floor 0.1 and 1. *)
Lemma simplification_score_bounds :
  (forall self clause,
     (0 <= FallbackSimplifier.simplification_score
             (FallbackSimplifier.simplify_clause self clause) <= 1)%Q)
  /\ (forall self clause r,
        MinimalLegalDocumentAnalyzer._simplify_clause self clause = Ok r ->
        ((1 # 10) <= MinimalLegalDocumentAnalyzer.simplification_score r
         <= 1)%Q).
Proof.
  split.
  - intros self clause. unfold FallbackSimplifier.simplify_clause.
    destruct (FallbackSimplifier.simplify_clause_body self clause) as [r|e]
      eqn:E.
    + unfold FallbackSimplifier.simplify_clause_body in E.
      destruct (MinimalLegalDocumentAnalyzer.obj_strip clause) as [o|];
        simpl in E; [|discriminate].
      injection E as <-. simpl.
      unfold FallbackSimplifier._calculate_simplification_score.
      split; [apply Q.le_max_l|].
      apply Q.max_lub; [discriminate|apply Q.le_min_l].
    + simpl. split; discriminate.
  - intros self clause r.
    unfold MinimalLegalDocumentAnalyzer._simplify_clause.
    destruct (MinimalLegalDocumentAnalyzer.obj_strip clause) as [o|];
      simpl; [|discriminate].
    intros H. injection H as <-. simpl.
    split; [apply Q.le_max_l|].
    apply Q.max_lub; [discriminate|].
    destruct (length (Py.split_ws o)) as [|n] eqn:En; [discriminate|].
    set (k := length (Py.split_ws _)).
    apply Qle_shift_div_r.
    + unfold Qnat. change 0%Q with (inject_Z 0). rewrite <- Zlt_Qlt. lia.
    + rewrite Qmult_1_l. unfold Qnat. rewrite <- Zle_Qle. lia.
Qed.

(** C4, as the code has it.  When the [try] block of
    [FallbackSimplifier.simplify_clause] raises, the method returns the
    fallback record: original and simplified clause are both the argument
    as it was passed, unchanged; the summary is the fixed apology; the
    key-point list is empty; the score is 0.0; the method is "fallback".
    The block raises only for an argument that is not a string, and on such
    an argument the lightweight [_simplify_clause], which has no handler,
    raises to its caller. *)
Theorem simplify_clause_fallback :
  forall (self : FallbackSimplifier.t) (clause : pyobj),
    raised (FallbackSimplifier.simplify_clause_body self clause) = true ->
    FallbackSimplifier.simplify_clause self clause
    = FallbackSimplifier.mkSimplified clause clause
        (s2l "Unable to simplify this clause.") [] 0%Q (s2l "fallback")
    /\ (forall s, clause <> PyStr s)
    /\ (forall m,
          MinimalLegalDocumentAnalyzer._simplify_clause m clause
          = Raise AttributeError).
Proof.
  intros self clause H.
  unfold FallbackSimplifier.simplify_clause.
  unfold FallbackSimplifier.simplify_clause_body in *.
  destruct clause as [s|]; simpl in *; [discriminate|].
  split; [reflexivity|]. split; [discriminate|reflexivity].
Qed.

Lemma simplify_clause_fallback_witness :
  FallbackSimplifier.simplify_clause FallbackSimplifier.init PyNone
  = FallbackSimplifier.mkSimplified PyNone PyNone
      (s2l "Unable to simplify this clause.") [] 0%Q (s2l "fallback")
  /\ (forall s, PyNone <> PyStr s)
  /\ (forall m,
        MinimalLegalDocumentAnalyzer._simplify_clause m PyNone
        = Raise AttributeError).
Proof.
  apply (simplify_clause_fallback FallbackSimplifier.init PyNone).
  reflexivity.
Defined.

(** C4 as stated fails: on the argument [None] the fallback record has the
    score 0.0, not the floor 0.1, and its simplified clause is the argument
    itself, which went through no substitution. *)
Lemma fallback_score_is_zero :
  raised (FallbackSimplifier.simplify_clause_body FallbackSimplifier.init
            PyNone) = true
  /\ FallbackSimplifier.simplification_score
       (FallbackSimplifier.simplify_clause FallbackSimplifier.init PyNone)
     = 0%Q
  /\ ~ (FallbackSimplifier.simplification_score
          (FallbackSimplifier.simplify_clause FallbackSimplifier.init PyNone)
        == 1 # 10)%Q
  /\ FallbackSimplifier.simplified_clause
       (FallbackSimplifier.simplify_clause FallbackSimplifier.init PyNone)
     = PyNone.
Proof.
  split; [reflexivity|]. split; [reflexivity|]. split; [|reflexivity].
  simpl. discriminate.
Qed.

(* ================================================================== *)
(** * The matcher on an extended text

    For a pattern without assertions, a match found in a text is still
    found, at the same start, when more text follows. *)

Section Extension.

Variable ic : bool.
Variable R R' : Type.
Variable x : str.

Let cont_ext := @Re.cont_ext R R' x.
Let matcher_ext := @Re.matcher_ext R R' x.

Lemma rep_loop_ext ma ma' (lo : nat) (hi : option nat) k k' :
  matcher_ext ma ma' -> cont_ext k k' ->
  forall n n' cnt p s cs,
    n <= n' ->
    Re.rep_loop ma lo hi k n cnt p s cs <> None ->
    forall cs', Re.rep_loop ma' lo hi k' n' cnt p (s ++ x) cs' <> None.
Proof.
  intros Hma Hk. induction n as [|n IH]; intros n' cnt p s cs Hn H cs'.
  - simpl in H.
    assert (Hstop : (if lo <=? cnt then k' p (s ++ x) cs' else None) <> None).
    { destruct (lo <=? cnt); [|congruence]. now apply (Hk p s cs). }
    destruct n' as [|n']; simpl; [exact Hstop|].
    destruct (Re.below cnt hi); [|exact Hstop].
    destruct (ma' p (s ++ x) cs' _); [discriminate|exact Hstop].
  - destruct n' as [|n']; [lia|]. simpl in H |- *.
    destruct (Re.below cnt hi).
    + match type of H with
      | match ?t with _ => _ end <> None => destruct t eqn:E
      end.
      * match goal with
        | |- match ?t with _ => _ end <> None =>
            assert (Ht : t <> None); [|destruct t; congruence]
        end.
        eapply Hma; [|rewrite E; discriminate].
        intros p1 s1 cs1 H1 cs2.
        destruct (length s1 <? length s) eqn:L; [|congruence].
        apply Nat.ltb_lt in L.
        assert (L' : (length (s1 ++ x) <? length (s ++ x)) = true).
        { apply Nat.ltb_lt. rewrite !length_app. lia. }
        rewrite L'. apply (IH n' (S cnt) p1 s1 cs1); [lia|exact H1].
      * assert (Hstop : (if lo <=? cnt then k' p (s ++ x) cs' else None)
                        <> None).
        { destruct (lo <=? cnt); [|congruence]. now apply (Hk p s cs). }
        match goal with
        | |- match ?t with _ => _ end <> None => destruct t
        end; [discriminate|exact Hstop].
    + destruct (lo <=? cnt); [|congruence]. now apply (Hk p s cs).
Qed.

Lemma m_ext (r : Re.regex) :
  Re.no_assert r = true ->
  matcher_ext (Re.m ic (R := R) r) (Re.m ic (R := R') r).
Proof.
  induction r as [|c|neg rs| |a IHa b IHb|a IHa b IHb|lo hi a IHa|i a IHa];
    intros Hna k k' Hk p s cs H cs'; simpl in *.
  - now apply (Hk p s cs).
  - destruct s as [|d s]; [congruence|]. simpl.
    destruct (Re.chr_match ic c d); [|congruence].
    now apply (Hk (Some d) s cs).
  - destruct s as [|d s]; [congruence|]. simpl.
    destruct (Re.cls_match ic neg rs d); [|congruence].
    now apply (Hk (Some d) s cs).
  - discriminate.
  - apply andb_true_iff in Hna as (Ha & Hb).
    eapply (IHa Ha); [|exact H].
    intros p1 s1 cs1 H1 cs2. eapply (IHb Hb); eauto.
  - apply andb_true_iff in Hna as (Ha & Hb).
    destruct (Re.m ic a p s cs k) eqn:E.
    + assert (Ht : Re.m ic a p (s ++ x) cs' k' <> None).
      { eapply (IHa Ha); [exact Hk|rewrite E; discriminate]. }
      destruct (Re.m ic a p (s ++ x) cs' k'); congruence.
    + destruct (Re.m ic a p (s ++ x) cs' k'); [discriminate|].
      eapply (IHb Hb); eauto.
  - eapply rep_loop_ext; [exact (IHa Hna)|exact Hk| |exact H].
    rewrite length_app. lia.
  - eapply (IHa Hna); [|exact H].
    intros p1 s1 cs1 H1 cs2. eapply Hk. exact H1.
Qed.

End Extension.

Lemma match_here_ext (ic : bool) (r : Re.regex) (x : str) :
  Re.no_assert r = true ->
  forall p s idx,
    Re.match_here ic r p s idx <> None ->
    Re.match_here ic r p (s ++ x) idx <> None.
Proof.
  intros Hna p s idx H. unfold Re.match_here in *.
  assert (Hm : Re.m ic r p (s ++ x) []
                 (fun _ s' cs => Some (s', cs)) <> None).
  { eapply (m_ext ic _ _ x r Hna); [|].
    - intros p1 s1 cs1 _ cs2. discriminate.
    - destruct (Re.m ic r p s [] (fun _ s' cs => Some (s', cs))) eqn:E;
        [rewrite E; discriminate|congruence]. }
  destruct (Re.m ic r p (s ++ x) [] (fun _ s' cs => Some (s', cs)))
    as [[s' cs]|]; [discriminate|congruence].
Qed.

Lemma search_from_here (ic : bool) (r : Re.regex) (p : option ascii)
  (s : str) (idx : nat) :
  Re.match_here ic r p s idx <> None ->
  Re.search_from ic r p s idx <> None.
Proof.
  intros H. destruct s; simpl;
    destruct (Re.match_here ic r p _ idx); try discriminate;
    exfalso; apply H; reflexivity.
Qed.

Lemma search_from_ext (ic : bool) (r : Re.regex) (x : str) :
  Re.no_assert r = true ->
  forall s p idx,
    Re.search_from ic r p s idx <> None ->
    Re.search_from ic r p (s ++ x) idx <> None.
Proof.
  intros Hna. induction s as [|c s IH]; intros p idx H.
  - apply search_from_here. apply match_here_ext; [exact Hna|].
    simpl in H. destruct (Re.match_here ic r p [] idx);
      [discriminate|exact H].
  - destruct (Re.match_here ic r p (c :: s) idx) eqn:E.
    + apply search_from_here. apply match_here_ext; [exact Hna|].
      rewrite E. discriminate.
    + simpl in H. rewrite E in H. simpl app. simpl.
      destruct (Re.match_here ic r p (c :: s ++ x) idx); [discriminate|].
      now apply IH.
Qed.

(** A pattern without assertions that has a match in a text has one in
    every extension of the text. *)
Lemma has_match_ext (ic : bool) (r : Re.regex) (s x : str) :
  Re.no_assert r = true ->
  Spec.has_match ic r s = true ->
  Spec.has_match ic r (s ++ x) = true.
Proof.
  intros Hna H. unfold Spec.has_match, Re.search in *.
  assert (Hs : Re.search_from ic r None (s ++ x) 0 <> None).
  { apply search_from_ext; [exact Hna|].
    destruct (Re.search_from ic r None s 0); [discriminate|congruence]. }
  destruct (Re.search_from ic r None (s ++ x) 0); congruence.
Qed.

(* ================================================================== *)
(** * C9: monotonicity of score and selection *)

Lemma filter_length_mono {A : Type} (f g : A -> bool) (l : list A) :
  (forall a, In a l -> f a = true -> g a = true) ->
  length (filter f l) <= length (filter g l).
Proof.
  induction l as [|a l IH]; intros H; simpl; [lia|].
  assert (IH' : length (filter f l) <= length (filter g l)).
  { apply IH. intros b Hb. apply H. now right. }
  destruct (f a) eqn:Ef.
  - rewrite (H a (or_introl eq_refl) Ef). simpl. lia.
  - destruct (g a); simpl; lia.
Qed.

Lemma filter_length_strict {A : Type} (f g : A -> bool) (l : list A) (x : A) :
  (forall a, In a l -> f a = true -> g a = true) ->
  In x l -> f x = false -> g x = true ->
  length (filter f l) < length (filter g l).
Proof.
  induction l as [|a l IH]; intros H Hx Hf Hg; [destruct Hx|]. simpl.
  assert (Hmono : length (filter f l) <= length (filter g l)).
  { apply filter_length_mono. intros b Hb. apply H. now right. }
  destruct Hx as [->|Hx].
  - rewrite Hf, Hg. simpl. lia.
  - assert (IH' : length (filter f l) < length (filter g l)).
    { apply IH; auto. intros b Hb. apply H. now right. }
    destruct (f a) eqn:Ef.
    + rewrite (H a (or_introl eq_refl) Ef). simpl. lia.
    + destruct (g a); simpl; lia.
Qed.

Section ScoreMonotone.

Import DocumentClassifier.

Variable config : Config.

Hypothesis patterns_plain : forallb Re.no_assert (patterns config) = true.
Hypothesis weight_one : (weight config == 1)%Q.

Lemma occurs_ext (text extra k : str) :
  Spec.occurs text k = true -> Spec.occurs (text ++ extra) k = true.
Proof.
  unfold Spec.occurs. rewrite lower_app. apply contains_app.
Qed.

Lemma occurs_appended (pre k : str) : Spec.occurs (pre ++ k) k = true.
Proof.
  unfold Spec.occurs. rewrite lower_app. apply contains_suffix.
Qed.

Lemma keyword_hits_mono (text extra : str) :
  Spec.keyword_hits text config <= Spec.keyword_hits (text ++ extra) config.
Proof.
  apply filter_length_mono. intros k _. apply occurs_ext.
Qed.

Lemma pattern_hits_mono (text extra : str) :
  Spec.pattern_hits text config <= Spec.pattern_hits (text ++ extra) config.
Proof.
  apply filter_length_mono. intros p Hp.
  rewrite lower_app. apply has_match_ext.
  rewrite forallb_forall in patterns_plain. now apply patterns_plain.
Qed.

Lemma rule_score_hits (text : str) :
  (Spec.rule_score text config
   == Qnat (Spec.keyword_hits text config
            + 2 * Spec.pattern_hits text config))%Q.
Proof.
  unfold Spec.rule_score. rewrite weight_one.
  unfold Qnat. rewrite Nat2Z.inj_add, Nat2Z.inj_mul, inject_Z_plus,
    inject_Z_mult. simpl (Z.of_nat 2). ring.
Qed.

(** Appending text never lowers the score of a rule. *)
Lemma type_score_mono (text extra : str) :
  (Spec.type_score text config <= Spec.type_score (text ++ extra) config)%Q.
Proof.
  rewrite !score_type_rule, !rule_score_hits.
  apply Qnat_le.
  pose proof (keyword_hits_mono text extra).
  pose proof (pattern_hits_mono text extra). lia.
Qed.

(** Appending a keyword of the rule that the text does not yet contain
    raises the score of the rule. *)
Lemma type_score_strict (text extra k : str) :
  In k (keywords config) ->
  Spec.occurs text k = false ->
  (Spec.type_score text config
   < Spec.type_score (text ++ extra ++ k) config)%Q.
Proof.
  intros Hk Hocc.
  rewrite !score_type_rule, !rule_score_hits.
  apply Qnat_lt.
  assert (Hkw : Spec.keyword_hits text config
                < Spec.keyword_hits (text ++ extra ++ k) config).
  { apply (filter_length_strict _ _ _ k); auto.
    - intros a _. apply occurs_ext.
    - rewrite app_assoc. apply occurs_appended. }
  pose proof (pattern_hits_mono text (extra ++ k)). lia.
Qed.

End ScoreMonotone.

(** Two decompositions of a list at its first maximum coincide. *)
Lemma first_max_unique {A : Type} (key : A -> Q) (l1 l2 m1 m2 : list A)
  (x y : A) :
  l1 ++ x :: l2 = m1 ++ y :: m2 ->
  (forall z, In z l1 -> (key z < key x)%Q) ->
  (forall z, In z l2 -> (key z <= key x)%Q) ->
  (forall z, In z m1 -> (key z < key y)%Q) ->
  (forall z, In z m2 -> (key z <= key y)%Q) ->
  l1 = m1 /\ x = y.
Proof.
  revert m1. induction l1 as [|a l1 IH]; intros [|b m1] Heq H1 H2 H3 H4;
    simpl in Heq.
  - injection Heq as Hx _. auto.
  - injection Heq as Hx Hl. exfalso.
    apply (Qlt_not_le _ _ (H3 b (or_introl eq_refl))).
    rewrite <- Hx. apply H2. rewrite Hl.
    apply in_or_app. right. now left.
  - injection Heq as Hx Hl. exfalso.
    apply (Qlt_not_le _ _ (H1 a (or_introl eq_refl))).
    rewrite Hx. apply H4. rewrite <- Hl.
    apply in_or_app. right. now left.
  - injection Heq as Hx Hl.
    destruct (IH m1 Hl) as (E1 & E2); auto.
    + intros z Hz. apply H1. now right.
    + intros z Hz. apply H3. now right.
    + split; [|exact E2]. now f_equal.
Qed.

(** The selection over two score tables of one registry, the second one
    nowhere smaller: the selected score does not decrease, and when the
    rule selected in the second table has the same score in both, it is the
    rule selected in the first one. *)
Lemma first_max_map_mono {E B : Type} (fa fb : E -> B) (key : B -> Q)
  (reg : list E) (ba bb : B) :
  Spec.first_max Qle Qlt key (map fa reg) ba ->
  Spec.first_max Qle Qlt key (map fb reg) bb ->
  (forall e, In e reg -> (key (fa e) <= key (fb e))%Q) ->
  exists eb,
    In eb reg /\ bb = fb eb
    /\ (key ba <= key bb)%Q
    /\ ((key (fa eb) == key (fb eb))%Q -> ba = fa eb).
Proof.
  intros (a1 & a2 & Ha & Ha1 & Ha2) (b1 & b2 & Hb & Hb1 & Hb2) Hle.
  apply map_eq_app in Hb as (r1 & r' & Hreg & Hr1 & Hr').
  apply map_eq_cons in Hr' as (eb & r2 & -> & Heb & Hr2).
  subst b1 b2 bb.
  apply map_eq_app in Ha as (q1 & q' & Hreg' & Hq1 & Hq').
  apply map_eq_cons in Hq' as (ea & q2 & -> & Hea & Hq2).
  subst a1 a2 ba.
  assert (Hin_eb : In eb reg).
  { rewrite Hreg. apply in_or_app. right. now left. }
  assert (Hin_ea : In ea reg).
  { rewrite Hreg'. apply in_or_app. right. now left. }
  exists eb. split; [exact Hin_eb|]. split; [reflexivity|]. split.
  - apply Qle_trans with (key (fb ea)); [now apply Hle|].
    rewrite Hreg in Hin_ea. apply in_app_or in Hin_ea as [H|[H|H]].
    + apply Qlt_le_weak. apply Hb1. now apply in_map.
    + subst. apply Qle_refl.
    + apply Hb2. now apply in_map.
  - intros Heq.
    assert (Hsplit : map fa r1 ++ fa eb :: map fa r2
                     = map fa q1 ++ fa ea :: map fa q2).
    { rewrite <- !(map_cons fa), <- !map_app. now rewrite <- Hreg, <- Hreg'. }
    destruct (first_max_unique key _ _ _ _ _ _ Hsplit) as (_ & H); auto.
    + intros z Hz. apply in_map_iff in Hz as (e & <- & He).
      rewrite Heq. apply Qle_lt_trans with (key (fb e)).
      * apply Hle. rewrite Hreg. apply in_or_app. now left.
      * apply Hb1. now apply in_map.
    + intros z Hz. apply in_map_iff in Hz as (e & <- & He).
      rewrite Heq. apply Qle_trans with (key (fb e)).
      * apply Hle. rewrite Hreg. apply in_or_app. right. now right.
      * apply Hb2. now apply in_map.
Qed.

Section SelectionMonotone.

Import DocumentClassifier.

Lemma all_scores_eq (self : t) (text : str) :
  document_patterns self <> [] ->
  all_scores (classify_document self text)
  = map (fun e => (fst e, score_type (Py.lower text) (snd e)))
        (document_patterns self).
Proof.
  intros Hne. unfold classify_document.
  destruct (py_max _ _ _) eqn:E; [reflexivity|].
  destruct (document_patterns self); [congruence|discriminate].
Qed.

Lemma bool_iff_eq (x y : bool) : (x = true <-> y = true) -> x = y.
Proof. destruct x, y; intros [H1 H2]; auto; symmetry; auto. Qed.

(** When the score of the rules named [ty] does not decrease and the score
    of every other rule stays the same, the reported type stays the same or
    becomes [ty]. *)
Lemma selection_monotone (self : t) (a b : str) (ty : str) :
  document_patterns self <> [] ->
  (forall ty' cfg',
     In (ty', cfg') (document_patterns self) ->
     (ty' = ty -> (Spec.type_score a cfg' <= Spec.type_score b cfg')%Q)
     /\ (ty' <> ty -> (Spec.type_score b cfg' == Spec.type_score a cfg')%Q)) ->
  predicted_type (classify_document self b)
  = predicted_type (classify_document self a)
  \/ predicted_type (classify_document self b) = ty.
Proof.
  intros Hne Hyp.
  destruct (classify_document_contract_gen self a Hne)
    as (_ & (ba & Hfa & _ & Hca & Hpa) & _).
  destruct (classify_document_contract_gen self b Hne)
    as (_ & (bb & Hfb & _ & Hcb & Hpb) & _).
  rewrite all_scores_eq in Hfa, Hfb by exact Hne.
  destruct (first_max_map_mono _ _ (fun e : str * TypeScore => score (snd e))
              _ _ _ Hfa Hfb) as (eb & Hin & Hbb & Hle & Hsame).
  { intros [ty' cfg'] He. simpl.
    destruct (Hyp ty' cfg' He) as (H1 & H2).
    destruct (list_eq_dec ascii_dec ty' ty) as [E|E]; [now apply H1|].
    fold (Spec.type_score a cfg'). fold (Spec.type_score b cfg').
    rewrite (H2 E). apply Qle_refl. }
  destruct eb as [tb cb]. simpl in Hbb, Hsame.
  destruct (list_eq_dec ascii_dec tb ty) as [E|E].
  - destruct (is_confident (classify_document self b)) eqn:Cb.
    + right. rewrite Hpb, Hbb. exact E.
    + left. rewrite Hpb, Hpa.
      destruct (is_confident (classify_document self a)) eqn:Ca;
        [|reflexivity].
      exfalso.
      assert (H2 : (2 <= score (snd bb))%Q).
      { apply Qle_trans with (score (snd ba)); [now apply Hca|exact Hle]. }
      apply Hcb in H2. congruence.
  - left. destruct (Hyp tb cb Hin) as (_ & H2). specialize (H2 E).
    assert (Hba : ba = (tb, score_type (Py.lower a) cb)).
    { apply Hsame. symmetry. exact H2. }
    assert (Hconf : is_confident (classify_document self b)
                    = is_confident (classify_document self a)).
    { apply bool_iff_eq. rewrite Hcb, Hca, Hbb, Hba. simpl.
      fold (Spec.type_score a cb). fold (Spec.type_score b cb).
      rewrite H2. tauto. }
    rewrite Hpb, Hpa, Hconf, Hbb, Hba. reflexivity.
Qed.

Lemma init_rules_plain :
  forallb (fun e => (forallb Re.no_assert (patterns (snd e))
                     && Qeq_bool (weight (snd e)) 1)%bool)
          (document_patterns init) = true.
Proof. vm_compute. reflexivity. Qed.

Lemma init_rule_facts (ty : str) (cfg : Config) :
  In (ty, cfg) (document_patterns init) ->
  forallb Re.no_assert (patterns cfg) = true /\ (weight cfg == 1)%Q.
Proof.
  intros Hin. pose proof init_rules_plain as H.
  rewrite forallb_forall in H. specialize (H _ Hin). simpl in H.
  apply andb_true_iff in H as (H1 & H2).
  split; [exact H1|now apply Qeq_bool_iff].
Qed.

End SelectionMonotone.

(* ================================================================== *)
(** * C2: the type the classifiers select and report *)

(** The first maximum of a table that is computed from the registry, read
    on the registry itself. *)
Lemma first_max_map_split {E B K : Type} (le lt : K -> K -> Prop)
  (key : B -> K) (g : E -> B) (reg : list E) (b : B) :
  Spec.first_max le lt key (map g reg) b ->
  exists l1 e l2,
    reg = l1 ++ e :: l2 /\ b = g e
    /\ (forall y, In y l1 -> lt (key (g y)) (key (g e)))
    /\ (forall y, In y l2 -> le (key (g y)) (key (g e))).
Proof.
  intros (m1 & m2 & Heq & H1 & H2).
  apply map_eq_app in Heq as (l1 & l' & Hreg & Hm1 & Heq).
  apply map_eq_cons in Heq as (e & l2 & Hl' & He & Hm2).
  subst reg l' m1 m2 b.
  exists l1, e, l2. split; [reflexivity|]. split; [reflexivity|]. split.
  - intros y Hy. apply H1. now apply in_map.
  - intros y Hy. apply H2. now apply in_map.
Qed.

(** The full classifier: the entry it selects is the earliest-declared one
    with the largest score, and what it reports is decided by the threshold
    on that score. *)
Lemma classify_document_selects (text : str) :
  exists l1 ty cfg l2,
    DocumentClassifier.document_patterns DocumentClassifier.init
    = l1 ++ (ty, cfg) :: l2
    /\ (forall rule, In rule l1 ->
          (Spec.rule_score text (snd rule) < Spec.rule_score text cfg)%Q)
    /\ (forall rule, In rule l2 ->
          (Spec.rule_score text (snd rule) <= Spec.rule_score text cfg)%Q)
    /\ DocumentClassifier.predicted_type
         (DocumentClassifier.classify_document DocumentClassifier.init text)
       = (if Qle_bool 2 (Spec.rule_score text cfg)
          then ty else s2l "unknown").
Proof.
  destruct (classify_document_contract_gen DocumentClassifier.init text)
    as (_ & (best & Hfm & _ & Hconf & Hpred) & _); [discriminate|].
  rewrite all_scores_eq in Hfm by discriminate.
  apply first_max_map_split in Hfm
    as (l1 & [ty cfg] & l2 & Hreg & Hbest & H1 & H2).
  subst best. cbn [fst snd] in *.
  exists l1, ty, cfg, l2. split; [exact Hreg|]. split; [|split].
  - intros rule Hr.
    rewrite <- (score_type_rule text (snd rule)),
      <- (score_type_rule text cfg).
    exact (H1 rule Hr).
  - intros rule Hr.
    rewrite <- (score_type_rule text (snd rule)),
      <- (score_type_rule text cfg).
    exact (H2 rule Hr).
  - rewrite Hpred.
    replace (DocumentClassifier.is_confident
               (DocumentClassifier.classify_document DocumentClassifier.init
                  text))
      with (Qle_bool 2 (Spec.rule_score text cfg)); [reflexivity|].
    apply bool_iff_eq. rewrite Hconf, Qle_bool_iff.
    rewrite <- (score_type_rule text cfg). reflexivity.
Qed.

(** The lightweight classifier returns on every text with a word, and
    reports the earliest-declared type with the largest score. *)
Lemma minimal_classify_reports (text : str) :
  0 < length (Py.split_ws text) ->
  exists l1 ty pats l2 c,
    MinimalLegalDocumentAnalyzer.document_patterns
      MinimalLegalDocumentAnalyzer.init
    = l1 ++ (ty, pats) :: l2
    /\ (forall e, In e l1 ->
          (MinimalLegalDocumentAnalyzer.score_patterns (Py.lower text)
             (snd e)
           < MinimalLegalDocumentAnalyzer.score_patterns (Py.lower text)
               pats)%Z)
    /\ (forall e, In e l2 ->
          (MinimalLegalDocumentAnalyzer.score_patterns (Py.lower text)
             (snd e)
           <= MinimalLegalDocumentAnalyzer.score_patterns (Py.lower text)
                pats)%Z)
    /\ MinimalLegalDocumentAnalyzer._classify_document
         MinimalLegalDocumentAnalyzer.init text = Ok c
    /\ MinimalLegalDocumentAnalyzer.predicted_type c = ty.
Proof.
  intros Hw. unfold MinimalLegalDocumentAnalyzer._classify_document.
  set (sc := map (fun e => (fst e,
                            MinimalLegalDocumentAnalyzer.score_patterns
                              (Py.lower text) (snd e)))
                 (MinimalLegalDocumentAnalyzer.document_patterns
                    MinimalLegalDocumentAnalyzer.init)).
  assert (Hs : sc <> []) by discriminate.
  destruct (py_max_some _ _ Z.gtb (fun x : str * Z => snd x) sc Hs)
    as [best Hbest].
  rewrite Hbest.
  apply py_max_Z_first_max in Hbest.
  apply first_max_map_split in Hbest
    as (l1 & [ty pats] & l2 & Hreg & Hb & H1 & H2).
  subst best. cbn [fst snd] in *.
  unfold MinimalLegalDocumentAnalyzer.truediv.
  rewrite (Qnat_div_nonzero _ Hw). cbn [bind].
  eexists l1, ty, pats, l2, _.
  split; [exact Hreg|]. split; [exact H1|]. split; [exact H2|].
  split; reflexivity.
Qed.

(** C2, as the code has it.  Full classifier: for every text the registry
    splits at the entry it selects, which is the earliest-declared type
    with the largest score (every earlier type scores strictly less, no
    later type scores more); the type it reports is that type when its
    score reaches the threshold 2.0, and "unknown" otherwise, also when
    several types tie for the largest score.  Lightweight classifier: on
    every text with at least one word it returns, and reports the
    earliest-declared type with the largest score.  The type the full
    classifier reports is decided by the scores alone: two texts on which
    every registered type has the same score get the same report. *)
Theorem tie_break_earliest_declared :
  forall text : str,
    (exists l1 ty cfg l2,
        DocumentClassifier.document_patterns DocumentClassifier.init
        = l1 ++ (ty, cfg) :: l2
        /\ (forall rule, In rule l1 ->
              (Spec.rule_score text (snd rule) < Spec.rule_score text cfg)%Q)
        /\ (forall rule, In rule l2 ->
              (Spec.rule_score text (snd rule)
               <= Spec.rule_score text cfg)%Q)
        /\ DocumentClassifier.predicted_type
             (DocumentClassifier.classify_document DocumentClassifier.init
                text)
           = (if Qle_bool 2 (Spec.rule_score text cfg)
              then ty else s2l "unknown"))
    /\ (0 < length (Py.split_ws text) ->
        exists l1 ty pats l2 c,
          MinimalLegalDocumentAnalyzer.document_patterns
            MinimalLegalDocumentAnalyzer.init
          = l1 ++ (ty, pats) :: l2
          /\ (forall e, In e l1 ->
                (MinimalLegalDocumentAnalyzer.score_patterns
                   (Py.lower text) (snd e)
                 < MinimalLegalDocumentAnalyzer.score_patterns
                     (Py.lower text) pats)%Z)
          /\ (forall e, In e l2 ->
                (MinimalLegalDocumentAnalyzer.score_patterns
                   (Py.lower text) (snd e)
                 <= MinimalLegalDocumentAnalyzer.score_patterns
                      (Py.lower text) pats)%Z)
          /\ MinimalLegalDocumentAnalyzer._classify_document
               MinimalLegalDocumentAnalyzer.init text = Ok c
          /\ MinimalLegalDocumentAnalyzer.predicted_type c = ty)
    /\ (forall text' : str,
          (forall rule,
             In rule (DocumentClassifier.document_patterns
                        DocumentClassifier.init) ->
             (Spec.rule_score text' (snd rule)
              == Spec.rule_score text (snd rule))%Q) ->
          DocumentClassifier.predicted_type
            (DocumentClassifier.classify_document DocumentClassifier.init
               text')
          = DocumentClassifier.predicted_type
              (DocumentClassifier.classify_document DocumentClassifier.init
                 text)).
Proof.
  intros text.
  split; [apply classify_document_selects|].
  split; [apply minimal_classify_reports|].
  intros text' Hsame.
  destruct (classify_document_selects text)
    as (l1 & ty & cfg & l2 & Hreg & H1 & H2 & Hp).
  destruct (classify_document_selects text')
    as (m1 & ty' & cfg' & m2 & Hreg' & H1' & H2' & Hp').
  assert (Hin : forall rule,
            In rule (m1 ++ (ty', cfg') :: m2) ->
            (Spec.rule_score text' (snd rule)
             == Spec.rule_score text (snd rule))%Q).
  { intros rule Hr. apply Hsame. now rewrite Hreg'. }
  assert (Hy : (Spec.rule_score text' cfg' == Spec.rule_score text cfg')%Q).
  { apply (Hin (ty', cfg')). apply in_or_app. right. now left. }
  destruct (first_max_unique (fun rule => Spec.rule_score text (snd rule))
              l1 l2 m1 m2 (ty, cfg) (ty', cfg')) as (_ & E).
  - now rewrite <- Hreg, <- Hreg'.
  - exact H1.
  - exact H2.
  - intros z Hz. cbn [snd].
    rewrite <- Hy, <- (Hin z) by (apply in_or_app; now left).
    now apply H1'.
  - intros z Hz. cbn [snd].
    rewrite <- Hy, <- (Hin z) by (apply in_or_app; right; now right).
    now apply H2'.
  - injection E as <- <-. rewrite Hp, Hp'.
    replace (Qle_bool 2 (Spec.rule_score text' cfg))
      with (Qle_bool 2 (Spec.rule_score text cfg)); [reflexivity|].
    apply bool_iff_eq. rewrite !Qle_bool_iff, Hy. reflexivity.
Qed.

(** C2 as stated fails: in the text "lease sale" one keyword of the lease
    agreements and one of the purchase agreements occur and nothing else, so
    these two types tie for the largest score, which is 1; the classifier
    does not report the earlier-declared of them, "lease_agreement", but
    "unknown". *)
Lemma tie_below_threshold_reports_unknown :
  map (fun rule => (fst rule,
                    Qred (Spec.rule_score (s2l "lease sale") (snd rule))))
      (DocumentClassifier.document_patterns DocumentClassifier.init)
  = [ (s2l "nda", 0%Q); (s2l "employment_contract", 0%Q);
      (s2l "service_agreement", 0%Q); (s2l "lease_agreement", 1%Q);
      (s2l "purchase_agreement", 1%Q); (s2l "partnership_agreement", 0%Q);
      (s2l "license_agreement", 0%Q); (s2l "loan_agreement", 0%Q) ]
  /\ DocumentClassifier.predicted_type
       (DocumentClassifier.classify_document DocumentClassifier.init
          (s2l "lease sale"))
     = s2l "unknown"
  /\ s2l "unknown" <> s2l "lease_agreement".
Proof.
  split; [vm_compute; reflexivity|].
  split; [vm_compute; reflexivity|discriminate].
Qed.

(** C9, as the code has it.  For every registered type: appending text to
    the input never lowers the score of the type; appending a keyword of the
    type that the text does not contain yet, after any further text, raises
    it strictly (a keyword that already occurs counts once, so a further
    occurrence of it adds nothing); and when the appended text leaves the
    score of every other type as it was, the reported type stays what it
    was or becomes this type (keywords are looked up as substrings, so an
    appended keyword of this type may also raise the score of another
    type, and then nothing is promised). *)
Theorem keyword_monotonicity :
  forall (ty : str) (cfg : DocumentClassifier.Config),
    In (ty, cfg)
       (DocumentClassifier.document_patterns DocumentClassifier.init) ->
    (forall text extra,
       (Spec.type_score text cfg <= Spec.type_score (text ++ extra) cfg)%Q)
    /\ (forall text extra k,
          In k (DocumentClassifier.keywords cfg) ->
          Spec.occurs text k = false ->
          (Spec.type_score text cfg
           < Spec.type_score (text ++ extra ++ k) cfg)%Q)
    /\ (forall text added,
          (forall ty' cfg',
             In (ty', cfg')
                (DocumentClassifier.document_patterns
                   DocumentClassifier.init) ->
             ty' <> ty ->
             (Spec.type_score (text ++ added) cfg'
              == Spec.type_score text cfg')%Q) ->
          DocumentClassifier.predicted_type
            (DocumentClassifier.classify_document DocumentClassifier.init
               (text ++ added))
          = DocumentClassifier.predicted_type
              (DocumentClassifier.classify_document DocumentClassifier.init
                 text)
          \/ DocumentClassifier.predicted_type
               (DocumentClassifier.classify_document DocumentClassifier.init
                  (text ++ added))
             = ty).
Proof.
  intros ty cfg Hin.
  destruct (init_rule_facts ty cfg Hin) as (Hplain & Hw).
  split; [|split].
  - intros text extra. now apply type_score_mono.
  - intros text extra k Hk Hocc. now apply type_score_strict.
  - intros text added Hyp. apply selection_monotone; [discriminate|].
    intros ty' cfg' Hin'. split.
    + intros _. destruct (init_rule_facts ty' cfg' Hin') as (Hp' & Hw').
      now apply type_score_mono.
    + intros Hne. exact (Hyp ty' cfg' Hin' Hne).
Qed.

(** The scores of the other types are the same in two texts. *)
Lemma others_unchanged (ty a b : str) :
  forallb (fun e =>
             (Py.eqb (fst e) ty
              || Qeq_bool (Spec.type_score b (snd e))
                          (Spec.type_score a (snd e)))%bool)
          (DocumentClassifier.document_patterns DocumentClassifier.init)
  = true ->
  forall ty' cfg',
    In (ty', cfg')
       (DocumentClassifier.document_patterns DocumentClassifier.init) ->
    ty' <> ty ->
    (Spec.type_score b cfg' == Spec.type_score a cfg')%Q.
Proof.
  intros H ty' cfg' Hin Hne.
  rewrite forallb_forall in H. specialize (H _ Hin). cbn [fst snd] in H.
  apply orb_true_iff in H as [H|H].
  - apply py_eqb_eq in H. contradiction.
  - now apply Qeq_bool_iff.
Qed.

Lemma keyword_monotonicity_witness :
  (Spec.type_score (s2l "purchase sale") Spec.lease_config
   < Spec.type_score (s2l "purchase sale" ++ s2l " " ++ s2l "lease")
       Spec.lease_config)%Q
  /\ (DocumentClassifier.predicted_type
        (DocumentClassifier.classify_document DocumentClassifier.init
           (s2l "purchase sale" ++ s2l " lease"))
      = DocumentClassifier.predicted_type
          (DocumentClassifier.classify_document DocumentClassifier.init
             (s2l "purchase sale"))
      \/ DocumentClassifier.predicted_type
           (DocumentClassifier.classify_document DocumentClassifier.init
              (s2l "purchase sale" ++ s2l " lease"))
         = s2l "lease_agreement").
Proof.
  destruct (keyword_monotonicity (s2l "lease_agreement") Spec.lease_config)
    as (_ & Hstrict & Hsel).
  - vm_compute. do 3 right. left. reflexivity.
  - split.
    + apply Hstrict.
      * vm_compute. left. reflexivity.
      * vm_compute. reflexivity.
    + apply Hsel. apply others_unchanged. vm_compute. reflexivity.
Defined.

(** C9 as stated fails, in both halves.  "lease" is a keyword of the lease
    agreements and of no other type; the text "lease" has the score 1 for
    that type, and the text with a second occurrence of the keyword has the
    score 1 as well, not a larger one.  And "intellectual property" is a
    keyword of the license agreements and of no other type; the text
    "purchase sale buyer lease rent" is reported as a purchase agreement,
    and with that keyword appended it is reported as a lease agreement,
    which is neither the type before nor the type of the keyword: the
    keyword "property" of the lease agreements occurs in the appended
    words, and the lease agreements, now level with the purchase
    agreements, are declared earlier. *)
Lemma own_keywords_not_monotone :
  (In (s2l "lease_agreement", Spec.lease_config)
      (DocumentClassifier.document_patterns DocumentClassifier.init)
   /\ In (s2l "lease") (DocumentClassifier.keywords Spec.lease_config)
   /\ forallb
        (fun e =>
           (Py.eqb (fst e) (s2l "lease_agreement")
            || negb (existsb (Py.eqb (s2l "lease"))
                       (DocumentClassifier.keywords (snd e))))%bool)
        (DocumentClassifier.document_patterns DocumentClassifier.init) = true
   /\ (Spec.type_score (s2l "lease") Spec.lease_config == 1)%Q
   /\ (Spec.type_score (s2l "lease" ++ s2l " " ++ s2l "lease")
         Spec.lease_config == 1)%Q
   /\ ~ (Spec.type_score (s2l "lease") Spec.lease_config
         < Spec.type_score (s2l "lease" ++ s2l " " ++ s2l "lease")
             Spec.lease_config)%Q)
  /\ (In (s2l "license_agreement", Spec.license_config)
         (DocumentClassifier.document_patterns DocumentClassifier.init)
      /\ In (s2l "intellectual property")
            (DocumentClassifier.keywords Spec.license_config)
      /\ forallb
           (fun e =>
              (Py.eqb (fst e) (s2l "license_agreement")
               || negb (existsb (Py.eqb (s2l "intellectual property"))
                          (DocumentClassifier.keywords (snd e))))%bool)
           (DocumentClassifier.document_patterns DocumentClassifier.init)
         = true
      /\ DocumentClassifier.predicted_type
           (DocumentClassifier.classify_document DocumentClassifier.init
              (s2l "purchase sale buyer lease rent"))
         = s2l "purchase_agreement"
      /\ DocumentClassifier.predicted_type
           (DocumentClassifier.classify_document DocumentClassifier.init
              (s2l "purchase sale buyer lease rent" ++ s2l " "
               ++ s2l "intellectual property"))
         = s2l "lease_agreement").
Proof.
  split.
  - split; [vm_compute; do 3 right; left; reflexivity|].
    split; [vm_compute; left; reflexivity|].
    split; [vm_compute; reflexivity|].
    split; [vm_compute; reflexivity|].
    split; [vm_compute; reflexivity|].
    vm_compute. discriminate.
  - split; [vm_compute; do 6 right; left; reflexivity|].
    split; [vm_compute; do 4 right; left; reflexivity|].
    split; [vm_compute; reflexivity|].
    split; vm_compute; reflexivity.
Qed.

(* ================================================================== *)
(** * The chunker beyond the parameters of the pipeline *)

Section ChunkerBounds.

Import OptimizedLegalDocumentAnalyzer.

Variable text : str.
Variable chunk_size overlap : Z.

Let len := Z.of_nat (length text).

(** Every recorded chunk ends where [chunk_end] cuts it. *)
Lemma chunk_spans_ends (fuel : nat) :
  forall start spans,
    chunk_spans fuel text chunk_size overlap start = Some spans ->
    Forall (fun se => snd se = chunk_end text chunk_size (fst se)) spans.
Proof.
  induction fuel as [|fuel IH]; intros start spans; simpl;
    destruct (start <? Z.of_nat (length text))%Z; try discriminate.
  - intros H. injection H as <-. constructor.
  - destruct (chunk_spans fuel text chunk_size overlap
                (next_start text overlap (chunk_end text chunk_size start)))
      as [rest|] eqn:E; [|discriminate].
    intros H. injection H as <-. constructor; [reflexivity|].
    eapply IH. exact E.
  - intros H. injection H as <-. constructor.
Qed.

(** Every iteration but the last moves the start by more than
    [chunk_size - 200 - overlap] characters, which bounds their number. *)
Lemma chunk_spans_count (fuel : nat) :
  (0 <= overlap)%Z -> (overlap + 200 < chunk_size)%Z ->
  forall start spans,
    (0 <= start)%Z ->
    chunk_spans fuel text chunk_size overlap start = Some spans ->
    ((Z.of_nat (length spans) - 1) * (chunk_size - 200 - overlap)
     < Z.max 0 (len - start))%Z.
Proof.
  intros Ho Hw.
  induction fuel as [|fuel IH]; intros start spans Hs; simpl; fold len;
    destruct (start <? len)%Z eqn:T; try discriminate.
  - intros H. injection H as <-. cbn [Datatypes.length]. lia.
  - destruct (chunk_spans fuel text chunk_size overlap
                (next_start text overlap (chunk_end text chunk_size start)))
      as [rest|] eqn:E; [|discriminate].
    intros H. injection H as <-.
    apply Z.ltb_lt in T.
    destruct (next_start_progress text chunk_size overlap Ho Hw start Hs)
      as (Hp & Hq).
    assert (Hn : (0 <= next_start text overlap
                        (chunk_end text chunk_size start))%Z) by lia.
    specialize (IH _ _ Hn E). fold len in IH.
    cbn [Datatypes.length]. rewrite Nat2Z.inj_succ.
    destruct rest as [|r rest]; [cbn [Datatypes.length]; lia|].
    cbn [Datatypes.length] in *. rewrite Nat2Z.inj_succ in *. nia.
  - intros H. injection H as <-. cbn [Datatypes.length]. lia.
Qed.

Lemma norm_range (i : Z) : (0 <= Py.norm len i <= len)%Z.
Proof.
  unfold Py.norm, len. destruct (i <? 0)%Z eqn:E.
  - apply Z.ltb_lt in E. lia.
  - apply Z.ltb_ge in E. lia.
Qed.

(** [rfind] answers [-1] or a position in front of its upper bound, whatever
    the bounds are. *)
Lemma rfind_upper (c : ascii) (i j : Z) :
  Py.rfind text c i j = (-1)%Z
  \/ (0 <= Py.rfind text c i j < Py.norm len j)%Z.
Proof.
  unfold Py.rfind. fold len.
  pose proof (norm_range i) as Hi. pose proof (norm_range j) as Hj.
  pose proof (slice_length_le text i j) as Hl. fold len in Hl.
  destruct (rfind_char_range c (Py.slice text i j) (Py.norm len i)
              ltac:(lia)) as [E|E].
  - now left.
  - right. lia.
Qed.

(** A window that ends inside the text is cut inside the text. *)
Lemma chunk_end_inside (start : Z) :
  (start + chunk_size < len)%Z ->
  (chunk_end text chunk_size start < len)%Z.
Proof.
  intros H. unfold chunk_end. fold len.
  apply Z.ltb_lt in H as H'. rewrite H'.
  destruct (rfind_upper "."%char (start + chunk_size - 200)
              (start + chunk_size)) as [E|E].
  - rewrite E. simpl. exact H.
  - destruct (Py.rfind text "." (start + chunk_size - 200)
                (start + chunk_size) =? -1)%Z; [exact H|].
    assert (Py.norm len (start + chunk_size) < len)%Z; [|lia].
    unfold Py.norm in *. destruct (start + chunk_size <? 0)%Z eqn:N.
    + apply Z.ltb_lt in N. lia.
    + lia.
Qed.

(** With an overlap that is not smaller than the chunk size every start
    stays more than [chunk_size] characters in front of the end of the
    text: no fuel is enough. *)
Lemma chunk_loop_stuck (fuel : nat) :
  (0 <= chunk_size <= overlap)%Z ->
  forall start acc,
    (start + chunk_size < len)%Z ->
    chunk_loop fuel text chunk_size overlap start acc = None.
Proof.
  intros Hc. induction fuel as [|fuel IH]; intros start acc Hs; simpl;
    fold len.
  - assert (E : (start <? len)%Z = true) by (apply Z.ltb_lt; lia).
    now rewrite E.
  - assert (E : (start <? len)%Z = true) by (apply Z.ltb_lt; lia).
    rewrite E. apply IH.
    pose proof (chunk_end_inside start Hs) as He.
    unfold next_start. fold len.
    apply Z.ltb_lt in He as He'. rewrite He'. lia.
Qed.

End ChunkerBounds.

(** X1.  The chunker with any parameters such that the overlap is not
    negative and the chunk size exceeds the overlap by more than the 200
    characters of the look-back window: it finishes on every text, its
    chunks are the slices at a chain of bounds that starts at 0, every chunk
    ends where the cut of its window falls, is not empty and has at most
    [chunk_size] characters, and the number of chunks is bounded through
    the least progress [chunk_size - 200 - overlap] of an iteration. *)
Theorem chunk_text_any_parameters :
  forall (text : str) (chunk_size overlap : Z),
    (0 <= overlap)%Z ->
    (overlap + 200 < chunk_size)%Z ->
    exists spans : list (Z * Z),
      OptimizedLegalDocumentAnalyzer._chunk_text text chunk_size overlap
      = Some (map (fun se => Py.slice text (fst se) (snd se)) spans)
      /\ Spec.chunking text overlap 0 spans
      /\ Forall (fun se =>
                   snd se
                   = OptimizedLegalDocumentAnalyzer.chunk_end text chunk_size
                       (fst se)
                   /\ (0 < Z.of_nat (length (Py.slice text (fst se) (snd se)))
                       <= chunk_size)%Z)
           spans
      /\ ((Z.of_nat (length spans) - 1) * (chunk_size - 200 - overlap)
          < Z.of_nat (length text))%Z.
Proof.
  intros text chunk_size overlap Ho Hw.
  destruct (chunk_spans_total text chunk_size overlap Ho Hw
              (length text) 0%Z ltac:(lia) ltac:(lia))
    as (spans & Hsp & Hch).
  exists spans. split; [|split; [exact Hch|split]].
  - unfold OptimizedLegalDocumentAnalyzer._chunk_text,
      OptimizedLegalDocumentAnalyzer._chunk_text_fuel.
    apply (chunk_loop_spans text chunk_size overlap _ 0%Z spans []).
    exact Hsp.
  - pose proof (chunking_starts _ _ _ _ Hch) as Hst.
    pose proof (chunk_spans_ends text chunk_size overlap _ _ _ Hsp) as Hen.
    rewrite Forall_forall in *. intros se Hin.
    specialize (Hst se Hin). specialize (Hen se Hin). cbv beta in Hst, Hen.
    destruct Hst as (Hst1 & Hst2).
    split; [exact Hen|].
    rewrite slice_length by lia.
    destruct (chunk_end_range text chunk_size overlap Ho Hw (fst se)
                ltac:(lia)) as (Hr & _).
    rewrite <- Hen in Hr. lia.
  - pose proof (chunk_spans_count text chunk_size overlap (length text)
                  Ho Hw 0%Z spans ltac:(lia) Hsp) as Hc.
    lia.
Qed.

Lemma chunk_text_any_parameters_witness :
  exists spans : list (Z * Z),
    OptimizedLegalDocumentAnalyzer._chunk_text
      (repeat "a"%char 290 ++ s2l ". " ++ repeat "b"%char 100) 300 50
    = Some (map (fun se =>
                   Py.slice (repeat "a"%char 290 ++ s2l ". "
                             ++ repeat "b"%char 100) (fst se) (snd se))
                spans)
    /\ Spec.chunking (repeat "a"%char 290 ++ s2l ". " ++ repeat "b"%char 100)
         50 0 spans
    /\ Forall (fun se =>
                 snd se
                 = OptimizedLegalDocumentAnalyzer.chunk_end
                     (repeat "a"%char 290 ++ s2l ". " ++ repeat "b"%char 100)
                     300 (fst se)
                 /\ (0 < Z.of_nat
                           (length
                              (Py.slice (repeat "a"%char 290 ++ s2l ". "
                                         ++ repeat "b"%char 100)
                                        (fst se) (snd se)))
                     <= 300)%Z)
         spans
    /\ ((Z.of_nat (length spans) - 1) * (300 - 200 - 50)
        < Z.of_nat (length (repeat "a"%char 290 ++ s2l ". "
                            ++ repeat "b"%char 100)))%Z.
Proof.
  apply (chunk_text_any_parameters
           (repeat "a"%char 290 ++ s2l ". " ++ repeat "b"%char 100) 300 50);
    lia.
Defined.

(** X2.  The chunker with an overlap that is not smaller than the chunk
    size, on a text longer than one chunk: the loop condition never fails,
    and the loop does not finish, whatever number of iterations it is
    given. *)
Theorem chunk_text_overlap_too_large :
  forall (fuel : nat) (text : str) (chunk_size overlap : Z),
    (0 <= chunk_size <= overlap)%Z ->
    (chunk_size < Z.of_nat (length text))%Z ->
    OptimizedLegalDocumentAnalyzer._chunk_text_fuel fuel text chunk_size
      overlap = None.
Proof.
  intros fuel text chunk_size overlap Hc Hl.
  unfold OptimizedLegalDocumentAnalyzer._chunk_text_fuel.
  apply chunk_loop_stuck; [exact Hc|lia].
Qed.

Lemma chunk_text_overlap_too_large_witness :
  OptimizedLegalDocumentAnalyzer._chunk_text_fuel (100 * 100)
    (s2l "one two three") 5 5 = None.
Proof.
  apply (chunk_text_overlap_too_large (100 * 100) (s2l "one two three") 5 5).
  - lia.
  - simpl. lia.
Defined.

(* ================================================================== *)
(** * Deduplication applied twice, and batches of any size *)

Section KeepFirstFixed.

Variable A : Type.
Variable key : A -> str.

(** Candidates with pairwise different keys, none of which is held already,
    are all appended. *)
Lemma keep_first_fresh (l : list A) :
  forall acc,
    NoDup (map key l) ->
    (forall x, In x l -> ~ In (key x) (map key acc)) ->
    fold_left (Spec.keep_first key) l acc = acc ++ l.
Proof.
  induction l as [|a l IH]; intros acc Hnd Hfresh; simpl.
  - now rewrite app_nil_r.
  - inversion Hnd as [|? ? Ha Hl]; subst.
    unfold Spec.keep_first at 2.
    destruct (existsb (fun e => Py.eqb (key e) (key a)) acc) eqn:E.
    + apply existsb_key in E. exfalso. apply (Hfresh a); [now left|exact E].
    + rewrite IH; [now rewrite <- app_assoc|exact Hl|].
      intros x Hx Hin. rewrite map_app in Hin.
      apply in_app_or in Hin as [Hin|[Heq|[]]].
      * apply (Hfresh x); [now right|exact Hin].
      * apply Ha. rewrite Heq. now apply in_map.
Qed.

End KeepFirstFixed.

(** X3.  [_deduplicate_clauses] is idempotent, and the lists it leaves
    unchanged are exactly those whose clauses have pairwise different keys
    (first 100 characters, stripped). *)
Theorem deduplicate_clauses_idempotent :
  forall clauses : list str,
    OptimizedLegalDocumentAnalyzer._deduplicate_clauses
      (OptimizedLegalDocumentAnalyzer._deduplicate_clauses clauses)
    = OptimizedLegalDocumentAnalyzer._deduplicate_clauses clauses
    /\ (OptimizedLegalDocumentAnalyzer._deduplicate_clauses clauses = clauses
        <-> NoDup (map OptimizedLegalDocumentAnalyzer.clause_key clauses)).
Proof.
  intros clauses.
  assert (Hfix : forall l,
             NoDup (map OptimizedLegalDocumentAnalyzer.clause_key l) ->
             OptimizedLegalDocumentAnalyzer._deduplicate_clauses l = l).
  { intros l Hnd. rewrite dedup_is_keep_first.
    rewrite keep_first_fresh; [reflexivity|exact Hnd|].
    intros x _ []. }
  destruct (deduplicate_clauses_spec clauses) as (Hfo & _ & _).
  split.
  - apply Hfix. now destruct Hfo.
  - split.
    + intros Heq. rewrite <- Heq. now destruct Hfo.
    + apply Hfix.
Qed.

Section BatchesOfAnySize.

Import OptimizedLegalDocumentAnalyzer.

Variable A : Type.
Variable self : t A.

Let f := simplifier_simplify_clause self.



End BatchesOfAnySize.



(* ================================================================== *)
(** * What a match consumes *)

Section Consumption.

Variable ic : bool.
Variable R : Type.

Lemma rep_loop_consumes ma (lo : nat) (hi : option nat) (k : Re.cont R) :
  Props.consumes false ma ->
  forall fuel cnt p s cs x,
    Re.rep_loop ma lo hi k fuel cnt p s cs = Some x ->
    exists p' s' cs' pre,
      s = pre ++ s' /\ (cnt < lo -> pre <> [])
      /\ k p' s' cs' = Some x.
Proof.
  intros Hma.
  assert (Hstop : forall cnt p s cs x,
             (if lo <=? cnt then k p s cs else None) = Some x ->
             exists p' s' cs' pre,
               s = pre ++ s' /\ (cnt < lo -> pre <> [])
               /\ k p' s' cs' = Some x).
  { intros cnt p s cs x H. destruct (lo <=? cnt) eqn:E; [|discriminate].
    apply Nat.leb_le in E. exists p, s, cs, []. split; [reflexivity|].
    split; [lia|exact H]. }
  induction fuel as [|fuel IH]; intros cnt p s cs x H; simpl in H.
  - exact (Hstop _ _ _ _ _ H).
  - destruct (Re.below cnt hi); [|exact (Hstop _ _ _ _ _ H)].
    match type of H with
    | match ?t with _ => _ end = _ => destruct t as [y|] eqn:E
    end; [|exact (Hstop _ _ _ _ _ H)].
    injection H as ->.
    apply Hma in E as (p1 & s1 & cs1 & pre1 & -> & _ & E).
    destruct (length s1 <? length (pre1 ++ s1)) eqn:L; [|discriminate].
    apply Nat.ltb_lt in L. rewrite length_app in L.
    apply IH in E as (p2 & s2 & cs2 & pre2 & -> & _ & E).
    exists p2, s2, cs2, (pre1 ++ pre2). split; [now rewrite app_assoc|].
    split; [|exact E].
    intros _ Hnil. apply app_eq_nil in Hnil as (-> & _). simpl in L. lia.
Qed.

Lemma m_consumes (r : Re.regex) :
  Props.consumes (Props.nonempty r) (Re.m ic (R := R) r).
Proof.
  induction r as [|c|neg rs| |a IHa b IHb|a IHa b IHb|lo hi a IHa|i a IHa];
    intros p s cs k x H; simpl in H.
  - exists p, s, cs, []. simpl. split; [reflexivity|].
    split; [discriminate|exact H].
  - destruct s as [|d s]; [discriminate|].
    destruct (Re.chr_match ic c d); [|discriminate].
    exists (Some d), s, cs, [d]. split; [reflexivity|].
    split; [discriminate|exact H].
  - destruct s as [|d s]; [discriminate|].
    destruct (Re.cls_match ic neg rs d); [|discriminate].
    exists (Some d), s, cs, [d]. split; [reflexivity|].
    split; [discriminate|exact H].
  - destruct (Re.at_boundary p s); [|discriminate].
    exists p, s, cs, []. simpl. split; [reflexivity|].
    split; [discriminate|exact H].
  - apply IHa in H as (p1 & s1 & cs1 & pre1 & -> & Ha & H).
    apply IHb in H as (p2 & s2 & cs2 & pre2 & -> & Hb & H).
    exists p2, s2, cs2, (pre1 ++ pre2). split; [now rewrite app_assoc|].
    split; [|exact H].
    simpl. intros Hne Hnil. apply app_eq_nil in Hnil as (-> & ->).
    apply orb_true_iff in Hne as [Hne|Hne]; [now apply Ha|now apply Hb].
  - simpl. destruct (Re.m ic a p s cs k) as [y|] eqn:E.
    + injection H as ->.
      apply IHa in E as (p1 & s1 & cs1 & pre1 & -> & Ha & E).
      exists p1, s1, cs1, pre1. split; [reflexivity|]. split; [|exact E].
      intros Hne. apply andb_true_iff in Hne as (Hne & _). auto.
    + apply IHb in H as (p1 & s1 & cs1 & pre1 & -> & Hb & H).
      exists p1, s1, cs1, pre1. split; [reflexivity|]. split; [|exact H].
      intros Hne. apply andb_true_iff in Hne as (_ & Hne). auto.
  - apply rep_loop_consumes in H as (p1 & s1 & cs1 & pre1 & -> & Hlo & H).
    + exists p1, s1, cs1, pre1. split; [reflexivity|]. split; [|exact H].
      simpl. intros Hne. apply Nat.ltb_lt in Hne. auto.
    + intros p0 s0 cs0 k0 x0 H0.
      apply IHa in H0 as (p1 & s1 & cs1 & pre1 & -> & _ & H0).
      exists p1, s1, cs1, pre1. split; [reflexivity|].
      split; [discriminate|exact H0].
  - apply IHa in H as (p1 & s1 & cs1 & pre1 & -> & Ha & H).
    eexists p1, s1, _, pre1. split; [reflexivity|]. split; [exact Ha|].
    exact H.
Qed.

End Consumption.

(** A match that begins here is a part of the text at its front. *)
Lemma match_here_span (ic : bool) (r : Re.regex) (p : option ascii) (s : str)
  (idx : nat) (mt : Re.Match) :
  Re.match_here ic r p s idx = Some mt ->
  exists rest,
    s = Re.m_text mt ++ rest
    /\ Re.m_start mt = idx
    /\ Re.m_end mt = idx + length (Re.m_text mt)
    /\ (Props.nonempty r = true -> Re.m_text mt <> []).
Proof.
  unfold Re.match_here.
  destruct (Re.m ic r p s [] (fun _ s' cs => Some (s', cs)))
    as [[s' cs]|] eqn:E; [|discriminate].
  intros H. injection H as <-. simpl.
  apply m_consumes in E as (p1 & s1 & cs1 & pre & -> & Hne & E).
  injection E as -> ->.
  rewrite length_app.
  replace (length pre + length s' - length s') with (length pre) by lia.
  rewrite firstn_app, firstn_all, Nat.sub_diag. simpl. rewrite app_nil_r.
  exists s'. auto.
Qed.

(** The match [search] finds: the text in front of it holds no position at
    which the pattern matches. *)
Lemma search_from_span (ic : bool) (r : Re.regex) (s : str) :
  forall p idx mt,
    Re.search_from ic r p s idx = Some mt ->
    exists gap rest,
      s = gap ++ Re.m_text mt ++ rest
      /\ Re.m_start mt = idx + length gap
      /\ Re.m_end mt = Re.m_start mt + length (Re.m_text mt)
      /\ (Props.nonempty r = true -> Re.m_text mt <> [])
      /\ Props.unmatched ic r p gap (Re.m_text mt ++ rest) idx.
Proof.
  induction s as [|c s IH]; intros p idx mt; simpl.
  - destruct (Re.match_here ic r p [] idx) as [mt'|] eqn:E; [|discriminate].
    intros H. injection H as ->.
    apply match_here_span in E as (rest & Hs & H1 & H2 & H3).
    exists [], rest. simpl. rewrite H1, Nat.add_0_r. auto.
  - destruct (Re.match_here ic r p (c :: s) idx) as [mt'|] eqn:E.
    + intros H. injection H as ->.
      apply match_here_span in E as (rest & Hs & H1 & H2 & H3).
      exists [], rest. simpl. rewrite H1, Nat.add_0_r. auto.
    + intros H. apply IH in H as (gap & rest & -> & H1 & H2 & H3 & H4).
      exists (c :: gap), rest. simpl. split; [reflexivity|].
      split; [lia|]. split; [exact H2|]. split; [exact H3|].
      split; [exact E|exact H4].
Qed.

(** When [search] finds nothing, the pattern matches at no position. *)
Lemma search_from_none (ic : bool) (r : Re.regex) (s : str) :
  forall p idx,
    Re.search_from ic r p s idx = None ->
    Props.unmatched ic r p s [] idx.
Proof.
  induction s as [|c s IH]; intros p idx; simpl; [auto|].
  rewrite app_nil_r.
  destruct (Re.match_here ic r p (c :: s) idx); [discriminate|].
  intros H. split; [reflexivity|]. now apply IH.
Qed.

Lemma advance_skipn (n : nat) :
  forall p s, snd (Re.advance n p s) = skipn n s.
Proof.
  induction n as [|n IH]; intros p [|c s]; simpl; try reflexivity.
  apply IH.
Qed.

Lemma spans_from_weaken (s : str) (pos pos' : nat) (ms : list Re.Match) :
  pos' <= pos -> Props.spans_from s pos ms -> Props.spans_from s pos' ms.
Proof.
  intros Hle H. destruct H; constructor; auto. lia.
Qed.

Lemma slice_nat (s : str) (a b : nat) :
  Py.slice s (Z.of_nat a) (Z.of_nat b)
  = firstn (Nat.min b (length s) - a) (skipn a s).
Proof.
  unfold Py.slice. rewrite !norm_nonneg by lia.
  destruct (Nat.le_gt_cases a (length s)) as [L|L].
  - f_equal; [lia|f_equal; lia].
  - rewrite !skipn_all2 by lia. now rewrite !firstn_nil.
Qed.

(** The matches [finditer] yields lie in the text, in increasing order and
    without overlap, and each holds the text between its bounds. *)
Lemma finditer_from_spans (ic : bool) (r : Re.regex) (fuel : nat) :
  forall p pre s idx,
    idx = length pre ->
    Props.spans_from (pre ++ s) idx (Re.finditer_from fuel ic r p s idx).
Proof.
  induction fuel as [|fuel IH]; intros p pre s idx Hidx; simpl;
    [constructor|].
  destruct (Re.search_from ic r p s idx) as [mt|] eqn:E; [|constructor].
  apply search_from_span in E as (gap & rest & Hs & H1 & H2 & _ & _).
  pose proof (advance_skipn
                (if Re.m_end mt =? Re.m_start mt
                 then S (Re.m_end mt - idx) else Re.m_end mt - idx) p s)
    as Hadv.
  destruct (Re.advance _ p s) as [p' s']. simpl in Hadv.
  set (step := if Re.m_end mt =? Re.m_start mt
               then S (Re.m_end mt - idx) else Re.m_end mt - idx) in *.
  assert (Hstep : Re.m_end mt <= idx + step).
  { unfold step. destruct (Re.m_end mt =? Re.m_start mt); lia. }
  assert (Hlen : length s = length gap + length (Re.m_text mt) + length rest).
  { rewrite Hs, !length_app. lia. }
  constructor.
  - lia.
  - lia.
  - rewrite length_app. lia.
  - rewrite slice_nat, length_app.
    replace (Nat.min (Re.m_end mt) (length pre + length s) - Re.m_start mt)
      with (length (Re.m_text mt)) by lia.
    rewrite H1, Hidx, Hs, skipn_app.
    rewrite skipn_all2 by lia. simpl.
    replace (length pre + length gap - length pre) with (length gap) by lia.
    rewrite skipn_app, skipn_all, Nat.sub_diag. simpl.
    rewrite firstn_app, firstn_all, Nat.sub_diag. simpl.
    now rewrite app_nil_r.
  - destruct (length s <? step) eqn:L; [constructor|].
    apply Nat.ltb_ge in L.
    apply (spans_from_weaken _ (idx + step)); [exact Hstep|].
    rewrite <- (firstn_skipn step s) at 1. rewrite app_assoc, <- Hadv.
    apply IH. rewrite length_app, length_firstn. lia.
Qed.

Lemma finditer_spans (ic : bool) (r : Re.regex) (s : str) :
  Props.spans_from s 0 (Re.finditer ic r s).
Proof.
  apply (finditer_from_spans ic r (S (length s)) None [] s 0). reflexivity.
Qed.

Lemma spans_from_in (s : str) (pos : nat) (ms : list Re.Match) :
  Props.spans_from s pos ms ->
  forall mt, In mt ms ->
    pos <= Re.m_start mt /\ Re.m_start mt <= Re.m_end mt
    /\ Re.m_end mt <= length s
    /\ Re.m_text mt
       = Py.slice s (Z.of_nat (Re.m_start mt)) (Z.of_nat (Re.m_end mt)).
Proof.
  induction 1 as [|pos mt ms H1 H2 H3 H4 H5 IH]; intros x []; [subst; auto|].
  destruct (IH x H) as (I1 & I2 & I3 & I4). repeat split; auto. lia.
Qed.

(* ================================================================== *)
(** * Stripping *)

Lemma rstrip_cons (c : ascii) (s : str) :
  Py.rstrip (c :: s)
  = match Py.rstrip s with
    | [] => if Py.is_space c then [] else [c]
    | r => c :: r
    end.
Proof. reflexivity. Qed.

Lemma rstrip_cons_nonspace (c : ascii) (s : str) :
  Py.is_space c = false -> Py.rstrip (c :: s) = c :: Py.rstrip s.
Proof.
  intros H. rewrite rstrip_cons. destruct (Py.rstrip s); [now rewrite H|].
  reflexivity.
Qed.

Lemma rstrip_idem (s : str) : Py.rstrip (Py.rstrip s) = Py.rstrip s.
Proof.
  induction s as [|c s IH]; [reflexivity|].
  rewrite rstrip_cons. destruct (Py.rstrip s) as [|d r] eqn:E.
  - destruct (Py.is_space c) eqn:Sp; [reflexivity|].
    rewrite rstrip_cons. simpl. now rewrite Sp.
  - rewrite rstrip_cons, IH. reflexivity.
Qed.

Lemma lstrip_starts_clean (s : str) : Props.starts_clean (Py.lstrip s).
Proof.
  induction s as [|c s IH]; simpl; [exact I|].
  destruct (Py.is_space c) eqn:E; [exact IH|exact E].
Qed.

Lemma lstrip_clean (s : str) : Props.starts_clean s -> Py.lstrip s = s.
Proof.
  destruct s as [|c s]; simpl; [reflexivity|]. now intros ->.
Qed.

Lemma rstrip_starts_clean (s : str) :
  Props.starts_clean s -> Props.starts_clean (Py.rstrip s).
Proof.
  destruct s as [|c s]; [auto|].
  intros H. change (Py.is_space c = false) in H.
  rewrite (rstrip_cons_nonspace _ _ H). exact H.
Qed.

Lemma strip_idem (s : str) : Py.strip (Py.strip s) = Py.strip s.
Proof.
  unfold Py.strip.
  rewrite (lstrip_clean (Py.rstrip (Py.lstrip s))).
  - apply rstrip_idem.
  - apply rstrip_starts_clean, lstrip_starts_clean.
Qed.

Lemma lstrip_suffix (s : str) : exists pre, s = pre ++ Py.lstrip s.
Proof.
  induction s as [|c s (pre & IH)]; simpl; [now exists []|].
  destruct (Py.is_space c).
  - exists (c :: pre). simpl. now f_equal.
  - now exists [].
Qed.

Lemma rstrip_prefix (s : str) : exists post, s = Py.rstrip s ++ post.
Proof.
  induction s as [|c s (post & IH)]; [now exists []|].
  rewrite rstrip_cons. destruct (Py.rstrip s) as [|d r].
  - destruct (Py.is_space c).
    + exists (c :: s). reflexivity.
    + exists s. reflexivity.
  - exists post. simpl in *. now f_equal.
Qed.

(** What [strip] returns is a contiguous part of its argument. *)
Lemma strip_part (s : str) : exists pre post, s = pre ++ Py.strip s ++ post.
Proof.
  unfold Py.strip.
  destruct (lstrip_suffix s) as (pre & H1).
  destruct (rstrip_prefix (Py.lstrip s)) as (post & H2).
  exists pre, post. now rewrite <- H2.
Qed.

Lemma strip_length (s : str) : length (Py.strip s) <= length s.
Proof.
  destruct (strip_part s) as (pre & post & H).
  rewrite H at 2. rewrite !length_app. lia.
Qed.

Lemma strip_chars (P : ascii -> Prop) (s : str) :
  Forall P s -> Forall P (Py.strip s).
Proof.
  destruct (strip_part s) as (pre & post & H). intros HP.
  rewrite H in HP. apply Forall_app in HP as (_ & HP).
  now apply Forall_app in HP as (HP & _).
Qed.

Lemma lstrip_blank (s : str) :
  Forall (fun c => Py.is_space c = true) s -> Py.lstrip s = [].
Proof.
  induction 1 as [|c s Hc _ IH]; simpl; [reflexivity|]. now rewrite Hc.
Qed.

Lemma strip_blank (s : str) :
  Forall (fun c => Py.is_space c = true) s -> Py.strip s = [].
Proof. intros H. unfold Py.strip. now rewrite lstrip_blank. Qed.

Lemma rstrip_nil_blank (s : str) :
  Py.rstrip s = [] -> Forall (fun c => Py.is_space c = true) s.
Proof.
  induction s as [|c s IH]; [constructor|].
  rewrite rstrip_cons. destruct (Py.rstrip s) as [|d r]; [|discriminate].
  destruct (Py.is_space c) eqn:E; [|discriminate].
  intros _. constructor; auto.
Qed.

Lemma lstrip_nil_blank (s : str) :
  Py.lstrip s = [] -> Forall (fun c => Py.is_space c = true) s.
Proof.
  induction s as [|c s IH]; simpl; [constructor|].
  destruct (Py.is_space c) eqn:E; [|discriminate].
  intros H. constructor; auto.
Qed.

(** [strip] returns the empty string exactly for a blank string. *)
Lemma strip_nil_iff (s : str) :
  Py.strip s = [] <-> Forall (fun c => Py.is_space c = true) s.
Proof.
  split; [|apply strip_blank].
  unfold Py.strip. intros H. apply rstrip_nil_blank in H.
  destruct (lstrip_suffix s) as (pre & Hs).
  assert (Hpre : Forall (fun c => Py.is_space c = true) pre).
  { clear H. revert pre Hs. induction s as [|c s IH]; intros pre Hs.
    - destruct pre; [constructor|discriminate].
    - simpl in Hs. destruct (Py.is_space c) eqn:E.
      + destruct pre as [|d pre].
        * simpl in Hs. pose proof (f_equal (@length ascii) Hs) as Hl.
          simpl in Hl. destruct (lstrip_suffix s) as (q & Hq).
          rewrite Hq in Hl at 1. rewrite length_app in Hl. lia.
        * injection Hs as <- Hs. constructor; [exact E|]. now apply IH.
      + destruct pre as [|d pre]; [constructor|].
        pose proof (f_equal (@length ascii) Hs) as Hl.
        simpl in Hl. rewrite length_app in Hl. simpl in Hl. lia. }
  rewrite Hs. apply Forall_app. split; assumption.
Qed.

(* ================================================================== *)
(** * Splitting at a separator *)

Lemma cons_first_chars (P : ascii -> Prop) (c : ascii) (l : list str) :
  P c -> Forall (Forall P) l -> Forall (Forall P) (Py.cons_first c l).
Proof.
  intros Hc [|p ps Hp Hps]; simpl; repeat constructor; auto.
Qed.

(** The pieces of [split] hold characters of the text only. *)
Lemma split_aux_chars (P : ascii -> Prop) (sep s : str) :
  Forall P s -> forall skip, Forall (Forall P) (Py.split_aux sep skip s).
Proof.
  induction 1 as [|c s Hc Hs IH]; intros skip; simpl.
  - repeat constructor.
  - destruct skip as [|k]; [|apply IH].
    destruct (Py.startswith sep (c :: s)).
    + constructor; [constructor|apply IH].
    + apply cons_first_chars; [exact Hc|apply IH].
Qed.

Lemma split_aux_nonempty (sep s : str) (skip : nat) :
  Py.split_aux sep skip s <> [].
Proof.
  revert skip. induction s as [|c s IH]; intros skip; simpl; [discriminate|].
  destruct skip as [|k]; [|apply IH].
  destruct (Py.startswith sep (c :: s)); [discriminate|].
  specialize (IH 0). destruct (Py.split_aux sep 0 s); [congruence|].
  discriminate.
Qed.

(* ================================================================== *)
(** * The clause segmenters *)

Lemma stripped_parts_clean (f : str -> bool) (parts : list str) :
  (forall c, f c = true -> c <> []) ->
  Forall Props.clean_clause (filter f (map Py.strip parts)).
Proof.
  intros Hf. apply Forall_forall. intros c Hc.
  apply filter_In in Hc as (Hin & Hfc).
  apply in_map_iff in Hin as (p & <- & _).
  split; [now apply Hf|apply strip_idem].
Qed.

Lemma split_by_first_clean (indicators : list str) (text : str) :
  Forall Props.clean_clause (DocumentParser.split_by_first indicators text).
Proof.
  induction indicators as [|i rest IH]; simpl; [constructor|].
  destruct (1 <? length (Py.split i text)); [|exact IH].
  apply stripped_parts_clean. intros [|c s]; simpl; congruence.
Qed.

Lemma split_by_first_blank (indicators : list str) (text : str) :
  Py.strip text = [] -> DocumentParser.split_by_first indicators text = [].
Proof.
  intros Hb. apply strip_nil_iff in Hb.
  induction indicators as [|i rest IH]; simpl; [reflexivity|].
  destruct (1 <? length (Py.split i text)); [|exact IH].
  pose proof (split_aux_chars _ i text Hb 0) as Hparts.
  fold (Py.split i text) in Hparts.
  induction Hparts as [|p ps Hp _ IHp]; simpl; [reflexivity|].
  rewrite (strip_blank _ Hp). simpl. exact IHp.
Qed.

Lemma filter_split {A : Type} (f : A -> bool) (l : list A) :
  filter f l = []
  -> Forall (fun x => f x = false) l.
Proof.
  induction l as [|x l IH]; simpl; [constructor|].
  destruct (f x) eqn:E; [discriminate|]. intros H. constructor; auto.
Qed.

(** X5.  [DocumentParser.extract_clauses] never returns an empty list.
    Every clause it returns is stripped; either all of them are longer than
    50 characters or none is (the unfiltered list is returned when the
    filter would leave nothing); and an empty clause is returned only for a
    blank text, for which the result is the list of the empty string. *)
Theorem extract_clauses_never_empty :
  forall text : str,
    let out := DocumentParser.extract_clauses text in
    out <> []
    /\ Forall (fun c => Py.strip c = c) out
    /\ (Forall (fun c => 50 < length c) out
        \/ Forall (fun c => length c <= 50) out)
    /\ (In [] out <-> Py.strip text = [])
    /\ (Py.strip text = [] -> out = [[]]).
Proof.
  intros text out. subst out. unfold DocumentParser.extract_clauses.
  pose proof (split_by_first_clean DocumentParser.clause_indicators text)
    as Hclean.
  pose proof (split_by_first_blank DocumentParser.clause_indicators text)
    as Hblank.
  set (found := DocumentParser.split_by_first
                  DocumentParser.clause_indicators text) in *.
  set (clauses := match found with [] => [Py.strip text] | _ => found end).
  assert (Hne : clauses <> []).
  { unfold clauses. destruct found; discriminate. }
  assert (Hst : Forall (fun c => Py.strip c = c) clauses).
  { unfold clauses. destruct found as [|c cs] eqn:E.
    - constructor; [apply strip_idem|constructor].
    - eapply Forall_impl; [|exact Hclean]. now intros a (_ & Ha). }
  assert (Hempty : In [] clauses <-> Py.strip text = []).
  { unfold clauses. destruct found as [|c cs] eqn:E.
    - simpl. split; [now intros [H|[]]|now left].
    - split.
      + intros Hin. rewrite Forall_forall in Hclean.
        destruct (Hclean [] Hin) as (H & _). congruence.
      + intros Hb. specialize (Hblank Hb). discriminate. }
  assert (Hshort : forall c, In c (filter (fun c => 50 <? length c) clauses)
                             -> 50 < length c).
  { intros c Hc. apply filter_In in Hc as (_ & Hc). now apply Nat.ltb_lt. }
  destruct (filter (fun clause => 50 <? length clause) clauses)
    as [|m ms] eqn:F.
  - split; [exact Hne|]. split; [exact Hst|]. split.
    + right. apply filter_split in F.
      eapply Forall_impl; [|exact F]. intros a Ha. now apply Nat.ltb_ge.
    + split; [exact Hempty|].
      intros Hb. unfold clauses. now rewrite (Hblank Hb), Hb.
  - assert (Hm : In m clauses).
    { assert (H : In m (filter (fun c => 50 <? length c) clauses))
        by (rewrite F; now left).
      now apply filter_In in H as (H & _). }
    assert (Hl : 50 < length m) by (apply Hshort; now left).
    assert (Hnb : Py.strip text <> []).
    { intros Hb. unfold clauses in Hm. rewrite (Hblank Hb), Hb in Hm.
      destruct Hm as [<-|[]]. simpl in Hl. lia. }
    split; [discriminate|]. split.
    + apply Forall_forall. intros c Hc. rewrite <- F in Hc.
      apply filter_In in Hc as (Hc & _).
      rewrite Forall_forall in Hst. now apply Hst.
    + split; [left; apply Forall_forall; exact Hshort|].
      split; [|congruence]. split; [|congruence].
      intros Hin. apply Hshort in Hin. simpl in Hin. lia.
Qed.

Lemma section_clauses_clean (sections : list str) :
  Forall Props.clean_clause
    (MinimalLegalDocumentAnalyzer.section_clauses sections).
Proof.
  unfold MinimalLegalDocumentAnalyzer.section_clauses.
  destruct (1 <? length sections); [|constructor].
  apply stripped_parts_clean. intros c Hc Hnil. subst c. discriminate.
Qed.

Lemma Forall_firstn {A : Type} (P : A -> Prop) (n : nat) (l : list A) :
  Forall P l -> Forall P (firstn n l).
Proof.
  intros H. rewrite <- (firstn_skipn n l) in H.
  now apply Forall_app in H as (H & _).
Qed.

Lemma filter_of_map {B C : Type} (g : B -> C) (keep : C -> bool)
  (l : list B) :
  map g (filter (fun x => keep (g x)) l) = filter keep (map g l).
Proof.
  induction l as [|x l IH]; [reflexivity|].
  cbn [map filter]. destruct (keep (g x)); cbn [map]; now rewrite IH.
Qed.

(** X6.  The lightweight [_extract_clauses] returns at most ten clauses,
    and every clause it returns is stripped and not empty; without numbered
    or lettered sections the clauses are the paragraphs of the text: the
    result is the first ten, in their order, of the stripped pieces of
    [text.split('\n\n')] that have more than 50 characters, so every clause
    is the stripped form of such a piece and has more than 50
    characters. *)
Theorem minimal_extract_clauses_bounds :
  forall text : str,
    let out := MinimalLegalDocumentAnalyzer._extract_clauses text in
    let paragraphs := Py.split [nl; nl] text in
    length out <= 10
    /\ Forall (fun c => c <> [] /\ Py.strip c = c) out
    /\ (MinimalLegalDocumentAnalyzer.section_clauses
          (Re.split false MinimalLegalDocumentAnalyzer.re_numbered text) = []
        -> MinimalLegalDocumentAnalyzer.section_clauses
             (Re.split false MinimalLegalDocumentAnalyzer.re_lettered text) = []
        -> out = firstn 10 (filter (fun c => 50 <? length c)
                              (map Py.strip paragraphs))
           /\ Spec.subseq out (map Py.strip paragraphs)
           /\ Forall (fun c =>
                        50 < length c
                        /\ exists p, In p paragraphs /\ c = Py.strip p)
                out).
Proof.
  intros text out paragraphs. subst out paragraphs.
  unfold MinimalLegalDocumentAnalyzer._extract_clauses.
  split; [apply firstn_le_length|]. split.
  - apply Forall_firstn.
    pose proof (section_clauses_clean
                  (Re.split false MinimalLegalDocumentAnalyzer.re_numbered
                     text)) as H1.
    pose proof (section_clauses_clean
                  (Re.split false MinimalLegalDocumentAnalyzer.re_lettered
                     text)) as H2.
    pose proof (proj2 (Forall_app _ _ _) (conj H1 H2)) as H.
    destruct (_ ++ _) as [|c cs]; [|exact H].
    apply Forall_forall. intros c Hc.
    apply in_map_iff in Hc as (p & <- & Hp).
    apply filter_In in Hp as (_ & Hp). apply Nat.ltb_lt in Hp.
    split; [|apply strip_idem].
    intros Hnil. rewrite Hnil in Hp. simpl in Hp. lia.
  - intros -> ->. cbn [app].
    rewrite (filter_of_map Py.strip (fun c => 50 <? length c)).
    split; [reflexivity|]. split.
    + eapply subseq_trans; [apply subseq_firstn|apply filter_subseq].
    + apply Forall_firstn. apply Forall_forall. intros c Hc.
      apply filter_In in Hc as (Hc & Hlen). apply Nat.ltb_lt in Hlen.
      apply in_map_iff in Hc as (p & <- & Hp).
      split; [exact Hlen|]. exists p. split; [exact Hp|reflexivity].
Qed.

(* ================================================================== *)
(** * The spans of the entity records *)

Lemma subseq_in {A : Type} (a b : list A) (x : A) :
  Spec.subseq a b -> In x a -> In x b.
Proof.
  induction 1 as [|y l1 l2 H IH|y l1 l2 H IH]; simpl; intros Hin.
  - exact Hin.
  - right. auto.
  - destruct Hin as [->|Hin]; [now left|right; auto].
Qed.

(** The context of a span: at most 50 characters on either side. *)
Lemma get_context_length (text : str) (start end_ : nat) :
  start <= end_ ->
  length (LegalNER._get_context (PyStr text) start end_)
  <= end_ - start + 100.
Proof.
  intros Hse. unfold LegalNER._get_context.
  eapply Nat.le_trans; [apply strip_length|].
  pose proof (slice_length_le text
                (Z.max 0 (Z.of_nat start - 50))
                (Z.min (Z.of_nat (length text)) (Z.of_nat end_ + 50))) as H.
  rewrite !norm_nonneg in H by lia. lia.
Qed.

(** Every record of a family comes from a match of one of its patterns. *)
Lemma entity_from_match (self : LegalNER.t) (text : str) (family : str)
  (records : list LegalNER.Entity) (e : LegalNER.Entity) :
  In (family, records) (LegalNER.extract_entities self (PyStr text)) ->
  In e records ->
  exists r mt,
    In mt (Re.finditer true r text)
    /\ e = LegalNER.entity_of (PyStr text) mt.
Proof.
  unfold LegalNER.extract_entities, LegalNER.extract_entities_body.
  destruct (foldM (LegalNER.family_step (PyStr text))
              (LegalNER.patterns self) []) as [out|] eqn:E; [|intros []].
  intros Hfam He.
  destruct (family_loop_entries (PyStr text) _ _ _ E _ _ Hfam)
    as [[]|(pats & _ & Hrec)].
  destruct (pattern_loop_candidates (PyStr text) pats [] [] records Hrec)
    as (cands & Hc & Hr).
  simpl in Hc.
  assert (Hin : In e cands).
  { rewrite add_entity_is_keep_first in Hr.
    destruct (keep_first_spec _ Spec.ner_key cands) as (_ & Hs).
    rewrite <- Hr in Hs. eapply subseq_in; eauto. }
  destruct (candidates_from_matches (PyStr text) pats [] cands Hc e Hin)
    as [[]|(p & ms & mt & _ & Hms & Hmt & ->)].
  destruct p as [r|]; simpl in Hms; [|discriminate].
  injection Hms as <-. exists r, mt. auto.
Qed.

(** X7.  Every entity record that [extract_entities] returns for a string
    carries the span of its match: [start <= end <= len(text)], the text of
    the record is [text[start:end]], its context is the stripped slice that
    reaches up to 50 characters to either side, which has at most
    [end - start + 100] characters, and its confidence is 0.8.  This holds
    for any pattern table. *)
Theorem entity_spans_index_the_text :
  forall (self : LegalNER.t) (text : str) (family : str)
         (records : list LegalNER.Entity) (e : LegalNER.Entity),
    In (family, records) (LegalNER.extract_entities self (PyStr text)) ->
    In e records ->
    LegalNER.e_start e <= LegalNER.e_end e <= length text
    /\ LegalNER.e_text e
       = Py.slice text (Z.of_nat (LegalNER.e_start e))
           (Z.of_nat (LegalNER.e_end e))
    /\ LegalNER.e_context e
       = Py.strip
           (Py.slice text
              (Z.max 0 (Z.of_nat (LegalNER.e_start e) - 50))
              (Z.min (Z.of_nat (length text))
                     (Z.of_nat (LegalNER.e_end e) + 50)))
    /\ length (LegalNER.e_context e)
       <= LegalNER.e_end e - LegalNER.e_start e + 100
    /\ LegalNER.e_confidence e = (8 # 10)%Q.
Proof.
  intros self text family records e Hfam He.
  destruct (entity_from_match self text family records e Hfam He)
    as (r & mt & Hmt & ->).
  destruct (spans_from_in _ _ _ (finditer_spans true r text) mt Hmt)
    as (_ & H1 & H2 & H3).
  unfold LegalNER.entity_of. cbn [LegalNER.e_start LegalNER.e_end
    LegalNER.e_text LegalNER.e_context LegalNER.e_confidence].
  split; [lia|]. split; [exact H3|]. split; [reflexivity|].
  split; [now apply get_context_length|reflexivity].
Qed.

Lemma entity_spans_index_the_text_witness :
  let e :=
    LegalNER.mkEntity (s2l "$5") 4 6 (8 # 10)%Q (s2l "Pay $5 now") in
  LegalNER.e_start e <= LegalNER.e_end e <= length (s2l "Pay $5 now")
  /\ LegalNER.e_text e
     = Py.slice (s2l "Pay $5 now") (Z.of_nat (LegalNER.e_start e))
         (Z.of_nat (LegalNER.e_end e))
  /\ LegalNER.e_context e
     = Py.strip
         (Py.slice (s2l "Pay $5 now")
            (Z.max 0 (Z.of_nat (LegalNER.e_start e) - 50))
            (Z.min (Z.of_nat (length (s2l "Pay $5 now")))
                   (Z.of_nat (LegalNER.e_end e) + 50)))
  /\ length (LegalNER.e_context e)
     <= LegalNER.e_end e - LegalNER.e_start e + 100
  /\ LegalNER.e_confidence e = (8 # 10)%Q.
Proof.
  intros e.
  apply (entity_spans_index_the_text LegalNER.init (s2l "Pay $5 now")
           (s2l "monetary_values") [e] e).
  - vm_compute. right. left. reflexivity.
  - left. reflexivity.
Defined.

(* ================================================================== *)
(** * The text between the matches *)

Section Gaps.

Variable ic : bool.
Variable r : Re.regex.
Variable q : ascii -> bool.

(** The pattern matches wherever a character of [q] stands, and it matches
    no empty string. *)
Hypothesis matches_at_q :
  forall p c s idx, q c = true -> Re.match_here ic r p (c :: s) idx <> None.
Hypothesis r_nonempty : Props.nonempty r = true.

Lemma unmatched_chars (gap rest : str) :
  forall p idx,
    Props.unmatched ic r p gap rest idx ->
    Forall (fun c => q c = false) gap.
Proof.
  induction gap as [|c gap IH]; intros p idx; simpl; [constructor|].
  intros (H1 & H2). constructor; [|eapply IH; exact H2].
  destruct (q c) eqn:E; [|reflexivity].
  exfalso. apply (matches_at_q p c (gap ++ rest) idx E). exact H1.
Qed.

(** One step of [finditer]: the text in front of the match holds no
    character of [q], and the scan goes on behind the match. *)
Lemma finditer_from_step (fuel : nat) (p : option ascii) (s : str)
  (idx : nat) (mt : Re.Match) :
  Re.search_from ic r p s idx = Some mt ->
  exists gap rest p',
    s = gap ++ Re.m_text mt ++ rest
    /\ Re.m_text mt <> []
    /\ Re.m_start mt = idx + length gap
    /\ Re.m_end mt = idx + length gap + length (Re.m_text mt)
    /\ Forall (fun c => q c = false) gap
    /\ Re.finditer_from (S fuel) ic r p s idx
       = mt :: Re.finditer_from fuel ic r p' rest (Re.m_end mt).
Proof.
  intros E. simpl. rewrite E.
  apply search_from_span in E as (gap & rest & Hs & H1 & H2 & H3 & H4).
  specialize (H3 r_nonempty).
  assert (Hl : 0 < length (Re.m_text mt)).
  { destruct (Re.m_text mt); [congruence|simpl; lia]. }
  assert (Hneq : (Re.m_end mt =? Re.m_start mt) = false).
  { apply Nat.eqb_neq. lia. }
  rewrite Hneq.
  pose proof (advance_skipn (Re.m_end mt - idx) p s) as Hadv.
  destruct (Re.advance (Re.m_end mt - idx) p s) as [p' s'].
  simpl in Hadv.
  assert (Hs' : s' = rest).
  { rewrite Hadv, Hs.
    replace (Re.m_end mt - idx)
      with (length gap + length (Re.m_text mt)) by lia.
    rewrite app_assoc, skipn_app, length_app, Nat.sub_diag.
    rewrite skipn_all2 by (rewrite length_app; lia). reflexivity. }
  assert (Hlen : (length s <? Re.m_end mt - idx) = false).
  { apply Nat.ltb_ge. rewrite Hs, !length_app. lia. }
  rewrite Hlen. exists gap, rest, p'.
  split; [exact Hs|]. split; [exact H3|]. split; [exact H1|].
  split; [lia|]. split; [eapply unmatched_chars; exact H4|].
  rewrite Hs'. repeat f_equal. lia.
Qed.

Lemma skipn_length_app {A : Type} (pre s : list A) (n : nat) :
  n = length pre -> skipn n (pre ++ s) = s.
Proof.
  intros ->. rewrite skipn_app, skipn_all, Nat.sub_diag. reflexivity.
Qed.

(** The pieces [re.split] returns hold characters of the text that are not
    in [q]. *)
Lemma pieces_chars (P : ascii -> Prop) (fuel : nat) :
  forall p pre s idx,
    idx = length pre ->
    length s < fuel ->
    Forall P s ->
    Forall (Forall (fun c => P c /\ q c = false))
      (Re.pieces (pre ++ s) idx (Re.finditer_from fuel ic r p s idx)).
Proof.
  induction fuel as [|fuel IH]; intros p pre s idx Hidx Hlen HP; [lia|].
  destruct (Re.search_from ic r p s idx) as [mt|] eqn:E.
  - destruct (finditer_from_step fuel p s idx mt E)
      as (gap & rest & p' & Hs & Hne & H1 & H2 & Hgap & Hit).
    rewrite Hit. simpl.
    rewrite (skipn_length_app pre s idx Hidx).
    replace (Re.m_start mt - idx) with (length gap) by lia.
    assert (Hl : 0 < length (Re.m_text mt)).
    { destruct (Re.m_text mt); [congruence|simpl; lia]. }
    rewrite Hs in HP. apply Forall_app in HP as (HPg & HP).
    apply Forall_app in HP as (_ & HPr).
    constructor.
    + rewrite Hs, firstn_app, firstn_all, Nat.sub_diag. simpl.
      rewrite app_nil_r. rewrite Forall_forall in *. auto.
    + rewrite Hs.
      replace (pre ++ gap ++ Re.m_text mt ++ rest)
        with ((pre ++ gap ++ Re.m_text mt) ++ rest)
        by (rewrite <- !app_assoc; reflexivity).
      apply IH; [rewrite !length_app; lia| |exact HPr].
      rewrite Hs, !length_app in Hlen. lia.
  - simpl. rewrite E. simpl.
    rewrite (skipn_length_app pre s idx Hidx).
    constructor; [|constructor].
    apply search_from_none in E. apply unmatched_chars in E.
    rewrite Forall_forall in *. auto.
Qed.

(** The text [re.sub] returns holds characters of the text that are not in
    [q], and characters of the replacements. *)
Lemma stitch_chars (P Q : ascii -> Prop) (f : Re.Match -> str) (fuel : nat) :
  (forall c, P c -> q c = false -> Q c) ->
  (forall mt, Forall Q (f mt)) ->
  forall p pre s idx,
    idx = length pre ->
    length s < fuel ->
    Forall P s ->
    Forall Q (Re.stitch f (pre ++ s) idx (Re.finditer_from fuel ic r p s idx)).
Proof.
  intros HPQ Hf.
  induction fuel as [|fuel IH]; intros p pre s idx Hidx Hlen HP; [lia|].
  destruct (Re.search_from ic r p s idx) as [mt|] eqn:E.
  - destruct (finditer_from_step fuel p s idx mt E)
      as (gap & rest & p' & Hs & Hne & H1 & H2 & Hgap & Hit).
    rewrite Hit. simpl.
    rewrite (skipn_length_app pre s idx Hidx).
    replace (Re.m_start mt - idx) with (length gap) by lia.
    assert (Hl : 0 < length (Re.m_text mt)).
    { destruct (Re.m_text mt); [congruence|simpl; lia]. }
    rewrite Hs in HP. apply Forall_app in HP as (HPg & HP).
    apply Forall_app in HP as (_ & HPr).
    apply Forall_app. split; [|apply Forall_app; split; [apply Hf|]].
    + rewrite Hs, firstn_app, firstn_all, Nat.sub_diag. simpl.
      rewrite app_nil_r. rewrite Forall_forall in *. auto.
    + rewrite Hs.
      replace (pre ++ gap ++ Re.m_text mt ++ rest)
        with ((pre ++ gap ++ Re.m_text mt) ++ rest)
        by (rewrite <- !app_assoc; reflexivity).
      apply IH; [rewrite !length_app; lia| |exact HPr].
      rewrite Hs, !length_app in Hlen. lia.
  - simpl. rewrite E. simpl.
    rewrite (skipn_length_app pre s idx Hidx).
    apply search_from_none in E. apply unmatched_chars in E.
    rewrite Forall_forall in *. auto.
Qed.

Lemma split_chars (P : ascii -> Prop) (s : str) :
  Forall P s ->
  Forall (Forall (fun c => P c /\ q c = false)) (Re.split ic r s).
Proof.
  intros HP. unfold Re.split, Re.finditer.
  apply (pieces_chars P (S (length s)) None [] s 0); auto.
Qed.

Lemma sub_chars (P Q : ascii -> Prop) (t : list Re.ritem) (s : str) :
  (forall c, P c -> q c = false -> Q c) ->
  (forall mt, Forall Q (Re.expand t mt)) ->
  Forall P s ->
  Forall Q (Re.sub ic r t s).
Proof.
  intros HPQ Hf HP. unfold Re.sub, Re.finditer.
  apply (stitch_chars P Q _ (S (length s)) HPQ Hf None [] s 0); auto.
Qed.

End Gaps.

(** A class, and a run of characters of a class, match wherever a character
    of the class stands. *)
Lemma rep_loop_total {R : Type} ma (lo : nat) (hi : option nat)
  (k : Re.cont R) :
  (forall p s cs, k p s cs <> None) ->
  forall fuel cnt p s cs,
    lo <= cnt ->
    Re.rep_loop ma lo hi k fuel cnt p s cs <> None.
Proof.
  intros Hk fuel cnt p s cs Hlo.
  apply Nat.leb_le in Hlo.
  destruct fuel as [|fuel]; simpl; rewrite Hlo; [apply Hk|].
  destruct (Re.below cnt hi); [|apply Hk].
  match goal with
  | |- match ?t with _ => _ end <> None => destruct t
  end; [discriminate|apply Hk].
Qed.

Lemma match_here_cls (ic neg : bool) (rs : list (ascii * ascii)) :
  forall p c s idx,
    Re.cls_match ic neg rs c = true ->
    Re.match_here ic (Re.Cls neg rs) p (c :: s) idx <> None.
Proof.
  intros p c s idx H. unfold Re.match_here. simpl. rewrite H. discriminate.
Qed.

Lemma match_here_plus_cls (ic neg : bool) (rs : list (ascii * ascii)) :
  forall p c s idx,
    Re.cls_match ic neg rs c = true ->
    Re.match_here ic (Re.plus (Re.Cls neg rs)) p (c :: s) idx <> None.
Proof.
  intros p c s idx H. unfold Re.match_here, Re.plus.
  match goal with
  | |- match ?t with _ => _ end <> None =>
      assert (Ht : t <> None); [|destruct t as [[? ?]|]; congruence]
  end.
  cbn [Re.m Re.rep_loop Datatypes.length Re.below Nat.leb].
  rewrite H.
  assert (L : (length s <? S (length s)) = true) by (apply Nat.ltb_lt; lia).
  rewrite L.
  match goal with
  | |- match ?t with _ => _ end <> None =>
      assert (Ht : t <> None); [|destruct t; congruence]
  end.
  apply rep_loop_total; [discriminate|lia].
Qed.

(* ================================================================== *)
(** * Character classes, checked on every character *)

Lemma ascii_forall (f : ascii -> bool) :
  forallb f Props.all_ascii = true -> forall c, f c = true.
Proof.
  intros H c. rewrite forallb_forall in H. apply H.
  unfold Props.all_ascii. rewrite <- (ascii_nat_embedding c).
  apply in_map. apply in_seq.
  pose proof (nat_ascii_bounded c). lia.
Qed.

Lemma cls_space (c : ascii) :
  Re.cls_match false false Re.r_space c = Py.is_space c.
Proof.
  apply eqb_prop. revert c. apply ascii_forall. vm_compute. reflexivity.
Qed.

Lemma cls_sentence_mark (c : ascii) :
  Re.cls_match false false [Re.one "."; Re.one "!"; Re.one "?"] c
  = Props.sentence_mark c.
Proof.
  apply eqb_prop. revert c. apply ascii_forall. vm_compute. reflexivity.
Qed.

(** A character that the allow-list pattern lets through and that is no
    blank other than the space is an allowed character. *)
Lemma allowed_chars (c : ascii) :
  (Py.is_space c = false \/ c = " "%char) ->
  match MinimalLegalDocumentAnalyzer.re_disallowed with
  | Re.Cls neg rs => Re.cls_match false neg rs c = false
  | _ => False
  end ->
  Props.allowed c = true.
Proof.
  intros H1 H2.
  assert (H : (negb (negb (Py.is_space c) || Ascii.eqb c " ")
               || negb (negb
                    match MinimalLegalDocumentAnalyzer.re_disallowed with
                    | Re.Cls neg rs => Re.cls_match false neg rs c
                    | _ => true
                    end)
               || Props.allowed c)%bool = true).
  { revert c H1 H2. intros c _ _. revert c.
    apply ascii_forall. vm_compute. reflexivity. }
  apply orb_true_iff in H as [H|H]; [|exact H].
  apply orb_true_iff in H as [H|H].
  - apply negb_true_iff, orb_false_iff in H as (Ha & Hb).
    apply negb_false_iff in Ha.
    destruct H1 as [H1| ->]; [congruence|]. discriminate.
  - exfalso. revert H2 H. unfold MinimalLegalDocumentAnalyzer.re_disallowed.
    intros ->. discriminate.
Qed.

Lemma allowed_not_newline (c : ascii) : Props.allowed c = true -> c <> nl.
Proof. intros H ->. vm_compute in H. discriminate. Qed.

Lemma pieces_parts (s : str) (ms : list Re.Match) :
  forall pos, Forall (fun pc => Props.part_of pc s) (Re.pieces s pos ms).
Proof.
  assert (Hpart : forall a b, Props.part_of (firstn a (skipn b s)) s).
  { intros a b. exists (firstn b s), (skipn a (skipn b s)).
    now rewrite !firstn_skipn. }
  induction ms as [|mt ms IH]; intros pos; simpl.
  - constructor; [|constructor]. exists (firstn pos s), [].
    now rewrite app_nil_r, firstn_skipn.
  - constructor; [apply Hpart|apply IH].
Qed.

Lemma part_of_trans (a b c : str) :
  Props.part_of a b -> Props.part_of b c -> Props.part_of a c.
Proof.
  intros (p1 & q1 & ->) (p2 & q2 & ->).
  exists (p2 ++ p1), (q1 ++ q2). now rewrite <- !app_assoc.
Qed.

(* ================================================================== *)
(** * Sentences *)

(** X8.  [extract_sentences]: every sentence returned is a contiguous part
    of the text, is stripped, has more than ten characters and holds none
    of the characters '.', '!' and '?'. *)
Theorem extract_sentences_clean :
  forall text : str,
    Forall (fun sentence =>
              Props.part_of sentence text
              /\ Py.strip sentence = sentence
              /\ 10 < length sentence
              /\ Forall (fun c => Props.sentence_mark c = false) sentence)
      (TextPreprocessor.extract_sentences text).
Proof.
  intros text. unfold TextPreprocessor.extract_sentences.
  apply Forall_forall. intros sentence Hin.
  apply filter_In in Hin as (Hin & Hlen). apply Nat.ltb_lt in Hlen.
  apply in_map_iff in Hin as (piece & <- & Hin).
  split; [|split; [apply strip_idem|split; [exact Hlen|]]].
  - apply part_of_trans with piece; [apply strip_part|].
    pose proof (pieces_parts text
                  (Re.finditer false
                     MinimalLegalDocumentAnalyzer.re_sentence_end text) 0)
      as H.
    rewrite Forall_forall in H. now apply H.
  - apply strip_chars.
    pose proof (split_chars false
                  MinimalLegalDocumentAnalyzer.re_sentence_end
                  Props.sentence_mark) as H.
    specialize (H ltac:(intros p c s idx Hc;
                        apply match_here_plus_cls;
                        now rewrite cls_sentence_mark) eq_refl
                  (fun _ => True) text).
    assert (Htrue : Forall (fun _ : ascii => True) text)
      by (apply Forall_forall; intros; exact I).
    specialize (H Htrue). rewrite Forall_forall in H.
    specialize (H piece Hin).
    eapply Forall_impl; [|exact H]. now intros c (_ & Hc).
Qed.

(* ================================================================== *)
(** * Whitespace after normalisation *)

(** [re.sub(r'\s+', ' ', s)] leaves no blank character but the space. *)
Lemma collapse_blanks_chars (s : str) :
  Forall (fun c => Py.is_space c = false \/ c = " "%char)
    (Re.sub false (Re.plus Re.ws) [Re.RLit (s2l " ")] s).
Proof.
  apply (sub_chars false (Re.plus Re.ws)
           (Re.cls_match false false Re.r_space)
           ltac:(intros p c s0 idx Hc; now apply match_here_plus_cls)
           eq_refl (fun _ => True)).
  - intros c _ Hc. left. now rewrite <- cls_space.
  - intros mt. simpl. constructor; [now right|constructor].
  - apply Forall_forall. intros; exact I.
Qed.

Lemma pieces_nonempty (s : str) (ms : list Re.Match) (pos : nat) :
  Re.pieces s pos ms <> [].
Proof. destruct ms; discriminate. Qed.

(** The cleaned text holds allowed characters only and is stripped. *)
Lemma preprocess_text_cleaned_aux (text : str) :
  let c :=
    MinimalLegalDocumentAnalyzer.cleaned_text
      (MinimalLegalDocumentAnalyzer._preprocess_text text) in
  Forall (fun ch => Props.allowed ch = true) c /\ Py.strip c = c.
Proof.
  intros c.
  assert (Hc : c = Py.strip
                     (Re.sub false MinimalLegalDocumentAnalyzer.re_disallowed
                        []
                        (Re.sub false (Re.plus Re.ws) [Re.RLit (s2l " ")]
                           text))) by reflexivity.
  split.
  - rewrite Hc. apply strip_chars.
    unfold MinimalLegalDocumentAnalyzer.re_disallowed.
    match goal with
    | |- Forall _ (Re.sub false (Re.Cls ?neg ?rs) _ _) =>
        apply (sub_chars false (Re.Cls neg rs) (Re.cls_match false neg rs)
                 ltac:(intros p ch s0 idx Hch; now apply match_here_cls)
                 eq_refl
                 (fun ch => Py.is_space ch = false \/ ch = " "%char))
    end.
    + intros ch H1 H2. apply allowed_chars; [exact H1|exact H2].
    + intros mt. constructor.
    + apply collapse_blanks_chars.
  - rewrite Hc. apply strip_idem.
Qed.

(** X9.  The lightweight [_preprocess_text]: the cleaned text holds allowed
    characters only (word characters, the space and the listed punctuation;
    no tab and no line break) and is stripped; the word and character counts
    are those of the cleaned text; and the average sentence length divides
    the word count by the number of pieces the sentence split returns, which
    is never zero and never smaller than the sentence count. *)
Theorem preprocess_text_cleaned :
  forall text : str,
    let r := MinimalLegalDocumentAnalyzer._preprocess_text text in
    let c := MinimalLegalDocumentAnalyzer.cleaned_text r in
    let st := MinimalLegalDocumentAnalyzer.statistics r in
    let pieces :=
      Re.split false MinimalLegalDocumentAnalyzer.re_sentence_end c in
    Forall (fun ch => Props.allowed ch = true) c
    /\ Py.strip c = c
    /\ MinimalLegalDocumentAnalyzer.word_count st = length (Py.split_ws c)
    /\ MinimalLegalDocumentAnalyzer.character_count st = length c
    /\ MinimalLegalDocumentAnalyzer.sentence_count st <= length pieces
    /\ 1 <= length pieces
    /\ MinimalLegalDocumentAnalyzer.average_sentence_length st
       = (Qnat (MinimalLegalDocumentAnalyzer.word_count st)
          / Qnat (length pieces))%Q.
Proof.
  intros text r c st pieces.
  assert (Hp : 1 <= length pieces).
  { unfold pieces, Re.split.
    pose proof (pieces_nonempty c
                  (Re.finditer false
                     MinimalLegalDocumentAnalyzer.re_sentence_end c) 0).
    destruct (Re.pieces c 0 _); [congruence|simpl; lia]. }
  destruct (preprocess_text_cleaned_aux text) as (Hchars & Hst).
  split; [exact Hchars|]. split; [exact Hst|].
  split; [reflexivity|]. split; [reflexivity|].
  split; [|split; [exact Hp|]].
  - unfold st, r, MinimalLegalDocumentAnalyzer._preprocess_text.
    cbn [MinimalLegalDocumentAnalyzer.statistics
         MinimalLegalDocumentAnalyzer.sentence_count].
    apply filter_length_le.
  - unfold st, r, MinimalLegalDocumentAnalyzer._preprocess_text.
    cbn [MinimalLegalDocumentAnalyzer.statistics
         MinimalLegalDocumentAnalyzer.average_sentence_length
         MinimalLegalDocumentAnalyzer.word_count].
    change (Re.split false MinimalLegalDocumentAnalyzer.re_sentence_end
              (Py.strip
                 (Re.sub false MinimalLegalDocumentAnalyzer.re_disallowed []
                    (Re.sub false (Re.plus Re.ws) [Re.RLit (s2l " ")]
                       text)))) with pieces.
    destruct pieces; [simpl in Hp; lia|reflexivity].
Qed.

(* ================================================================== *)
(** * Clause segmentation after the lightweight preprocessing *)

Lemma search_from_first_char (x : ascii) (b : Re.regex) (s : str) :
  Forall (fun c => c <> x) s ->
  forall p idx, Re.search_from false (Re.Seq (Re.Chr x) b) p s idx = None.
Proof.
  induction 1 as [|c s Hc _ IH]; intros p idx; [reflexivity|].
  unfold Re.search_from; fold Re.search_from.
  assert (E : Re.match_here false (Re.Seq (Re.Chr x) b) p (c :: s) idx = None).
  { unfold Re.match_here. simpl.
    destruct (Ascii.eqb x c) eqn:Ex; [|reflexivity].
    apply Ascii.eqb_eq in Ex. congruence. }
  rewrite E. apply IH.
Qed.

Lemma split_first_char (x : ascii) (b : Re.regex) (s : str) :
  Forall (fun c => c <> x) s ->
  Re.split false (Re.Seq (Re.Chr x) b) s = [s].
Proof.
  intros H. unfold Re.split, Re.finditer. simpl.
  rewrite (search_from_first_char x b s H). reflexivity.
Qed.

Lemma py_split_first_char (x : ascii) (sep s : str) :
  Forall (fun c => c <> x) s ->
  Py.split (x :: sep) s = [s].
Proof.
  unfold Py.split. induction 1 as [|c s Hc _ IH]; simpl; [reflexivity|].
  destruct (Ascii.eqb x c) eqn:E.
  - apply Ascii.eqb_eq in E. congruence.
  - simpl. rewrite IH. reflexivity.
Qed.

(** Without a line break in the text there is a single paragraph and no
    numbered or lettered section. *)
Lemma extract_clauses_one_line (c : str) :
  Forall (fun ch => ch <> nl) c ->
  Py.strip c = c ->
  MinimalLegalDocumentAnalyzer._extract_clauses c
  = if 50 <? length c then [c] else [].
Proof.
  intros Hnl Hst. unfold MinimalLegalDocumentAnalyzer._extract_clauses.
  change MinimalLegalDocumentAnalyzer.re_numbered
    with (Re.Seq (Re.Chr nl)
            (Re.seq [Re.star Re.ws; Re.plus Re.digit; Re.Chr ".";
                     Re.star Re.ws])).
  change MinimalLegalDocumentAnalyzer.re_lettered
    with (Re.Seq (Re.Chr nl)
            (Re.seq [Re.star Re.ws; Re.Cls false Re.r_lower; Re.Chr ")";
                     Re.star Re.ws])).
  rewrite !(split_first_char nl _ c Hnl).
  rewrite (py_split_first_char nl [nl] c Hnl).
  change (MinimalLegalDocumentAnalyzer.section_clauses [c]) with (@nil str).
  cbn [app filter]. rewrite Hst.
  destruct (50 <? length c); [|reflexivity].
  cbn [map firstn]. now rewrite Hst.
Qed.

(** X10.  In the lightweight pipeline the clause segmenter receives the
    cleaned text, in which every line break has become a space: it finds no
    numbered or lettered section and a single paragraph, so it returns the
    whole cleaned text as the only clause when that has more than 50
    characters, and no clause otherwise. *)
Theorem minimal_pipeline_single_clause :
  forall text : str,
    let c :=
      MinimalLegalDocumentAnalyzer.cleaned_text
        (MinimalLegalDocumentAnalyzer._preprocess_text text) in
    MinimalLegalDocumentAnalyzer._extract_clauses c
    = if 50 <? length c then [c] else [].
Proof.
  intros text c.
  destruct (preprocess_text_cleaned_aux text) as (Hchars & Hst).
  apply extract_clauses_one_line; [|exact Hst].
  eapply Forall_impl; [|exact Hchars].
  intros ch. apply allowed_not_newline.
Qed.

(* ================================================================== *)
(** * The rule-based simplifiers on strings *)

Lemma sub_no_match (ic : bool) (r : Re.regex) (t : list Re.ritem) (s : str) :
  Spec.has_match ic r s = false -> Re.sub ic r t s = s.
Proof.
  intros H. apply findall_nil_iff in H.
  unfold Re.findall in H. apply map_eq_nil in H.
  unfold Re.sub. rewrite H. reflexivity.
Qed.

(** Rules none of which has a match leave the clause as it is. *)
Lemma rules_no_match (rules : list (Re.regex * str)) (s : str) :
  (forall rule, In rule rules -> Spec.has_match true (fst rule) s = false) ->
  fold_left (fun s rule => Re.sub true (fst rule) [Re.RLit (snd rule)] s)
            rules s = s.
Proof.
  induction rules as [|rule rules IH]; intros H; simpl; [reflexivity|].
  rewrite sub_no_match by (apply H; now left).
  apply IH. intros r Hr. apply H. now right.
Qed.

(** X11.  The lightweight [_simplify_clause] on a string: it returns; the
    original clause is the stripped argument; the score lies between its
    floor 0.1 and 1; there are at most two key points; and when no rule has
    a match in the stripped clause the simplified clause is the stripped
    clause itself and the score is the floor. *)
Theorem minimal_simplify_clause_on_strings :
  forall (self : MinimalLegalDocumentAnalyzer.t) (s : str),
  exists r,
    MinimalLegalDocumentAnalyzer._simplify_clause self (PyStr s) = Ok r
    /\ MinimalLegalDocumentAnalyzer.original_clause r = Py.strip s
    /\ ((1 # 10) <= MinimalLegalDocumentAnalyzer.simplification_score r
        <= 1)%Q
    /\ length (MinimalLegalDocumentAnalyzer.key_points r) <= 2
    /\ ((forall rule,
           In rule (MinimalLegalDocumentAnalyzer.simplification_rules self) ->
           Spec.has_match true (fst rule) (Py.strip s) = false) ->
        MinimalLegalDocumentAnalyzer.simplified_clause r = Py.strip s
        /\ (MinimalLegalDocumentAnalyzer.simplification_score r
            == 1 # 10)%Q).
Proof.
  intros self s.
  destruct (MinimalLegalDocumentAnalyzer._simplify_clause self (PyStr s))
    as [r|e] eqn:E; [|discriminate].
  exists r. split; [reflexivity|].
  destruct simplification_score_bounds as (_ & Hb).
  specialize (Hb self (PyStr s) r E).
  unfold MinimalLegalDocumentAnalyzer._simplify_clause in E.
  simpl in E. injection E as <-.
  cbn [MinimalLegalDocumentAnalyzer.original_clause
       MinimalLegalDocumentAnalyzer.key_points
       MinimalLegalDocumentAnalyzer.simplified_clause
       MinimalLegalDocumentAnalyzer.simplification_score] in *.
  split; [reflexivity|]. split; [exact Hb|]. split.
  - unfold MinimalLegalDocumentAnalyzer._extract_key_points.
    destruct (Re.findall false re_money _), (Re.findall true re_time _);
      simpl; lia.
  - intros Hno. rewrite (rules_no_match _ _ Hno). split; [reflexivity|].
    destruct (length (Py.split_ws (Py.strip s))) as [|n] eqn:En.
    + reflexivity.
    + rewrite Z.sub_diag.
      assert (H0 : (inject_Z 0 / Qnat (S n) == 0)%Q).
      { unfold Qdiv. ring. }
      rewrite H0. reflexivity.
Qed.

(** X12.  The rule-based [simplify_clause] on a string: the record holds the
    stripped argument and its simplification, the method is "rule_based",
    the simplified clause is stripped and holds no blank character but the
    space (tabs and line breaks have become spaces), there are at most five
    key points, and the score lies between 0 and 1. *)
Theorem fallback_simplify_clause_on_strings :
  forall (self : FallbackSimplifier.t) (s : str),
  exists out,
    FallbackSimplifier.simplify_clause self (PyStr s)
    = FallbackSimplifier.mkSimplified
        (PyStr (Py.strip s)) (PyStr out)
        (FallbackSimplifier._generate_plain_english_summary out)
        (FallbackSimplifier._extract_key_points out)
        (FallbackSimplifier._calculate_simplification_score (Py.strip s) out)
        (s2l "rule_based")
    /\ out = FallbackSimplifier._apply_simplification_rules self (Py.strip s)
    /\ Py.strip out = out
    /\ Forall (fun c => Py.is_space c = true -> c = " "%char) out
    /\ length (FallbackSimplifier._extract_key_points out) <= 5
    /\ (0 <= FallbackSimplifier._calculate_simplification_score
               (Py.strip s) out <= 1)%Q.
Proof.
  intros self s.
  exists (FallbackSimplifier._apply_simplification_rules self (Py.strip s)).
  split; [reflexivity|]. split; [reflexivity|]. split; [|split; [|split]].
  - unfold FallbackSimplifier._apply_simplification_rules. apply strip_idem.
  - unfold FallbackSimplifier._apply_simplification_rules.
    apply strip_chars.
    eapply Forall_impl; [|apply collapse_blanks_chars].
    intros c [H| ->] Hc; [congruence|reflexivity].
  - unfold FallbackSimplifier._extract_key_points. apply firstn_le_length.
  - unfold FallbackSimplifier._calculate_simplification_score.
    split; [apply Q.le_max_l|].
    apply Q.max_lub; [discriminate|apply Q.le_min_l].
Qed.

(* ================================================================== *)
(** * The range of the classifiers *)

Lemma score_patterns_nonneg (text_lower : str) (patterns : list Re.regex) :
  (0 <= MinimalLegalDocumentAnalyzer.score_patterns text_lower patterns)%Z.
Proof.
  unfold MinimalLegalDocumentAnalyzer.score_patterns.
  assert (H : forall acc,
             (0 <= acc)%Z ->
             (0 <= fold_left
                     (fun score pattern =>
                        (score
                         + Z.of_nat (length (Re.findall false pattern
                                               text_lower)))%Z)
                     patterns acc)%Z).
  { induction patterns as [|p ps IH]; intros acc Ha; simpl; [exact Ha|].
    apply IH. lia. }
  apply H. lia.
Qed.

Lemma Qnat_div_zero (n : nat) :
  Qeq_bool (Qnat n / 100) 0 = true -> n = 0.
Proof.
  intros H. destruct n as [|n]; [reflexivity|].
  rewrite (Qnat_div_nonzero (S n)) in H by lia. discriminate.
Qed.

Section MinimalRange.

Import MinimalLegalDocumentAnalyzer.

Variable self : t.
Variable text : str.

Lemma minimal_classify_raises :
  _classify_document self text = Raise ZeroDivisionError
  <-> Py.split_ws text = [].
Proof.
  unfold _classify_document.
  destruct (match py_max _ _ _ with Some best => best | None => _ end)
    as [pt ms].
  unfold truediv.
  destruct (Qeq_bool (Qnat (length (Py.split_ws text)) / 100) 0) eqn:E; simpl.
  - split; [|reflexivity]. intros _.
    apply Qnat_div_zero in E. now apply length_zero_iff_nil.
  - split; [discriminate|]. intros H. rewrite H in E. discriminate.
Qed.

Lemma minimal_classify_range (c : Classification) :
  _classify_document self text = Ok c ->
  (0 <= confidence c <= 1)%Q
  /\ (is_confident c = true <-> (3 # 10 < confidence c)%Q)
  /\ Forall (fun e => (0 <= snd e)%Z) (scores c)
  /\ Py.split_ws text <> [].
Proof.
  unfold _classify_document.
  set (sc := map (fun e => (fst e, score_patterns (Py.lower text) (snd e)))
                 (document_patterns self)).
  assert (Hsc : Forall (fun e : str * Z => (0 <= snd e)%Z) sc).
  { unfold sc. apply Forall_forall. intros e He.
    apply in_map_iff in He as (x & <- & _). apply score_patterns_nonneg. }
  assert (Hbest : forall pt ms,
             match py_max Z.gtb (fun x : str * Z => snd x) sc with
             | Some best => best
             | None => (unknown, 0%Z)
             end = (pt, ms) -> (0 <= ms)%Z).
  { intros pt ms. destruct (py_max Z.gtb _ sc) as [best|] eqn:E.
    - intros ->. apply py_max_Z_first_max, first_max_in in E.
      rewrite Forall_forall in Hsc. apply (Hsc _ E).
    - intros H. injection H as _ <-. lia. }
  destruct (match py_max _ _ _ with Some best => best | None => _ end)
    as [pt ms] eqn:B.
  specialize (Hbest pt ms eq_refl).
  unfold truediv.
  destruct (Qeq_bool (Qnat (length (Py.split_ws text)) / 100) 0) eqn:E;
    simpl; [discriminate|].
  intros H. injection H as <-. simpl.
  assert (Hw : Py.split_ws text <> []).
  { intros Hnil. rewrite Hnil in E. discriminate. }
  split; [|split; [apply Qgt_bool_true|split; [exact Hsc|exact Hw]]].
  split; [|apply Q.le_min_r].
  apply Q.min_glb; [|discriminate].
  assert (Hn : (0 < Qnat (length (Py.split_ws text)) / 100)%Q).
  { apply Qlt_shift_div_l; [reflexivity|]. rewrite Qmult_0_l.
    unfold Qnat. change 0%Q with (inject_Z 0). rewrite <- Zlt_Qlt.
    destruct (Py.split_ws text); [congruence|simpl; lia]. }
  apply Qle_shift_div_l; [exact Hn|]. rewrite Qmult_0_l.
  change 0%Q with (inject_Z 0). now rewrite <- Zle_Qle.
Qed.

(** What the reported confidence is computed from. *)
Lemma minimal_classify_fields (c : Classification) :
  document_patterns self <> [] ->
  _classify_document self text = Ok c ->
  exists ms,
    Spec.first_max Z.le Z.lt snd (scores c) (predicted_type c, ms)
    /\ confidence c
       = Qmin (inject_Z ms / (Qnat (length (Py.split_ws text)) / 100)) 1.
Proof.
  intros Hne. unfold _classify_document.
  set (sc := map (fun e => (fst e, score_patterns (Py.lower text) (snd e)))
                 (document_patterns self)).
  assert (Hs : sc <> []).
  { unfold sc. destruct (document_patterns self); [congruence|].
    simpl. discriminate. }
  destruct (py_max_some _ _ Z.gtb (fun x : str * Z => snd x) sc Hs)
    as [[pt ms] Hbest].
  rewrite Hbest.
  pose proof (py_max_Z_first_max _ _ _ _ Hbest) as Hfm.
  unfold truediv.
  destruct (Qeq_bool (Qnat (length (Py.split_ws text)) / 100) 0);
    simpl; [discriminate|].
  intros H. injection H as <-. simpl. exists ms. auto.
Qed.

End MinimalRange.

(** When no key is larger than that of the head, the first maximum is the
    head. *)
Lemma first_max_head (l : list (str * Z)) (x y : str * Z) :
  Spec.first_max Z.le Z.lt snd (x :: l) y ->
  (forall e, In e (x :: l) -> (snd e <= snd x)%Z) ->
  y = x.
Proof.
  intros (l1 & l2 & Heq & Hlt & _) Hmax.
  destruct l1 as [|a l1]; simpl in Heq; [now injection Heq|].
  injection Heq as <- Hl. exfalso.
  specialize (Hlt x (or_introl eq_refl)).
  assert (Hin : In y (x :: l)).
  { right. rewrite Hl. apply in_or_app. right. now left. }
  specialize (Hmax y Hin). lia.
Qed.

(** X13.  The lightweight classifier and [quick_analyze], which calls it
    first: they raise [ZeroDivisionError] exactly on a text without a word;
    on any other text the classifier returns one of its five type names,
    never "unknown", with a confidence between 0 and 1, [is_confident]
    exactly when the confidence exceeds 0.3, and scores that are not
    negative; a text in which no pattern has a match is labelled "nda",
    the first type, with the confidence 0. *)
Theorem minimal_classifier_range :
  forall text : str,
    (MinimalLegalDocumentAnalyzer._classify_document
       MinimalLegalDocumentAnalyzer.init text = Raise ZeroDivisionError
     <-> Py.split_ws text = [])
    /\ (MinimalLegalDocumentAnalyzer.quick_analyze MinimalLegalDocumentAnalyzer.init text
        = Raise ZeroDivisionError
        <-> Py.split_ws text = [])
    /\ (Py.split_ws text <> [] ->
        exists c q,
          MinimalLegalDocumentAnalyzer._classify_document
            MinimalLegalDocumentAnalyzer.init text = Ok c
          /\ MinimalLegalDocumentAnalyzer.quick_analyze MinimalLegalDocumentAnalyzer.init text
             = Ok q
          /\ MinimalLegalDocumentAnalyzer.q_classification q = c
          /\ MinimalLegalDocumentAnalyzer.q_word_count q = length (Py.split_ws text)
          /\ In (MinimalLegalDocumentAnalyzer.predicted_type c)
                (map s2l ["nda"; "employment_contract"; "service_agreement";
                          "lease_agreement"; "purchase_agreement"])
          /\ MinimalLegalDocumentAnalyzer.predicted_type c <> s2l "unknown"
          /\ (0 <= MinimalLegalDocumentAnalyzer.confidence c <= 1)%Q
          /\ (MinimalLegalDocumentAnalyzer.is_confident c = true
              <-> (3 # 10 < MinimalLegalDocumentAnalyzer.confidence c)%Q)
          /\ Forall (fun e => (0 <= snd e)%Z)
               (MinimalLegalDocumentAnalyzer.scores c)
          /\ (Forall (fun e => snd e = 0%Z)
                (MinimalLegalDocumentAnalyzer.scores c) ->
              MinimalLegalDocumentAnalyzer.predicted_type c = s2l "nda"
              /\ (MinimalLegalDocumentAnalyzer.confidence c == 0)%Q
              /\ MinimalLegalDocumentAnalyzer.is_confident c = false)).
Proof.
  intros text.
  pose proof (minimal_classify_raises MinimalLegalDocumentAnalyzer.init text)
    as Hraise.
  split; [exact Hraise|]. split.
  - unfold MinimalLegalDocumentAnalyzer.quick_analyze.
    destruct (MinimalLegalDocumentAnalyzer._classify_document
                MinimalLegalDocumentAnalyzer.init text) as [c|e] eqn:E; simpl.
    + split; [discriminate|]. intros H. apply Hraise in H. discriminate.
    + destruct Hraise as (H1 & H2). split.
      * intros H. injection H as ->. now apply H1.
      * intros H. specialize (H2 H). injection H2 as ->. reflexivity.
  - intros Hw.
    destruct (minimal_classify_selects MinimalLegalDocumentAnalyzer.init text)
      as (Hret & Hsel); [discriminate|].
    destruct Hret as (c & Hc).
    { destruct (Py.split_ws text); [congruence|simpl; lia]. }
    destruct (Hsel c Hc) as (Hnames & _).
    destruct (minimal_classify_fields MinimalLegalDocumentAnalyzer.init text
                c ltac:(discriminate) Hc) as (s & Hfm & Hcf).
    destruct (minimal_classify_range MinimalLegalDocumentAnalyzer.init text
                c Hc) as (Hconf & Hic & Hsc & _).
    assert (Hin : In (MinimalLegalDocumentAnalyzer.predicted_type c)
                     (map s2l ["nda"; "employment_contract";
                               "service_agreement"; "lease_agreement";
                               "purchase_agreement"])).
    { change (map s2l _)
        with (map fst (MinimalLegalDocumentAnalyzer.document_patterns
                         MinimalLegalDocumentAnalyzer.init)).
      rewrite <- Hnames. apply first_max_in in Hfm.
      now apply (in_map fst) in Hfm. }
    exists c. eexists. split; [exact Hc|]. split.
    { unfold MinimalLegalDocumentAnalyzer.quick_analyze. rewrite Hc. reflexivity. }
    split; [reflexivity|]. split; [reflexivity|]. split; [exact Hin|].
    split.
    { intros Hu. rewrite Hu in Hin. vm_compute in Hin.
      repeat (destruct Hin as [Hin|Hin]; [discriminate|]). exact Hin. }
    split; [exact Hconf|]. split; [exact Hic|]. split; [exact Hsc|].
    intros Hzero.
    assert (Hhead : exists z rest,
               MinimalLegalDocumentAnalyzer.scores c
               = (s2l "nda", z) :: rest).
    { assert (Hn : map fst (MinimalLegalDocumentAnalyzer.scores c)
                   = s2l "nda"
                     :: map s2l ["employment_contract"; "service_agreement";
                                 "lease_agreement"; "purchase_agreement"])
        by exact Hnames.
      destruct (MinimalLegalDocumentAnalyzer.scores c) as [|[n z] rest];
        [discriminate|].
      simpl in Hn. injection Hn as -> _. eauto. }
    destruct Hhead as (z & rest & Hs).
    rewrite Hs in Hfm, Hzero.
    assert (Hz0 : forall e, In e ((s2l "nda", z) :: rest) -> snd e = 0%Z).
    { now apply Forall_forall. }
    assert (Hbest : (MinimalLegalDocumentAnalyzer.predicted_type c, s)
                    = (s2l "nda", z)).
    { apply (first_max_head rest); [exact Hfm|].
      intros e He. rewrite (Hz0 e He), (Hz0 (s2l "nda", z)); [lia|now left]. }
    injection Hbest as Hpt Hsz.
    assert (Hs0 : s = 0%Z).
    { rewrite Hsz. apply (Hz0 (s2l "nda", z)). now left. }
    assert (Hc0 : (MinimalLegalDocumentAnalyzer.confidence c == 0)%Q).
    { rewrite Hcf, Hs0. unfold Qdiv. rewrite Qmult_0_l. reflexivity. }
    split; [exact Hpt|]. split; [exact Hc0|].
    apply not_true_is_false. intros I.
    apply Hic in I. rewrite Hc0 in I. discriminate.
Qed.

(* ================================================================== *)
(** * When the full classifier is confident *)

Section Confident.

Import DocumentClassifier.

Variable text : str.

(** The score of a rule of the registry, in hits. *)
Lemma init_type_score (ty : str) (cfg : Config) :
  In (ty, cfg) (document_patterns init) ->
  (Spec.type_score text cfg
   == Qnat (Spec.keyword_hits text cfg + 2 * Spec.pattern_hits text cfg))%Q.
Proof.
  intros Hin. destruct (init_rule_facts ty cfg Hin) as (_ & Hw).
  rewrite score_type_rule. now apply rule_score_hits.
Qed.

Lemma Qnat_le_inv (a b : nat) : (Qnat a <= Qnat b)%Q -> a <= b.
Proof. unfold Qnat. rewrite <- Zle_Qle. lia. Qed.

Lemma first_max_bound {A : Type} (key : A -> Q) (l : list A) (x y : A) :
  Spec.first_max Qle Qlt key l x -> In y l -> (key y <= key x)%Q.
Proof.
  intros (l1 & l2 & -> & Hlt & Hle) Hin.
  apply in_app_or in Hin as [Hin|[<-|Hin]].
  - apply Qlt_le_weak. now apply Hlt.
  - apply Qle_refl.
  - now apply Hle.
Qed.

Lemma confident_iff :
  is_confident (classify_document init text) = true
  <-> exists ty cfg,
        In (ty, cfg) (document_patterns init)
        /\ (1 <= Spec.pattern_hits text cfg
            \/ 2 <= Spec.keyword_hits text cfg).
Proof.
  destruct (classify_document_contract_gen init text ltac:(discriminate))
    as (_ & (best & Hfm & _ & Hconf & _) & _).
  rewrite all_scores_eq in Hfm by discriminate.
  rewrite Hconf. split.
  - intros H2.
    pose proof (first_max_in _ _ _ _ _ Hfm) as Hin.
    apply in_map_iff in Hin as ([ty cfg] & <- & Hin). simpl in H2.
    exists ty, cfg. split; [exact Hin|].
    fold (Spec.type_score text cfg) in H2.
    rewrite (init_type_score ty cfg Hin) in H2.
    change 2%Q with (Qnat 2) in H2. apply Qnat_le_inv in H2. lia.
  - intros (ty & cfg & Hin & Hhits).
    apply Qle_trans with (Spec.type_score text cfg).
    + rewrite (init_type_score ty cfg Hin).
      change 2%Q with (Qnat 2). apply Qnat_le. lia.
    + apply (first_max_bound (fun e : str * TypeScore => score (snd e)) _ _
               (ty, score_type (Py.lower text) cfg) Hfm).
      apply in_map_iff. exists (ty, cfg). auto.
Qed.

End Confident.

(** X14.  The full classifier is confident exactly when some registered
    type has a pattern with a match, or two keywords that occur, in the
    text; a single keyword is never enough.  It then reports one of the
    eight registered names; otherwise it reports "unknown", which is not one
    of them. *)
Theorem classification_confident_iff :
  forall text : str,
    let r := DocumentClassifier.classify_document DocumentClassifier.init
               text in
    let names :=
      map fst (DocumentClassifier.document_patterns DocumentClassifier.init) in
    (DocumentClassifier.is_confident r = true
     <-> exists ty cfg,
           In (ty, cfg)
              (DocumentClassifier.document_patterns DocumentClassifier.init)
           /\ (1 <= Spec.pattern_hits text cfg
               \/ 2 <= Spec.keyword_hits text cfg))
    /\ (DocumentClassifier.is_confident r = true ->
        In (DocumentClassifier.predicted_type r) names)
    /\ (DocumentClassifier.is_confident r = false <->
        DocumentClassifier.predicted_type r = s2l "unknown")
    /\ ~ In (s2l "unknown") names.
Proof.
  intros text r names.
  assert (Hun : ~ In (s2l "unknown") names).
  { vm_compute. intros H.
    repeat (destruct H as [H|H]; [discriminate|]). exact H. }
  destruct (classify_document_contract_gen DocumentClassifier.init text
              ltac:(discriminate))
    as (_ & (best & Hfm & _ & _ & Hpred) & _).
  fold r in Hfm, Hpred.
  assert (Hbest : In (fst best) names).
  { apply first_max_in in Hfm. unfold r in Hfm.
    rewrite all_scores_eq in Hfm by discriminate.
    apply in_map_iff in Hfm as (rule & <- & Hin). cbn [fst].
    unfold names. now apply in_map. }
  split; [apply confident_iff|]. split; [|split; [|exact Hun]].
  - intros Hc. rewrite Hpred, Hc. exact Hbest.
  - split.
    + intros Hc. rewrite Hpred, Hc. reflexivity.
    + intros Hu. apply not_true_is_false. intros Hc.
      rewrite Hpred, Hc in Hu. apply Hun. rewrite <- Hu. exact Hbest.
Qed.

(* ================================================================== *)
(** * Words: splitting what was joined *)

Lemma cons_first_tokens (c : ascii) (l : list str) :
  Py.is_space c = false ->
  Forall Props.token l -> Forall Props.token (Py.cons_first c l).
Proof.
  intros Hc [|p ps (Hp1 & Hp2) Hps]; simpl.
  - repeat constructor; [discriminate|exact Hc].
  - constructor; [|exact Hps]. split; [discriminate|now constructor].
Qed.

(** [s.split()] returns words. *)
Lemma split_ws_tokens (s : str) : Forall Props.token (Py.split_ws s).
Proof.
  induction s as [|c s IH]; simpl; [constructor|].
  destruct (Py.is_space c) eqn:Ec; [exact IH|].
  assert (Hc : Props.token [c]).
  { split; [discriminate|]. now repeat constructor. }
  destruct s as [|d s]; [now repeat constructor|].
  destruct (Py.is_space d).
  - constructor; [exact Hc|exact IH].
  - now apply cons_first_tokens.
Qed.

(** A word in front of the end of the text, or of a blank, is the first
    word of the split. *)
Lemma split_ws_token_app (w : str) :
  Props.token w ->
  forall s,
    match s with [] => True | d :: _ => Py.is_space d = true end ->
    Py.split_ws (w ++ s) = w :: Py.split_ws s.
Proof.
  intros (Hne & Hw). induction Hw as [|c w Hc Hw IH]; [congruence|].
  intros s Hs. cbn [app].
  unfold Py.split_ws; fold Py.split_ws. rewrite Hc.
  destruct w as [|c2 w].
  - simpl. destruct s as [|d s]; [reflexivity|]. now rewrite Hs.
  - cbn [app]. inversion Hw as [|? ? Hc2 _]; subst. rewrite Hc2.
    change (c2 :: w ++ s) with ((c2 :: w) ++ s).
    rewrite IH by (discriminate || exact Hs). reflexivity.
Qed.

(** Joining words with a space and splitting again gives the words back. *)
Lemma split_ws_join (ws : list str) :
  Forall Props.token ws -> Py.split_ws (Py.join (s2l " ") ws) = ws.
Proof.
  induction 1 as [|w ws Hw Hws IH]; [reflexivity|].
  destruct ws as [|w2 ws].
  - simpl. rewrite <- (app_nil_r w) at 1.
    now rewrite split_ws_token_app.
  - change (Py.join (s2l " ") (w :: w2 :: ws))
      with (w ++ " "%char :: Py.join (s2l " ") (w2 :: ws)).
    rewrite split_ws_token_app by (exact Hw || reflexivity).
    f_equal. exact IH.
Qed.

(* ================================================================== *)
(** * The word chunker *)

Section WordChunker.

Import TextPreprocessor.

Variable words : list str.
Variable max_chunk_size overlap : Z.

Hypothesis overlap_range : (0 <= overlap < max_chunk_size)%Z.

Let len := Z.of_nat (length words).

Lemma word_slice_length (a b : Z) :
  (0 <= a <= b)%Z -> (b <= len)%Z ->
  length (word_slice words a b) = Z.to_nat (b - a).
Proof.
  intros Hab Hb. unfold word_slice. fold len.
  rewrite !norm_nonneg by lia.
  rewrite length_firstn, length_skipn. unfold len in *. lia.
Qed.

Lemma word_slice_tokens (a b : Z) :
  Forall Props.token words -> Forall Props.token (word_slice words a b).
Proof.
  intros H. unfold word_slice. apply Forall_firstn.
  rewrite <- (firstn_skipn (Z.to_nat (Py.norm (Z.of_nat (length words)) a))
                words) in H.
  now apply Forall_app in H as (_ & H).
Qed.

(** With fuel for every remaining word the loop finishes, and its chunks
    form the chain. *)
Lemma chunk_loop_chain (fuel : nat) :
  forall start id acc,
    (0 <= start < len)%Z ->
    (len - start <= Z.of_nat fuel)%Z ->
    exists news,
      chunk_loop fuel words max_chunk_size overlap start id acc
      = Some (acc ++ news)
      /\ Props.word_chunks words max_chunk_size overlap start id news.
Proof.
  induction fuel as [|fuel IH]; intros start id acc Hs Hf; [lia|].
  cbn [chunk_loop]. fold len.
  assert (E : (start <? len)%Z = true) by (apply Z.ltb_lt; lia).
  rewrite E.
  destruct (Z_lt_ge_dec (start + max_chunk_size) len) as [L|G].
  - replace (Z.min (start + max_chunk_size) len)
      with (start + max_chunk_size)%Z by lia.
    assert (E1 : (start + max_chunk_size <? len)%Z = true)
      by (apply Z.ltb_lt; lia).
    rewrite E1.
    assert (E2 : (len <=? start + max_chunk_size - overlap)%Z = false)
      by (apply Z.leb_gt; lia).
    rewrite E2.
    destruct (IH (start + max_chunk_size - overlap)%Z (S id)
                (acc ++ [mkChunk id
                           (Py.join (s2l " ")
                              (word_slice words start
                                 (start + max_chunk_size)))
                           (length (word_slice words start
                                      (start + max_chunk_size)))
                           start (start + max_chunk_size)]))
      as (news & Hrun & Hch); [lia|lia|].
    rewrite Hrun. eexists. split.
    + rewrite <- app_assoc. reflexivity.
    + rewrite word_slice_length by lia.
      replace (start + max_chunk_size - start)%Z with max_chunk_size by lia.
      constructor; [lia|exact L|exact Hch].
  - replace (Z.min (start + max_chunk_size) len) with len by lia.
    rewrite Z.ltb_irrefl, Z.leb_refl.
    eexists. split; [reflexivity|].
    rewrite word_slice_length by lia.
    constructor; [exact Hs|unfold len in G; lia].
Qed.

(** What the chain says about the chunks. *)
Lemma word_chunks_facts (start : Z) (id : nat) (chunks : list Chunk) :
  Forall Props.token words ->
  Props.word_chunks words max_chunk_size overlap start id chunks ->
  chunks <> []
  /\ map chunk_id chunks = seq id (length chunks)
  /\ Forall (fun c =>
               Py.split_ws (text c)
               = word_slice words (start_word c) (end_word c)
               /\ word_count c = length (Py.split_ws (text c))
               /\ (0 < Z.of_nat (word_count c) <= max_chunk_size)%Z
               /\ (start <= start_word c < end_word c)%Z
               /\ (end_word c <= len)%Z)
       chunks
  /\ (forall i, (start <= i < len)%Z ->
        exists c, In c chunks /\ (start_word c <= i < end_word c)%Z)
  /\ (forall k a b,
        nth_error chunks k = Some a ->
        nth_error chunks (S k) = Some b ->
        end_word a = (start_word a + max_chunk_size)%Z
        /\ start_word b = (end_word a - overlap)%Z)
  /\ (exists c, last chunks c = c /\ end_word c = len).
Proof.
  intros Htok.
  induction 1 as [start id Hs Hl|start id rest Hs Hl Hch IH].
  - assert (Hsp : Py.split_ws
                    (Py.join (s2l " ") (word_slice words start len))
                  = word_slice words start len).
    { apply split_ws_join. now apply word_slice_tokens. }
    fold len. split; [discriminate|]. split; [reflexivity|].
    split; [|split; [|split]].
    + constructor; [|constructor]. cbn [text start_word end_word word_count].
      rewrite Hsp, word_slice_length by lia.
      split; [reflexivity|]. split; [reflexivity|]. lia.
    + intros i Hi. eexists. split; [now left|]. simpl. lia.
    + intros k a b Ha Hb. destruct k; simpl in Hb; [discriminate|].
      destruct k; discriminate.
    + eexists. split; [reflexivity|]. reflexivity.
  - destruct IH as (Hne & Hids & Hall & Hcov & Hnext & (c & Hlast & Hend)).
    assert (Hsp : Py.split_ws
                    (Py.join (s2l " ")
                       (word_slice words start (start + max_chunk_size)))
                  = word_slice words start (start + max_chunk_size)).
    { apply split_ws_join. now apply word_slice_tokens. }
    split; [discriminate|]. split; [simpl; now rewrite Hids|].
    split; [|split; [|split]].
    + constructor.
      * cbn [text start_word end_word word_count].
        rewrite Hsp, word_slice_length by (fold len; lia).
        replace (start + max_chunk_size - start)%Z
          with max_chunk_size by lia.
        split; [reflexivity|]. split; [reflexivity|]. fold len. lia.
      * eapply Forall_impl; [|exact Hall]. cbv beta.
        intros x (H1 & H2 & H3 & H4 & H5).
        repeat split; try assumption; lia.
    + intros i Hi.
      destruct (Z_lt_ge_dec i (start + max_chunk_size)) as [L|G].
      * eexists. split; [now left|]. simpl. lia.
      * destruct (Hcov i) as (x & Hx & Hix); [lia|].
        exists x. split; [now right|exact Hix].
    + intros k a b Ha Hb. destruct k as [|k].
      * simpl in Ha. injection Ha as <-. simpl in Hb.
        inversion Hch; subst; simpl in Hb; injection Hb as <-; simpl;
          split; reflexivity || lia.
      * simpl in Ha, Hb. now apply (Hnext k).
    + exists c. split; [|exact Hend].
      destruct rest as [|x rest]; [congruence|]. exact Hlast.
Qed.

End WordChunker.

(** X15.  The word chunker [chunk_text] with an overlap that is not
    negative and smaller than the chunk size finishes on every text.  It
    returns at least one chunk; the chunks are numbered 0, 1, 2, ...; the
    text of a chunk splits into exactly the words between its bounds, and
    its word count is their number, which is at most [max_chunk_size]; every
    word of the text lies in a chunk; a chunk that has a successor holds
    [max_chunk_size] words and its successor begins [overlap] words before
    its end; and the last chunk ends with the last word. *)
Theorem word_chunker_covers :
  forall (text : str) (max_chunk_size overlap : Z),
    (0 <= overlap < max_chunk_size)%Z ->
    let words := Py.split_ws text in
    let len := Z.of_nat (length words) in
    exists chunks,
      TextPreprocessor.chunk_text text max_chunk_size overlap = Some chunks
      /\ chunks <> []
      /\ map TextPreprocessor.chunk_id chunks = seq 0 (length chunks)
      /\ Forall (fun c =>
                   Py.split_ws (TextPreprocessor.text c)
                   = TextPreprocessor.word_slice words
                       (TextPreprocessor.start_word c)
                       (TextPreprocessor.end_word c)
                   /\ TextPreprocessor.word_count c
                      = length (Py.split_ws (TextPreprocessor.text c))
                   /\ (Z.of_nat (TextPreprocessor.word_count c)
                       <= max_chunk_size)%Z
                   /\ (0 <= TextPreprocessor.start_word c
                       <= TextPreprocessor.end_word c)%Z
                   /\ (TextPreprocessor.end_word c <= len)%Z)
           chunks
      /\ (forall i, (0 <= i < len)%Z ->
            exists c,
              In c chunks
              /\ (TextPreprocessor.start_word c <= i
                  < TextPreprocessor.end_word c)%Z)
      /\ (forall k a b,
            nth_error chunks k = Some a ->
            nth_error chunks (S k) = Some b ->
            TextPreprocessor.end_word a
            = (TextPreprocessor.start_word a + max_chunk_size)%Z
            /\ TextPreprocessor.start_word b
               = (TextPreprocessor.end_word a - overlap)%Z)
      /\ (exists c,
            last chunks c = c /\ TextPreprocessor.end_word c = len).
Proof.
  intros text max_chunk_size overlap Ho words len.
  unfold TextPreprocessor.chunk_text, TextPreprocessor.chunk_text_fuel.
  fold words. fold len.
  destruct (len <=? max_chunk_size)%Z eqn:E.
  - apply Z.leb_le in E. eexists. split; [reflexivity|].
    split; [discriminate|]. split; [reflexivity|].
    split; [|split; [|split]].
    + constructor; [|constructor].
      cbn [TextPreprocessor.text TextPreprocessor.start_word
           TextPreprocessor.end_word TextPreprocessor.word_count].
      fold words.
      assert (Hall : TextPreprocessor.word_slice words 0 len = words).
      { unfold TextPreprocessor.word_slice. fold len.
        rewrite !norm_nonneg by lia.
        replace (Z.to_nat (Z.min 0 len)) with 0 by lia.
        replace (Z.to_nat (Z.min len len - Z.min 0 len))
          with (length words) by (unfold len; lia).
        simpl. apply firstn_all. }
      rewrite Hall. split; [reflexivity|]. split; [reflexivity|].
      fold len. lia.
    + intros i Hi. eexists. split; [now left|]. simpl. lia.
    + intros k a b Ha Hb. destruct k; simpl in Hb; [discriminate|].
      destruct k; discriminate.
    + eexists. split; reflexivity.
  - apply Z.leb_gt in E.
    destruct (chunk_loop_chain words max_chunk_size overlap Ho
                (length words) 0%Z 0 [])
      as (chunks & Hrun & Hch); [fold len; lia|lia|].
    exists chunks. split; [exact Hrun|].
    destruct (word_chunks_facts words max_chunk_size overlap Ho 0%Z 0 chunks
                (split_ws_tokens text) Hch)
      as (H1 & H2 & H3 & H4 & H5 & H6).
    split; [exact H1|]. split; [exact H2|]. split; [|auto].
    eapply Forall_impl; [|exact H3]. cbv beta.
    intros c (A1 & A2 & A3 & A4 & A5). fold len.
    repeat split; try assumption; lia.
Qed.

Lemma word_chunker_covers_witness :
  let text := s2l "a b  c d e" in
  let words := Py.split_ws text in
  let len := Z.of_nat (length words) in
  exists chunks,
    TextPreprocessor.chunk_text text 3 1 = Some chunks
    /\ chunks <> []
    /\ map TextPreprocessor.chunk_id chunks = seq 0 (length chunks)
    /\ Forall (fun c =>
                 Py.split_ws (TextPreprocessor.text c)
                 = TextPreprocessor.word_slice words
                     (TextPreprocessor.start_word c)
                     (TextPreprocessor.end_word c)
                 /\ TextPreprocessor.word_count c
                    = length (Py.split_ws (TextPreprocessor.text c))
                 /\ (Z.of_nat (TextPreprocessor.word_count c) <= 3)%Z
                 /\ (0 <= TextPreprocessor.start_word c
                     <= TextPreprocessor.end_word c)%Z
                 /\ (TextPreprocessor.end_word c <= len)%Z)
         chunks
    /\ (forall i, (0 <= i < len)%Z ->
          exists c,
            In c chunks
            /\ (TextPreprocessor.start_word c <= i
                < TextPreprocessor.end_word c)%Z)
    /\ (forall k a b,
          nth_error chunks k = Some a ->
          nth_error chunks (S k) = Some b ->
          TextPreprocessor.end_word a
          = (TextPreprocessor.start_word a + 3)%Z
          /\ TextPreprocessor.start_word b
             = (TextPreprocessor.end_word a - 1)%Z)
    /\ (exists c, last chunks c = c /\ TextPreprocessor.end_word c = len).
Proof.
  intros text.
  apply (word_chunker_covers text 3 1). lia.
Defined.

(* ================================================================== *)
(** * Greedy removal of near-duplicates *)

Section Greedy.

Variable A : Type.
Variable rel : A -> A -> bool.

Let step (acc : list A) (x : A) : list A :=
  if existsb (rel x) acc then acc else acc ++ [x].

Let apart (a b : A) : Prop := rel b a = false.

Lemma ordpairs_snoc (l : list A) (x : A) :
  ForallOrdPairs apart l -> (forall a, In a l -> apart a x) ->
  ForallOrdPairs apart (l ++ [x]).
Proof.
  induction 1 as [|a l Ha Hl IH]; intros Hx; simpl.
  - constructor; constructor.
  - constructor.
    + apply Forall_app. split; [exact Ha|].
      constructor; [|constructor]. apply Hx. now left.
    + apply IH. intros b Hb. apply Hx. now right.
Qed.

(** The invariant of the loop: what is kept is a subsequence of the
    candidates, no kept element is related to a kept element in front of
    it, and every candidate is kept or related to a kept element. *)
Lemma greedy_fold (l : list A) :
  forall acc,
    ForallOrdPairs apart acc ->
    exists news,
      fold_left step l acc = acc ++ news
      /\ Spec.subseq news l
      /\ ForallOrdPairs apart (acc ++ news)
      /\ (forall x, In x l ->
            In x news \/ exists e, In e (acc ++ news) /\ rel x e = true).
Proof.
  induction l as [|c l IH]; intros acc Hacc.
  - exists []. rewrite app_nil_r. simpl.
    split; [reflexivity|]. split; [constructor|]. split; [exact Hacc|].
    intros x [].
  - simpl fold_left. unfold step at 2.
    destruct (existsb (rel c) acc) eqn:E.
    + destruct (IH acc Hacc) as (news & Hf & Hs & Hp & Hall).
      exists news. split; [exact Hf|]. split; [now constructor|].
      split; [exact Hp|].
      intros x [<-|Hx]; [|now apply Hall].
      right. apply existsb_exists in E as (e & He & Hr).
      exists e. split; [apply in_or_app; now left|exact Hr].
    + assert (Hacc' : ForallOrdPairs apart (acc ++ [c])).
      { apply ordpairs_snoc; [exact Hacc|].
        intros a Ha. unfold apart.
        destruct (rel c a) eqn:R; [|reflexivity].
        assert (existsb (rel c) acc = true)
          by (apply existsb_exists; eauto).
        congruence. }
      destruct (IH (acc ++ [c]) Hacc') as (news & Hf & Hs & Hp & Hall).
      exists (c :: news).
      replace (acc ++ c :: news) with ((acc ++ [c]) ++ news)
        by (rewrite <- app_assoc; reflexivity).
      split; [exact Hf|]. split; [now constructor|]. split; [exact Hp|].
      intros x [<-|Hx]; [left; now left|].
      destruct (Hall x Hx) as [H|H]; [left; now right|right; exact H].
Qed.

(** Candidates that are related to nothing are all kept, repeats
    included. *)
Lemma greedy_keeps (free : A -> bool) (l : list A) :
  (forall x e, free x = true -> rel x e = false) ->
  forall acc,
    filter free (fold_left step l acc) = filter free acc ++ filter free l.
Proof.
  intros Hfree. induction l as [|c l IH]; intros acc; simpl.
  - now rewrite app_nil_r.
  - rewrite IH. unfold step.
    destruct (free c) eqn:F.
    + assert (E : existsb (rel c) acc = false).
      { destruct (existsb (rel c) acc) eqn:E; [|reflexivity].
        apply existsb_exists in E as (e & _ & He).
        rewrite (Hfree c e F) in He. discriminate. }
      rewrite E, filter_app. simpl. rewrite F.
      now rewrite <- app_assoc.
    + destruct (existsb (rel c) acc); [reflexivity|].
      rewrite filter_app. simpl. rewrite F. now rewrite app_nil_r.
Qed.

End Greedy.

Lemma member_in (w : str) (l : list str) :
  TextPreprocessor.member w l = true <-> In w l.
Proof.
  unfold TextPreprocessor.member. rewrite existsb_exists. split.
  - intros (x & Hx & E). apply py_eqb_eq in E. now subst.
  - intros H. exists w. split; [exact H|apply py_eqb_refl].
Qed.

(** A text with a word is as similar to itself as can be. *)
Lemma similar_self (threshold : Q) (text : str) :
  (threshold < 1)%Q ->
  TextPreprocessor.word_set text <> [] ->
  TextPreprocessor.similar threshold (TextPreprocessor.word_set text) text
  = true.
Proof.
  intros Ht Hne. unfold TextPreprocessor.similar.
  set (a := TextPreprocessor.word_set text) in *.
  assert (Hl : 0 < length a) by (destruct a; [congruence|simpl; lia]).
  assert (E : (0 <? length a) = true) by now apply Nat.ltb_lt.
  rewrite E. simpl.
  assert (Hi : TextPreprocessor.intersection_size a a = length a).
  { unfold TextPreprocessor.intersection_size. f_equal.
    apply forallb_filter_id. apply forallb_forall.
    intros w Hw. now apply member_in. }
  assert (Hu : TextPreprocessor.union_size a a = length a).
  { unfold TextPreprocessor.union_size.
    replace (filter (fun w => negb (TextPreprocessor.member w a)) a)
      with (@nil str); [simpl; lia|].
    symmetry. clear. 
    assert (H : forall l, (forall w, In w l -> In w a) ->
                filter (fun w => negb (TextPreprocessor.member w a)) l = []).
    { induction l as [|w l IH]; intros Hin; simpl; [reflexivity|].
      assert (Hw : TextPreprocessor.member w a = true)
        by (apply member_in, Hin; now left).
      rewrite Hw. simpl. apply IH. intros x Hx. apply Hin. now right. }
    apply H. auto. }
  rewrite Hi, Hu. apply Qgt_bool_true.
  assert (H1 : (Qnat (length a) / Qnat (length a) == 1)%Q).
  { field. unfold Qnat. intros H0.
    apply (Qlt_irrefl 0). rewrite <- H0 at 2.
    change 0%Q with (inject_Z 0). rewrite <- Zlt_Qlt. lia. }
  now rewrite H1.
Qed.

(** X16.  [remove_duplicates]: the texts kept are a subsequence of the
    input that begins with the first text; no kept text is similar, beyond
    the threshold, to a kept text in front of it; every text of the input is
    kept or similar to a kept one; a text without a word is never taken for
    a duplicate, so all such texts are kept, repeats included; and with a
    threshold below 1 a text that has a word is kept at most once. *)
Theorem remove_duplicates_greedy :
  forall (texts : list str) (threshold : Q),
    let out := TextPreprocessor.remove_duplicates texts threshold in
    let similar_to a b :=
      TextPreprocessor.similar threshold (TextPreprocessor.word_set b) a in
    let wordless text :=
      match TextPreprocessor.word_set text with
      | [] => true
      | _ => false
      end in
    Spec.subseq out texts
    /\ hd_error out = hd_error texts
    /\ ForallOrdPairs (fun a b => similar_to a b = false) out
    /\ (forall x, In x texts ->
          In x out \/ exists e, In e out /\ similar_to e x = true)
    /\ filter wordless out = filter wordless texts
    /\ ((threshold < 1)%Q ->
        forall l1 x l2,
          out = l1 ++ x :: l2 -> wordless x = false -> ~ In x l1).
Proof.
  intros texts threshold out similar_to wordless.
  destruct (greedy_fold str (fun x e => similar_to e x) texts []
              (FOP_nil _)) as (news & Hf & Hs & Hp & Hall).
  simpl in Hf, Hp, Hall.
  assert (Hout : out = news) by exact Hf.
  rewrite Hout.
  split; [exact Hs|]. split; [|split; [exact Hp|split; [exact Hall|split]]].
  - rewrite <- Hout. unfold out, TextPreprocessor.remove_duplicates.
    destruct texts as [|t texts]; [reflexivity|]. simpl.
    destruct (greedy_fold str (fun x e => similar_to e x) texts [t])
      as (n2 & Hf2 & _); [repeat constructor|].
    unfold similar_to in Hf2.
    change (fold_left (TextPreprocessor.dedup_step threshold) texts [t]
            = [t] ++ n2) in Hf2.
    unfold TextPreprocessor.dedup_step at 2. simpl.
    rewrite Hf2. reflexivity.
  - rewrite <- Hout.
    apply (greedy_keeps str (fun x e => similar_to e x) wordless texts).
    intros x e Hx. unfold similar_to, TextPreprocessor.similar.
    unfold wordless in Hx.
    destruct (TextPreprocessor.word_set x); [reflexivity|discriminate].
  - intros Ht l1 x l2 Heq Hw Hin.
    rewrite Heq in Hp. clear - Hp Hin Hw Ht.
    induction l1 as [|a l1 IH]; [destruct Hin|].
    simpl in Hp. inversion Hp as [|? ? Ha Hrest]; subst.
    destruct Hin as [->|Hin]; [|now apply IH].
    apply Forall_app in Ha as (_ & Ha).
    inversion Ha as [|? ? Hx _]; subst.
    unfold similar_to in Hx.
    rewrite similar_self in Hx; [discriminate|exact Ht|].
    unfold wordless in Hw.
    destruct (TextPreprocessor.word_set x); [discriminate|discriminate].
Qed.

(* ================================================================== *)
(** * What the groups of a pattern capture *)

Lemma implb_all (f g : ascii -> bool) (c : ascii) :
  forallb (fun c => implb (f c) (g c)) Props.all_ascii = true ->
  f c = true -> g c = true.
Proof.
  intros H Hf. pose proof (ascii_forall _ H c) as Hc. simpl in Hc.
  rewrite Hf in Hc. exact Hc.
Qed.

Section Captures.

Variable ic : bool.
Variable R : Type.
Variable pb : nat -> ascii -> bool.

Lemma rep_loop_sound check ma (lo : nat) (hi : option nat) (k : Re.cont R) :
  Props.sound pb check ma ->
  forall fuel cnt p s cs x,
    Props.caps_in pb cs ->
    Re.rep_loop ma lo hi k fuel cnt p s cs = Some x ->
    exists p' s' cs' pre,
      s = pre ++ s'
      /\ Props.caps_in pb cs'
      /\ (forall pbc, check pbc = true ->
            Forall (fun c => pbc c = true) pre)
      /\ k p' s' cs' = Some x.
Proof.
  intros Hma.
  assert (Hstop : forall cnt p s cs x,
             Props.caps_in pb cs ->
             (if lo <=? cnt then k p s cs else None) = Some x ->
             exists p' s' cs' pre,
               s = pre ++ s'
               /\ Props.caps_in pb cs'
               /\ (forall pbc, check pbc = true ->
                     Forall (fun c => pbc c = true) pre)
               /\ k p' s' cs' = Some x).
  { intros cnt p s cs x Hcs H. destruct (lo <=? cnt); [|discriminate].
    exists p, s, cs, []. split; [reflexivity|]. split; [exact Hcs|].
    split; [constructor|exact H]. }
  induction fuel as [|fuel IH]; intros cnt p s cs x Hcs H; simpl in H.
  - exact (Hstop _ _ _ _ _ Hcs H).
  - destruct (Re.below cnt hi); [|exact (Hstop _ _ _ _ _ Hcs H)].
    match type of H with
    | match ?t with _ => _ end = _ => destruct t as [y|] eqn:E
    end; [|exact (Hstop _ _ _ _ _ Hcs H)].
    injection H as ->.
    apply Hma in E as (p1 & s1 & cs1 & pre1 & -> & Hcs1 & Hp1 & E);
      [|exact Hcs].
    destruct (length s1 <? length (pre1 ++ s1)); [|discriminate].
    apply IH in E as (p2 & s2 & cs2 & pre2 & -> & Hcs2 & Hp2 & E);
      [|exact Hcs1].
    exists p2, s2, cs2, (pre1 ++ pre2). split; [now rewrite app_assoc|].
    split; [exact Hcs2|]. split; [|exact E].
    intros pbc Hc. apply Forall_app. auto.
Qed.

(** The checks are sound: a pattern that passes [groups_in] captures
    characters of [pb] only. *)
Lemma m_sound (r : Re.regex) :
  Props.groups_in ic pb r = true ->
  Props.sound pb (fun pbc => Props.chars_in ic pbc r)
    (Re.m ic (R := R) r).
Proof.
  induction r as [|c|neg rs| |a IHa b IHb|a IHa b IHb|lo hi a IHa|i a IHa];
    intros Hg p s cs k x Hcs H; simpl in H.
  - exists p, s, cs, []. split; [reflexivity|]. split; [exact Hcs|].
    split; [constructor|exact H].
  - destruct s as [|d s]; [discriminate|].
    destruct (Re.chr_match ic c d) eqn:M; [|discriminate].
    exists (Some d), s, cs, [d]. split; [reflexivity|]. split; [exact Hcs|].
    split; [|exact H]. simpl. intros pbc Hc. constructor; [|constructor].
    exact (implb_all _ _ d Hc M).
  - destruct s as [|d s]; [discriminate|].
    destruct (Re.cls_match ic neg rs d) eqn:M; [|discriminate].
    exists (Some d), s, cs, [d]. split; [reflexivity|]. split; [exact Hcs|].
    split; [|exact H]. simpl. intros pbc Hc. constructor; [|constructor].
    exact (implb_all _ _ d Hc M).
  - destruct (Re.at_boundary p s); [|discriminate].
    exists p, s, cs, []. split; [reflexivity|]. split; [exact Hcs|].
    split; [constructor|exact H].
  - simpl in Hg. apply andb_true_iff in Hg as (Hga & Hgb).
    apply (IHa Hga) in H as (p1 & s1 & cs1 & pre1 & -> & Hcs1 & Hp1 & H);
      [|exact Hcs].
    apply (IHb Hgb) in H as (p2 & s2 & cs2 & pre2 & -> & Hcs2 & Hp2 & H);
      [|exact Hcs1].
    exists p2, s2, cs2, (pre1 ++ pre2). split; [now rewrite app_assoc|].
    split; [exact Hcs2|]. split; [|exact H].
    simpl. intros pbc Hc. apply andb_true_iff in Hc as (Hca & Hcb).
    apply Forall_app. auto.
  - simpl in Hg. apply andb_true_iff in Hg as (Hga & Hgb).
    destruct (Re.m ic a p s cs k) as [y|] eqn:E.
    + injection H as ->.
      apply (IHa Hga) in E as (p1 & s1 & cs1 & pre1 & -> & Hcs1 & Hp1 & E);
        [|exact Hcs].
      exists p1, s1, cs1, pre1. split; [reflexivity|]. split; [exact Hcs1|].
      split; [|exact E].
      simpl. intros pbc Hc. apply andb_true_iff in Hc as (Hca & _). auto.
    + apply (IHb Hgb) in H as (p1 & s1 & cs1 & pre1 & -> & Hcs1 & Hp1 & H);
        [|exact Hcs].
      exists p1, s1, cs1, pre1. split; [reflexivity|]. split; [exact Hcs1|].
      split; [|exact H].
      simpl. intros pbc Hc. apply andb_true_iff in Hc as (_ & Hcb). auto.
  - simpl in Hg.
    exact (rep_loop_sound _ _ lo hi k (IHa Hg) _ _ _ _ _ _ Hcs H).
  - simpl in Hg. apply andb_true_iff in Hg as (Hci & Hga).
    apply (IHa Hga) in H as (p1 & s1 & cs1 & pre1 & -> & Hcs1 & Hp1 & H);
      [|exact Hcs].
    rewrite length_app in H.
    replace (length pre1 + length s1 - length s1) with (length pre1) in H
      by lia.
    rewrite firstn_app, firstn_all, Nat.sub_diag in H. simpl in H.
    rewrite app_nil_r in H.
    exists p1, s1, ((i, pre1) :: cs1), pre1.
    split; [reflexivity|]. split; [|split; [exact Hp1|exact H]].
    constructor; [|exact Hcs1]. simpl. apply Hp1. exact Hci.
Qed.

End Captures.

(** The groups of a match hold characters of [pb] only. *)
Lemma match_here_groups (ic : bool) (pb : nat -> ascii -> bool)
  (r : Re.regex) (p : option ascii) (s : str) (idx : nat) (mt : Re.Match) :
  Props.groups_in ic pb r = true ->
  Re.match_here ic r p s idx = Some mt ->
  forall i, Forall (fun c => pb i c = true) (Re.group i mt).
Proof.
  intros Hg. unfold Re.match_here.
  destruct (Re.m ic r p s [] (fun _ s' cs => Some (s', cs)))
    as [[s' cs]|] eqn:E; [|discriminate].
  intros H. injection H as <-.
  apply (m_sound ic _ pb r Hg) in E as (p1 & s1 & cs1 & pre & _ & Hcs & _ & E);
    [|constructor].
  injection E as -> ->.
  intros i. unfold Re.group. cbn [Re.m_caps].
  destruct (find (fun c => fst c =? i) cs) as [c|] eqn:F; [|constructor].
  apply find_some in F as (Hin & Hi). apply Nat.eqb_eq in Hi.
  unfold Props.caps_in in Hcs. rewrite Forall_forall in Hcs.
  specialize (Hcs c Hin). subst i. exact Hcs.
Qed.

Lemma search_from_here_at (ic : bool) (r : Re.regex) (s : str) :
  forall p idx mt,
    Re.search_from ic r p s idx = Some mt ->
    exists p' s' idx', Re.match_here ic r p' s' idx' = Some mt.
Proof.
  induction s as [|c s IH]; intros p idx mt; simpl.
  - destruct (Re.match_here ic r p [] idx) eqn:E; [|discriminate].
    intros H. injection H as <-. eauto.
  - destruct (Re.match_here ic r p (c :: s) idx) eqn:E.
    + intros H. injection H as <-. eauto.
    + apply IH.
Qed.

(** Every match of [finditer] is a match of the pattern at some position. *)
Lemma finditer_from_here (ic : bool) (r : Re.regex) (fuel : nat) :
  forall p s idx mt,
    In mt (Re.finditer_from fuel ic r p s idx) ->
    exists p' s' idx', Re.match_here ic r p' s' idx' = Some mt.
Proof.
  induction fuel as [|fuel IH]; intros p s idx mt; simpl; [intros []|].
  destruct (Re.search_from ic r p s idx) as [m0|] eqn:E; [|intros []].
  destruct (Re.advance _ p s) as [p' s'].
  intros [<-|Hin].
  - eapply search_from_here_at. exact E.
  - destruct (length s <? _); [destruct Hin|].
    eapply IH. exact Hin.
Qed.

Lemma finditer_groups (ic : bool) (pb : nat -> ascii -> bool)
  (r : Re.regex) (s : str) (mt : Re.Match) :
  Props.groups_in ic pb r = true ->
  In mt (Re.finditer ic r s) ->
  forall i, Forall (fun c => pb i c = true) (Re.group i mt).
Proof.
  intros Hg Hin.
  apply finditer_from_here in Hin as (p & s' & idx & Hm).
  eapply match_here_groups; eauto.
Qed.

(* ================================================================== *)
(** * The derived extractors of the entity recogniser *)

(** The records the loop over a list of patterns collects. *)
Lemma collect_matches {B : Type} (text : str) (g : Re.Match -> B)
  (pats : list LegalNER.pattern) :
  forall acc out,
    foldM (fun acc p =>
             matches <- LegalNER.re_finditer p (PyStr text) ;;
             Ok (acc ++ map g matches))
          pats acc = Ok out ->
    forall b, In b out ->
      In b acc
      \/ exists r mt,
           In (LegalNER.Pat r) pats
           /\ In mt (Re.finditer true r text)
           /\ b = g mt.
Proof.
  induction pats as [|p pats IH]; intros acc out; simpl.
  - intros H. injection H as <-. auto.
  - destruct p as [r|]; simpl; [|discriminate].
    intros H b Hb.
    destruct (IH _ _ H b Hb) as [Hin|(r' & mt & Hp & Hmt & Hg)].
    + apply in_app_or in Hin as [Hin|Hin]; [now left|].
      apply in_map_iff in Hin as (mt & <- & Hmt).
      right. exists r, mt. auto.
    + right. exists r', mt. auto.
Qed.

Lemma is_not_neq (x : string) (c d : ascii) :
  Props.is_not x c = true -> In d (s2l x) -> c <> d.
Proof.
  unfold Props.is_not. intros H Hd ->.
  apply negb_true_iff in H.
  assert (existsb (Ascii.eqb d) (s2l x) = true).
  { apply existsb_exists. exists d. split; [exact Hd|apply Ascii.eqb_refl]. }
  congruence.
Qed.

(** X17.  Every record that [extract_obligations] returns for a string: its
    span lies in the text, [start <= end <= len(text)]; the full clause is
    the stripped [text[start:end]]; the obligation text is stripped and
    holds no full stop; and the context has at most [end - start + 100]
    characters. *)
Theorem obligations_span_and_text :
  forall (text : str) (o : LegalNER.Obligation),
    In o (LegalNER.extract_obligations (PyStr text)) ->
    LegalNER.o_start o <= LegalNER.o_end o <= length text
    /\ LegalNER.o_full_clause o
       = Py.strip (Py.slice text (Z.of_nat (LegalNER.o_start o))
                                 (Z.of_nat (LegalNER.o_end o)))
    /\ Py.strip (LegalNER.o_text o) = LegalNER.o_text o
    /\ Forall (fun c => c <> "."%char) (LegalNER.o_text o)
    /\ length (LegalNER.o_context o)
       <= LegalNER.o_end o - LegalNER.o_start o + 100.
Proof.
  intros text o. unfold LegalNER.extract_obligations.
  destruct (foldM _ LegalNER.obligation_patterns []) as [out|e] eqn:E;
    [|intros []].
  intros Hin.
  destruct (collect_matches text _ _ _ _ E o Hin)
    as [[]|(r & mt & Hr & Hmt & ->)].
  destruct (spans_from_in _ _ _ (finditer_spans true r text) mt Hmt)
    as (_ & H1 & H2 & H3).
  assert (Hg : Props.groups_in true (fun _ => Props.is_not ".") r
               = true).
  { destruct Hr as [Hr|[Hr|[Hr|[]]]]; injection Hr as <-;
      vm_compute; reflexivity. }
  pose proof (finditer_groups true _ r text mt Hg Hmt 1) as Hgrp.
  unfold LegalNER.obligation_of.
  cbn [LegalNER.o_start LegalNER.o_end LegalNER.o_text
       LegalNER.o_full_clause LegalNER.o_context].
  split; [lia|]. split; [now rewrite H3|]. split; [apply strip_idem|].
  split; [|now apply get_context_length].
  apply strip_chars. eapply Forall_impl; [|exact Hgrp].
  intros c Hc. apply (is_not_neq "." c "." Hc). now left.
Qed.

Lemma obligations_span_and_text_witness :
  let text := s2l "The tenant shall pay rent. Done" in
  let o :=
    LegalNER.mkObligation (s2l "pay rent") (s2l "shall pay rent") 11 25
      (s2l "The tenant shall pay rent. Done") in
  LegalNER.o_start o <= LegalNER.o_end o <= length text
  /\ LegalNER.o_full_clause o
     = Py.strip (Py.slice text (Z.of_nat (LegalNER.o_start o))
                               (Z.of_nat (LegalNER.o_end o)))
  /\ Py.strip (LegalNER.o_text o) = LegalNER.o_text o
  /\ Forall (fun c => c <> "."%char) (LegalNER.o_text o)
  /\ length (LegalNER.o_context o)
     <= LegalNER.o_end o - LegalNER.o_start o + 100.
Proof.
  intros text o.
  apply (obligations_span_and_text text o).
  vm_compute. left. reflexivity.
Defined.

(** The records the loop over a list of patterns with group counts
    collects. *)
Lemma collect_groups {B : Type} (text : str) (g : nat -> Re.Match -> list B)
  (pats : list (LegalNER.pattern * nat)) :
  forall acc out,
    foldM (fun acc pn =>
             matches <- LegalNER.re_finditer (fst pn) (PyStr text) ;;
             Ok (acc ++ flat_map (g (snd pn)) matches))
          pats acc = Ok out ->
    forall b, In b out ->
      In b acc
      \/ exists r n mt,
           In (LegalNER.Pat r, n) pats
           /\ In mt (Re.finditer true r text)
           /\ In b (g n mt).
Proof.
  induction pats as [|[p n] pats IH]; intros acc out; simpl.
  - intros H. injection H as <-. auto.
  - destruct p as [r|]; simpl; [|discriminate].
    intros H b Hb.
    destruct (IH _ _ H b Hb) as [Hin|(r' & n' & mt & Hp & Hmt & Hg)].
    + apply in_app_or in Hin as [Hin|Hin]; [now left|].
      apply in_flat_map in Hin as (mt & Hmt & Hg).
      right. exists r, n, mt. auto.
    + right. exists r', n', mt. auto.
Qed.

(** X18.  Every party that [extract_key_parties] returns for a string has
    the type "party" and a name that is stripped, longer than two
    characters and free of commas; every deadline that
    [extract_dates_and_deadlines] returns has the type "deadline", a
    stripped full clause, and a text that is stripped and free of commas. *)
Theorem parties_and_deadlines_text :
  forall text : str,
    Forall (fun party =>
              LegalNER.p_type party = s2l "party"
              /\ Py.strip (LegalNER.p_name party) = LegalNER.p_name party
              /\ 2 < length (LegalNER.p_name party)
              /\ Forall (fun c => c <> ","%char) (LegalNER.p_name party))
      (LegalNER.extract_key_parties (PyStr text))
    /\ Forall (fun d =>
                 LegalNER.d_type d = s2l "deadline"
                 /\ Py.strip (LegalNER.d_full_clause d)
                    = LegalNER.d_full_clause d
                 /\ Py.strip (LegalNER.d_text d) = LegalNER.d_text d
                 /\ Forall (fun c => c <> ","%char) (LegalNER.d_text d))
         (LegalNER.extract_dates_and_deadlines (PyStr text)).
Proof.
  intros text. split.
  - unfold LegalNER.extract_key_parties.
    destruct (foldM _ LegalNER.party_indicators []) as [out|e] eqn:E;
      [|constructor].
    apply Forall_forall. intros party Hin.
    destruct (collect_groups text (LegalNER.parties_of (PyStr text))
                _ _ _ E party Hin)
      as [[]|(r & n & mt & Hr & Hmt & Hp)].
    unfold LegalNER.parties_of in Hp.
    apply in_map_iff in Hp as (g & <- & Hg).
    apply filter_In in Hg as (Hg & Hlen). apply Nat.ltb_lt in Hlen.
    unfold LegalNER.groups in Hg. apply in_map_iff in Hg as (i & <- & _).
    assert (Hgr : Props.groups_in true (fun _ => Props.is_not ",") r
                  = true).
    { destruct Hr as [Hr|[Hr|[Hr|[Hr|[]]]]]; injection Hr as <- _;
        vm_compute; reflexivity. }
    pose proof (finditer_groups true _ r text mt Hgr Hmt i) as Hch.
    cbn [LegalNER.p_type LegalNER.p_name].
    split; [reflexivity|]. split; [apply strip_idem|]. split; [exact Hlen|].
    apply strip_chars. eapply Forall_impl; [|exact Hch].
    intros c Hc. apply (is_not_neq "," c "," Hc). now left.
  - unfold LegalNER.extract_dates_and_deadlines.
    destruct (foldM _ LegalNER.date_context_patterns []) as [out|e] eqn:E;
      [|constructor].
    apply Forall_forall. intros d Hin.
    destruct (collect_matches text _ _ _ _ E d Hin)
      as [[]|(r & mt & Hr & Hmt & ->)].
    assert (Hgr : Props.groups_in true (fun _ => Props.is_not ",") r
                  = true).
    { destruct Hr as [Hr|[Hr|[Hr|[]]]]; injection Hr as <-;
        vm_compute; reflexivity. }
    pose proof (finditer_groups true _ r text mt Hgr Hmt 1) as Hch.
    unfold LegalNER.deadline_of.
    cbn [LegalNER.d_type LegalNER.d_text LegalNER.d_full_clause].
    split; [reflexivity|]. split; [apply strip_idem|].
    split; [apply strip_idem|].
    apply strip_chars. eapply Forall_impl; [|exact Hch].
    intros c Hc. apply (is_not_neq "," c "," Hc). now left.
Qed.

(* ================================================================== *)
(** * Literal patterns under IGNORECASE, and the document characteristics *)

(** A literal matches exactly where the lowered text continues with the
    lowered literal, and it consumes as many characters as it has. *)
Lemma m_lit (R : Type) (w : str) :
  forall p s cs (k : Re.cont R),
    Re.m true (Re.lit_list w) p s cs k
    = if Py.startswith (Py.lower w) (Py.lower s)
      then k (fold_left (fun _ c => Some c) (firstn (length w) s) p)
             (skipn (length w) s) cs
      else None.
Proof.
  induction w as [|c w IH]; intros p s cs k.
  - reflexivity.
  - destruct w as [|c2 w].
    + destruct s as [|d s]; [reflexivity|].
      cbn [Re.lit_list Re.m Py.lower map Py.startswith Datatypes.length
           firstn skipn fold_left].
      unfold Re.chr_match. rewrite andb_true_r. reflexivity.
    + change (Re.lit_list (c :: c2 :: w))
        with (Re.Seq (Re.Chr c) (Re.lit_list (c2 :: w))).
      destruct s as [|d s]; [reflexivity|].
      cbn [Re.m]. rewrite IH.
      cbn [Py.lower map Py.startswith Datatypes.length firstn skipn
           fold_left].
      unfold Re.chr_match.
      destruct (Ascii.eqb (Py.lower_char c) (Py.lower_char d)); reflexivity.
Qed.

Lemma startswith_split (a b s : str) :
  Py.startswith (a ++ b) s
  = (Py.startswith a s && Py.startswith b (skipn (length a) s))%bool.
Proof.
  revert s. induction a as [|x a IH]; intros s.
  - reflexivity.
  - destruct s as [|y s]; [reflexivity|].
    cbn [app Py.startswith Datatypes.length skipn].
    rewrite IH. now rewrite andb_assoc.
Qed.

(** [sub in s]: [s] continues with [sub] at some position. *)
Lemma contains_exists (sub s : str) :
  Py.contains sub s = true
  <-> exists n, n <= length s /\ Py.startswith sub (skipn n s) = true.
Proof.
  induction s as [|c s IH]; rewrite contains_unfold.
  - rewrite orb_false_r. split.
    + intros H. exists 0. split; [lia|exact H].
    + intros (n & _ & H). rewrite skipn_nil in H. exact H.
  - rewrite orb_true_iff, IH. split.
    + intros [H|(n & Hn & H)].
      * exists 0. split; [lia|exact H].
      * exists (S n). split; [cbn [Datatypes.length]; lia|exact H].
    + intros (n & Hn & H). destruct n as [|n].
      * left. exact H.
      * right. exists n. split; [cbn [Datatypes.length] in Hn; lia|exact H].
Qed.

(** A pattern whose match at a position is decided by a test on the rest of
    the text is found exactly when the test holds at some position. *)
Lemma search_from_exists (r : Re.regex) (test : str -> bool) :
  (forall p s idx, Re.match_here true r p s idx <> None <-> test s = true) ->
  forall s p idx,
    Re.search_from true r p s idx <> None
    <-> exists n, n <= length s /\ test (skipn n s) = true.
Proof.
  intros Ht. induction s as [|c s IH]; intros p idx; cbn [Re.search_from].
  - destruct (Re.match_here true r p [] idx) eqn:E.
    + split; [intros _|intros _; discriminate].
      exists 0. split; [lia|]. apply (Ht p [] idx). rewrite E. discriminate.
    + split; [intros H; now elim H|].
      intros (n & _ & H). rewrite skipn_nil in H.
      apply (Ht p [] idx) in H. now elim H.
  - destruct (Re.match_here true r p (c :: s) idx) eqn:E.
    + split; [intros _|intros _; discriminate].
      exists 0. split; [lia|].
      apply (Ht p (c :: s) idx). rewrite E. discriminate.
    + rewrite IH. split.
      * intros (n & Hn & H). exists (S n).
        split; [cbn [Datatypes.length]; lia|exact H].
      * intros (n & Hn & H). destruct n as [|n].
        -- apply (Ht p (c :: s) idx) in H. now elim H.
        -- exists n. split; [cbn [Datatypes.length] in Hn; lia|exact H].
Qed.

Lemma found_exists (r : Re.regex) (test : str -> bool) :
  (forall p s idx, Re.match_here true r p s idx <> None <-> test s = true) ->
  forall text,
    DocumentClassifier.found r text = true
    <-> exists n, n <= length text /\ test (skipn n text) = true.
Proof.
  intros Ht text. rewrite <- (search_from_exists r test Ht text None 0).
  unfold DocumentClassifier.found, Re.search.
  destruct (Re.search_from true r None text 0); split; intros H.
  - discriminate.
  - reflexivity.
  - discriminate H.
  - now elim H.
Qed.

(** A pattern that matches where the lowered text continues with [lw] is
    found exactly in the texts whose lowered form contains [lw]. *)
Lemma found_contains (r : Re.regex) (lw : str) :
  (forall p s idx,
     Re.match_here true r p s idx <> None
     <-> Py.startswith lw (Py.lower s) = true) ->
  forall text, DocumentClassifier.found r text = Py.contains lw (Py.lower text).
Proof.
  intros Ht text. apply bool_iff_eq.
  rewrite (found_exists r (fun s => Py.startswith lw (Py.lower s)) Ht).
  rewrite contains_exists. unfold Py.lower.
  split; intros (n & Hn & H); exists n.
  - rewrite length_map, skipn_map. auto.
  - rewrite length_map, skipn_map in *. auto.
Qed.

Lemma found_contains_either (r : Re.regex) (x y : str) :
  (forall p s idx,
     Re.match_here true r p s idx <> None
     <-> (Py.startswith x (Py.lower s)
          || Py.startswith y (Py.lower s))%bool = true) ->
  forall text,
    DocumentClassifier.found r text
    = (Py.contains x (Py.lower text) || Py.contains y (Py.lower text))%bool.
Proof.
  intros Ht text. apply bool_iff_eq.
  rewrite (found_exists r _ Ht).
  rewrite orb_true_iff, !contains_exists. unfold Py.lower.
  split.
  - intros (n & Hn & H). apply orb_true_iff in H as [H|H]; [left|right];
      exists n; rewrite length_map, skipn_map; auto.
  - intros [(n & Hn & H)|(n & Hn & H)]; exists n;
      rewrite length_map, skipn_map in *; rewrite H;
      (split; [exact Hn|]); [reflexivity|apply orb_true_r].
Qed.

Lemma match_here_lit (w : str) (p : option ascii) (s : str) (idx : nat) :
  Re.match_here true (Re.lit_list w) p s idx <> None
  <-> Py.startswith (Py.lower w) (Py.lower s) = true.
Proof.
  unfold Re.match_here. rewrite m_lit.
  destruct (Py.startswith (Py.lower w) (Py.lower s)); split; intros H.
  - reflexivity.
  - discriminate.
  - now elim H.
  - discriminate H.
Qed.

(** An optional tail does not change where the pattern matches. *)
Lemma match_here_lit_opt (w : str) (b : Re.regex) (p : option ascii)
  (s : str) (idx : nat) :
  Re.match_here true (Re.Seq (Re.lit_list w) (Re.opt b)) p s idx <> None
  <-> Py.startswith (Py.lower w) (Py.lower s) = true.
Proof.
  unfold Re.match_here. cbn [Re.m]. rewrite m_lit.
  destruct (Py.startswith (Py.lower w) (Py.lower s)).
  - unfold Re.opt. cbn [Re.m].
    match goal with
    | |- context [Re.rep_loop ?ma ?lo ?hi ?k ?fuel ?cnt ?p' ?s' ?cs] =>
        pose proof (rep_loop_total ma lo hi k
                      ltac:(intros ? ? ?; discriminate)
                      fuel cnt p' s' cs (le_n 0)) as Ht;
        destruct (Re.rep_loop ma lo hi k fuel cnt p' s' cs) as [[s1 cs1]|]
    end.
    + split; [reflexivity|discriminate].
    + now elim Ht.
  - split; intros H; [now elim H|discriminate H].
Qed.

(** Two literals joined by one character of a class of two characters. *)
Lemma match_here_lit_sep (a b : str) (rs : list (ascii * ascii))
  (x y : ascii) (p : option ascii) (s : str) (idx : nat) :
  (forall d,
     Re.cls_match true false rs d
     = (Ascii.eqb (Py.lower_char x) (Py.lower_char d)
        || Ascii.eqb (Py.lower_char y) (Py.lower_char d))%bool) ->
  Re.match_here true
    (Re.Seq (Re.lit_list a) (Re.Seq (Re.Cls false rs) (Re.lit_list b)))
    p s idx <> None
  <-> (Py.startswith (Py.lower (a ++ x :: b)) (Py.lower s)
       || Py.startswith (Py.lower (a ++ y :: b)) (Py.lower s))%bool = true.
Proof.
  intros Hcls. unfold Re.match_here. cbn [Re.m]. rewrite m_lit.
  rewrite !lower_app, !startswith_split.
  replace (length (Py.lower a)) with (length a)
    by (unfold Py.lower; now rewrite length_map).
  assert (Hsk : skipn (length a) (Py.lower s)
                = Py.lower (skipn (length a) s))
    by (unfold Py.lower; apply skipn_map).
  rewrite !Hsk. clear Hsk.
  destruct (Py.startswith (Py.lower a) (Py.lower s));
    [|split; intros H; [now elim H|discriminate H]].
  rewrite !andb_true_l.
  destruct (skipn (length a) s) as [|d s'];
    [split; intros H; [now elim H|discriminate H]|].
  rewrite Hcls, m_lit.
  cbn [Py.lower map Py.startswith]. unfold Py.lower.
  destruct (Ascii.eqb (Py.lower_char x) (Py.lower_char d)),
    (Ascii.eqb (Py.lower_char y) (Py.lower_char d)),
    (Py.startswith (map Py.lower_char b) (map Py.lower_char s'));
    cbn [orb andb]; split; intros H;
    first [reflexivity | discriminate | now elim H | discriminate H].
Qed.

Lemma cls_hyphen_blank (d : ascii) :
  Re.cls_match true false [Re.one "-"; Re.one " "] d
  = (Ascii.eqb (Py.lower_char "-") (Py.lower_char d)
     || Ascii.eqb (Py.lower_char " ") (Py.lower_char d))%bool.
Proof.
  apply eqb_prop. revert d. apply ascii_forall. vm_compute. reflexivity.
Qed.

Lemma found_lit (w : string) (text : str) :
  Py.lower (s2l w) = s2l w ->
  DocumentClassifier.found (Re.lit w) text = Py.contains (s2l w) (Py.lower text).
Proof.
  intros Hw. apply found_contains. intros p s idx.
  rewrite <- Hw. apply match_here_lit.
Qed.

Lemma found_lit_opt (w : string) (b : Re.regex) (text : str) :
  Py.lower (s2l w) = s2l w ->
  DocumentClassifier.found (Re.Seq (Re.lit w) (Re.opt b)) text
  = Py.contains (s2l w) (Py.lower text).
Proof.
  intros Hw. apply found_contains. intros p s idx.
  rewrite <- Hw. apply match_here_lit_opt.
Qed.

Lemma found_hyphen_time (w : string) (text : str) :
  DocumentClassifier.found (DocumentClassifier.re_hyphen_time w) text
  = (Py.contains (Py.lower (s2l w ++ s2l "-time")) (Py.lower text)
     || Py.contains (Py.lower (s2l w ++ s2l " time")) (Py.lower text))%bool.
Proof.
  apply found_contains_either. intros p s idx.
  apply (match_here_lit_sep (s2l w) (s2l "time") _ "-" " " p s idx).
  apply cls_hyphen_blank.
Qed.

(** X19.  The characteristics of an NDA and of an employment contract.
    For an NDA the [nda_type] is "Mutual NDA" exactly when the lowered text
    contains "mutual", and "Unilateral NDA" otherwise; a [duration], when
    set, is stripped and holds neither a comma nor a line break.  For an
    employment contract the [employment_type] is decided by the first of
    "full-time"/"full time", "part-time"/"part time" and "contract" that
    the lowered text contains, and is not set when it contains none. *)
Theorem document_characteristics_nda_employment :
  forall text : str,
    let has := fun w : string => Py.contains (s2l w) (Py.lower text) in
    let chars := fun ty : string =>
      DocumentClassifier.get_document_characteristics text (s2l ty) in
    DocumentClassifier.nda_type (chars "nda")
    = Some (s2l (if has "mutual" then "Mutual NDA" else "Unilateral NDA"))
    /\ (forall d,
          DocumentClassifier.duration (chars "nda") = Some d ->
          Py.strip d = d
          /\ Forall (fun c => c <> ","%char /\ c <> ascii_of_N 10) d)
    /\ DocumentClassifier.employment_type (chars "employment_contract")
       = (if (has "full-time" || has "full time")%bool
          then Some (s2l "Full-time")
          else if (has "part-time" || has "part time")%bool
               then Some (s2l "Part-time")
          else if has "contract" then Some (s2l "Contract")
          else None).
Proof.
  intros text has chars.
  split; [|split].
  - change (chars "nda") with (DocumentClassifier._analyze_nda text).
    cbn [DocumentClassifier.nda_type DocumentClassifier._analyze_nda].
    unfold DocumentClassifier.re_mutual.
    rewrite (found_lit_opt "mutual" _ text eq_refl).
    fold (has "mutual"). destruct (has "mutual"); reflexivity.
  - change (chars "nda") with (DocumentClassifier._analyze_nda text).
    cbn [DocumentClassifier.duration DocumentClassifier._analyze_nda].
    intros d Hd.
    destruct (Re.search true DocumentClassifier.re_duration text) as [mt|] eqn:E;
      [|discriminate].
    injection Hd as <-. split; [apply strip_idem|].
    apply strip_chars.
    apply search_from_here_at in E as (p & s & idx & E).
    assert (Hgr : Props.groups_in true
                    (fun _ c => (negb (Ascii.eqb c ",")
                                 && negb (Ascii.eqb c (ascii_of_N 10)))%bool)
                    DocumentClassifier.re_duration = true)
      by (vm_compute; reflexivity).
    pose proof (match_here_groups true _ _ p s idx mt Hgr E 1) as Hg.
    eapply Forall_impl; [|exact Hg].
    intros c Hc. cbv beta in Hc.
    apply andb_true_iff in Hc as (H1 & H2).
    apply negb_true_iff in H1, H2.
    split; apply Ascii.eqb_neq; assumption.
  - change (chars "employment_contract")
      with (DocumentClassifier._analyze_employment_contract text).
    cbn [DocumentClassifier.employment_type DocumentClassifier._analyze_employment_contract].
    rewrite !found_hyphen_time. unfold DocumentClassifier.re_contract.
    rewrite (found_lit_opt "contract" _ text eq_refl).
    reflexivity.
Qed.

(** X20.  The characteristics of a service agreement, of a lease and of
    the other types.  For a service agreement the [service_type] is
    "Consulting" exactly when the lowered text contains "consulting".  For
    a lease the [property_type] is "Residential" when the lowered text
    contains "residential", else "Commercial" when it contains
    "commercial", else not set.  The other four registered types and
    "unknown" get the general contract, which sets no optional key,
    whatever the text is. *)
Theorem document_characteristics_service_lease :
  forall text : str,
    let has := fun w : string => Py.contains (s2l w) (Py.lower text) in
    let chars := fun ty : string =>
      DocumentClassifier.get_document_characteristics text (s2l ty) in
    (DocumentClassifier.service_type (chars "service_agreement")
     = Some (s2l "Consulting")
     <-> has "consulting" = true)
    /\ DocumentClassifier.property_type (chars "lease_agreement")
       = (if has "residential" then Some (s2l "Residential")
          else if has "commercial" then Some (s2l "Commercial")
          else None)
    /\ Forall (fun ty =>
                 chars ty
                 = DocumentClassifier.mkCharacteristics (s2l "General Contract") []
                     None None None None None)
         ["purchase_agreement"; "partnership_agreement";
          "license_agreement"; "loan_agreement"; "unknown"].
Proof.
  intros text has chars.
  split; [|split].
  - change (chars "service_agreement")
      with (DocumentClassifier._analyze_service_agreement text).
    cbn [DocumentClassifier.service_type DocumentClassifier._analyze_service_agreement].
    rewrite (found_lit "consulting" text eq_refl).
    fold (has "consulting"). destruct (has "consulting").
    + split; reflexivity.
    + split; [|discriminate].
      destruct (DocumentClassifier.found _ text); discriminate.
  - change (chars "lease_agreement")
      with (DocumentClassifier._analyze_lease_agreement text).
    cbn [DocumentClassifier.property_type DocumentClassifier._analyze_lease_agreement].
    rewrite (found_lit "residential" text eq_refl).
    rewrite (found_lit "commercial" text eq_refl).
    reflexivity.
  - repeat constructor.
Qed.
